(** * Server-authoritative simulation of the paint platformer

    A shallow embedding of [src/server/game-logic.js] (class [GameServer]) and
    of the queue/round part of [src/server.js] (class [GameServerManager]),
    followed by the properties of the physics step, of the snapshot builder,
    of the input sequencing and of the match state machine.

    The numbers of the physics (positions, velocities, bomb timers) and the
    countdowns of the manager are modelled by rationals ([Q]); every
    comparison the code makes is made here on the same two operands, and
    numeric results are compared with [==] (equality of rationals as
    numbers).  The clock of [update] -- [gameTime], the accumulator and the
    time step they are advanced by -- is in IEEE 754 binary64, rounded at
    every operation as in the code: it is the one place where a sum is
    carried over an unbounded number of calls and then compared. *)

From Stdlib Require Import QArith Qabs Qminmax Qround Lqa ZArith Lia Bool Ascii String.
From Stdlib Require Import SpecFloat.
From stdpp Require Import gmap strings list.

Local Open Scope Q_scope.

(** ** Numbers *)

Definition Qltb (a b : Q) : bool := negb (Qle_bool b a).
Definition Qleb (a b : Q) : bool := Qle_bool a b.
Definition Qgtb (a b : Q) : bool := Qltb b a.
Definition Qgeb (a b : Q) : bool := Qleb b a.
Definition Qeqb (a b : Q) : bool := Qeq_bool a b.

(** *** Doubles

    The operations of the code on the numbers of the clock, in binary64
    (53 bits of precision, round to nearest, ties to even). *)
Definition double : Set := spec_float.

Definition dadd : double -> double -> double := SFadd 53 1024.
Definition dsub : double -> double -> double := SFsub 53 1024.
Definition dmul : double -> double -> double := SFmul 53 1024.
Definition ddiv : double -> double -> double := SFdiv 53 1024.

(** [a >= b]: false when either is [NaN]. *)
Definition dgeb (a b : double) : bool := SFleb b a.

(** The double of an integer (exact below 2^53). *)
Definition dofZ (z : Z) : double := binary_normalize 53 1024 z 0 false.

Definition dzero : double := S754_zero false.

(** [Math.min(a, b)]: [NaN] when either is, [-0] below [+0]. *)
Definition dmin (a b : double) : double :=
  match a, b with
  | S754_nan, _ => S754_nan
  | _, S754_nan => S754_nan
  | _, _ =>
      if SFltb a b then a
      else if SFltb b a then b
      else match b with
           | S754_zero true => b
           | _ => a
           end
  end.

(** [Math.floor(a)] *)
Definition dfloor (a : double) : double :=
  match a with
  | S754_finite s m e =>
      if (0 <=? e)%Z then a
      else
        let q := (Z.pos m / 2 ^ (- e))%Z in
        let r := (Z.pos m mod 2 ^ (- e))%Z in
        let n := if s then (if (r =? 0)%Z then - q else - q - 1)%Z else q in
        if (n =? 0)%Z then S754_zero s else dofZ n
  | _ => a
  end.

(** The number a double stands for (0 for [NaN] and the infinities). *)
Definition dvalue (a : double) : Q :=
  match a with
  | S754_finite s m e =>
      let v := if (0 <=? e)%Z then inject_Z (Z.pos m * 2 ^ e)
               else Z.pos m # Z.to_pos (2 ^ (- e)) in
      if s then - v else v
  | _ => 0
  end.

(** The literal [0.1] and [this.fixedTimestep = 1/60] as doubles. *)
Definition tenth : double := ddiv (dofZ 1) (dofZ 10).
Definition fixedTimestepD : double := ddiv (dofZ 1) (dofZ 60).

(** ** Data model *)

(** ['red' | 'blue'] *)
Inductive Team := red | blue.

(** ['white' | 'red' | 'blue'], the paint of a block. *)
Inductive Color := white | painted (t : Team).

#[global] Instance Team_eq_dec : EqDecision Team.
Proof. solve_decision. Defined.

#[global] Instance Color_eq_dec : EqDecision Color.
Proof. solve_decision. Defined.

(** [blocks[row][col] = { x, y, width, height, imageIndex }] *)
Record Block := mkBlock {
  b_x : Q;
  b_y : Q;
  b_width : Q;
  b_height : Q;
  b_imageIndex : Z
}.

(** [spawnPoints[team][i] = { x, y, row, col }] *)
Record SpawnPoint := mkSpawn {
  sp_x : Q;
  sp_y : Q;
  sp_row : Z;
  sp_col : Z
}.

(** An entry of [players]. *)
Record Player := mkPlayer {
  p_playerId : string;
  p_team : Team;
  p_x : Q;
  p_y : Q;
  p_velocityY : Q;
  p_hasBomb : bool;
  p_onGround : bool;
  p_jumpsUsed : nat;
  p_wasInJumpPad : bool
}.

(** An entry of [playerInputs]. *)
Record InputState := mkInput {
  i_a : bool;
  i_d : bool;
  i_w : bool;
  i_s : bool;
  i_wasPressingW : bool;
  i_wasPressingS : bool
}.

(** A pickup bomb of [bombs]. *)
Record Bomb := mkBomb {
  bm_id : nat;
  bm_x : Q;
  bm_y : Q;
  bm_width : Q;
  bm_height : Q;
  bm_spawnRow : Z;
  bm_spawnCol : Z;
  bm_collected : bool;
  bm_respawnTimer : Q;
  bm_respawnDelay : Q
}.

(** An entry of [thrownBombs]. *)
Record ThrownBomb := mkThrown {
  tb_playerId : string;
  tb_x : Q;
  tb_y : Q;
  tb_team : Team;
  tb_velocityX : Q;
  tb_velocityY : Q;
  tb_timer : Q;
  tb_exploded : bool
}.

(** The parsed map file: [cols], [rows], [blocks: [[row,col,tileKind]]]
    (a two-element entry [[row,col]] is the triple with tile kind 0),
    [spawns: {red, blue}], [bombSpawns] (absent when [None]). *)
Record MapData := mkMapData {
  md_cols : Z;
  md_rows : Z;
  md_blocks : list (Z * Z * Z);
  md_spawnsRed : list (Z * Z);
  md_spawnsBlue : list (Z * Z);
  md_bombSpawns : option (list (Z * Z))
}.

(** The fields of [GameServer] that [loadMap] writes and nothing else
    changes afterwards. *)
Record MapGeom := mkGeom {
  mapCols : Z;
  mapRows : Z;
  blocks : list (list (option Block));
  blockWidth : Q;
  blockHeight : Q;
  startX : Q;
  startY : Q;
  CHAR_WIDTH : Q;
  CHAR_HEIGHT : Q;
  spawnRed : list SpawnPoint;
  spawnBlue : list SpawnPoint
}.

(** [spawnIndices = { red, blue }] *)
Record SpawnIndices := mkIdx {
  idx_red : nat;
  idx_blue : nat
}.

(** Game constants (must match the client). *)
Definition GRAVITY : Q := 1500.
Definition JUMP_POWER : Q := -600.
Definition JUMP_PAD_BOUNCE : Q := -900.
Definition SPEED : Q := 180.
Definition MAX_FALL_SPEED : Q := 1200.
Definition MAX_JUMPS : nat := 2.
Definition GAME_WIDTH : Q := 1920.
Definition GAME_HEIGHT : Q := 1080.
Definition JUMP_PAD_INDEX : Z := 9.
Definition fixedTimestep : Q := 1 # 60.

(** ** The block grid *)

(** [blocks[row][col]]; a cell outside the arrays reads as no block. *)
Definition blockIn (bs : list (list (option Block))) (row col : nat) : option Block :=
  match bs !! row with
  | Some r => match r !! col with Some c => c | None => None end
  | None => None
  end.

Definition blockAt (m : MapGeom) (row col : nat) : option Block :=
  blockIn (blocks m) row col.

(** The cells visited by
    [for (row = 0; row < mapRows; row++) for (col = 0; col < mapCols; col++)],
    in that order. *)
Definition gridCells (m : MapGeom) : list (nat * nat) :=
  flat_map (fun row => map (fun col => (row, col)) (seq 0 (Z.to_nat (mapCols m))))
           (seq 0 (Z.to_nat (mapRows m))).

(** The non-null blocks met by that double loop, with their cell. *)
Definition blockEntries (m : MapGeom) : list (nat * nat * Block) :=
  omap (fun rc => match blockAt m rc.1 rc.2 with
                  | Some b => Some (rc.1, rc.2, b)
                  | None => None
                  end) (gridCells m).

Definition blockList (m : MapGeom) : list Block :=
  map snd (blockEntries m).

Definition isJumpPad (b : Block) : bool := Z.eqb (b_imageIndex b) JUMP_PAD_INDEX.

(** [block.imageIndex === JUMP_PAD_INDEX ? block.width * 3 : block.width] *)
Definition effWidth (b : Block) : Q :=
  if isJumpPad b then b_width b * 3 else b_width b.

(** ** Geometry queries *)

(** [getGroundY(x, y)]: the smallest top among the blocks under the
    character's horizontal footprint, from 3 px above its bottom to 50 px
    below. *)
Definition groundCandidate (m : MapGeom) (x y : Q) (b : Block) : bool :=
  let charLeft := x - CHAR_WIDTH m / 2 in
  let charRight := x + CHAR_WIDTH m / 2 in
  let blockLeft := b_x b in
  let blockRight := b_x b + effWidth b in
  let blockTop := b_y b in
  Qltb charLeft blockRight && Qgtb charRight blockLeft &&
  (let distanceBelow := blockTop - y in
   Qgeb distanceBelow (-3) && Qleb distanceBelow 50).

Definition groundStep (m : MapGeom) (x y : Q) (closestGround : option Q) (b : Block)
  : option Q :=
  if groundCandidate m x y b then
    match closestGround with
    | None => Some (b_y b)
    | Some g => if Qltb (b_y b) g then Some (b_y b) else Some g
    end
  else closestGround.

Definition getGroundY (m : MapGeom) (x y : Q) : option Q :=
  fold_left (groundStep m x y) (blockList m) None.

(** The result of [checkCollision]: [{ collided, blockBottom }]. *)
Record Collision := mkCollision {
  collided : bool;
  blockBottom : option Q
}.

Definition noCollision : Collision := mkCollision false None.

(** First iteration of a loop that returns, [None] when every iteration
    ends in [continue]. *)
Fixpoint firstSome {A B : Type} (f : A -> option B) (l : list A) : option B :=
  match l with
  | [] => None
  | a :: l' => match f a with
               | Some r => Some r
               | None => firstSome f l'
               end
  end.

(** The one-way tests made on a jump pad that overlaps the character:
    [true] when the loop moves on to the next block. *)
Definition jumpPadLetsThrough (m : MapGeom) (y velocityY : Q) (b : Block) : bool :=
  let blockTop := b_y b in
  let blockBottom := b_y b + b_height b in
  if Qltb velocityY 0 then true
  else
    let charBottomY := y in
    let charTopY := y - CHAR_HEIGHT m in
    let distanceFromTop := charBottomY - blockTop in
    if Qleb distanceFromTop 5 then true
    else if Qgtb distanceFromTop 5 && Qleb distanceFromTop (b_height b + 10) then true
    else if Qgeb charTopY blockTop && Qltb charTopY blockBottom then true
    else false.

(** The body of the loop of [checkCollision] for one block: [Some r] when it
    returns [r], [None] when it goes on with the next block. *)
Definition checkCollisionBlock (m : MapGeom) (x y velocityY : Q) (prevY : option Q)
    (b : Block) : option Collision :=
  let charLeft := x - CHAR_WIDTH m / 2 in
  let charRight := x + CHAR_WIDTH m / 2 in
  let charTop := y - CHAR_HEIGHT m in
  let charBottom := y in
  let epsilon := 1 # 2 in
  let blockLeft := b_x b in
  let blockRight := b_x b + effWidth b in
  let blockTop := b_y b in
  let blockBottom := b_y b + b_height b in
  let horizontalEpsilon := 0 in
  let verticalEpsilon := epsilon in
  if Qltb charLeft (blockRight - horizontalEpsilon) &&
     Qgtb charRight (blockLeft + horizontalEpsilon) &&
     Qltb charTop (blockBottom - verticalEpsilon) &&
     Qgtb charBottom (blockTop + verticalEpsilon)
  then
    if isJumpPad b && jumpPadLetsThrough m y velocityY b then None
    else if Qltb velocityY 0 then
      if Qltb charLeft blockRight && Qgtb charRight blockLeft then
        if Qleb charTop blockBottom then
          match prevY with
          | Some _ => Some (mkCollision true (Some blockBottom))
          | None => Some (mkCollision true (Some blockBottom))
          end
        else None
      else None
    else Some (mkCollision true None)
  else None.

(** The loop of [checkCollision] over a list of blocks. *)
Definition collisionAmong (m : MapGeom) (x y velocityY : Q) (prevY : option Q)
    (l : list Block) : Collision :=
  match firstSome (checkCollisionBlock m x y velocityY prevY) l with
  | Some r => r
  | None => noCollision
  end.

(** [checkCollision(x, y, velocityY, prevY = null)] *)
Definition checkCollision (m : MapGeom) (x y velocityY : Q) (prevY : option Q)
  : Collision :=
  collisionAmong m x y velocityY prevY (blockList m).

Definition touchDistance (m : MapGeom) : Q := Qmax 3 ((5 / 20) * blockWidth m).
Definition ceilingTouchDistance (m : MapGeom) : Q := Qmax 5 ((8 / 20) * blockWidth m).

(** [isTouchingBlock(x, y)], the wall-jump proximity test. *)
Definition touchesBlock (m : MapGeom) (x y : Q) (b : Block) : bool :=
  let charLeft := x - CHAR_WIDTH m / 2 in
  let charRight := x + CHAR_WIDTH m / 2 in
  let charTop := y - CHAR_HEIGHT m in
  let charBottom := y in
  let blockLeft := b_x b in
  let blockRight := b_x b + effWidth b in
  let blockTop := b_y b in
  let blockBottom := b_y b + b_height b in
  let td := touchDistance m in
  let ctd := ceilingTouchDistance m in
  (Qgeb charRight (blockLeft - td) && Qleb charRight (blockLeft + td) &&
   Qltb charTop blockBottom && Qgtb charBottom blockTop)
  || (Qleb charLeft (blockRight + td) && Qgeb charLeft (blockRight - td) &&
      Qltb charTop blockBottom && Qgtb charBottom blockTop)
  || (Qgeb charBottom (blockTop - ctd) && Qleb charBottom (blockTop + ctd) &&
      Qltb charLeft blockRight && Qgtb charRight blockLeft)
  || (Qleb charTop (blockBottom + td) && Qgeb charTop (blockBottom - td) &&
      Qltb charLeft blockRight && Qgtb charRight blockLeft).

Definition isTouchingBlock (m : MapGeom) (x y : Q) : bool :=
  existsb (touchesBlock m x y) (blockList m).

(** The overlap test of [checkJumpPadCollision] and of the block search of
    [applyMovement]. *)
Definition overlaps (m : MapGeom) (x y : Q) (b : Block) : bool :=
  let charLeft := x - CHAR_WIDTH m / 2 in
  let charRight := x + CHAR_WIDTH m / 2 in
  let charTop := y - CHAR_HEIGHT m in
  let charBottom := y in
  let blockLeft := b_x b in
  let blockRight := b_x b + effWidth b in
  let blockTop := b_y b in
  let blockBottom := b_y b + b_height b in
  Qltb charLeft blockRight && Qgtb charRight blockLeft &&
  Qltb charTop blockBottom && Qgtb charBottom blockTop.

Definition checkJumpPadCollision (m : MapGeom) (x y : Q) : bool :=
  existsb (fun b => isJumpPad b && overlaps m x y b) (blockList m).

(** [getJumpPadAt(x, groundY)]: the first jump pad under the footprint whose
    top is within 2 px of [groundY]. *)
Definition jumpPadMatches (m : MapGeom) (x groundY : Q) (b : Block) : bool :=
  let blockLeft := b_x b in
  let blockRight := b_x b + b_width b * 3 in
  let blockTop := b_y b in
  let charLeft := x - CHAR_WIDTH m / 2 in
  let charRight := x + CHAR_WIDTH m / 2 in
  isJumpPad b &&
  (Qltb charLeft blockRight && Qgtb charRight blockLeft &&
   Qltb (Qabs (groundY - blockTop)) 2).

Definition getJumpPadAt (m : MapGeom) (x groundY : Q) : option Block :=
  List.find (jumpPadMatches m x groundY) (blockList m).

(** [getSpawnPoint(team)]: round-robin over the team's spawn points, the
    centre of the screen when the team has none. *)
Definition spawnsOf (m : MapGeom) (t : Team) : list SpawnPoint :=
  match t with red => spawnRed m | blue => spawnBlue m end.

Definition indexOf (si : SpawnIndices) (t : Team) : nat :=
  match t with red => idx_red si | blue => idx_blue si end.

Definition bumpIndex (si : SpawnIndices) (t : Team) : SpawnIndices :=
  match t with
  | red => mkIdx (S (idx_red si)) (idx_blue si)
  | blue => mkIdx (idx_red si) (S (idx_blue si))
  end.

Definition getSpawnPoint (m : MapGeom) (si : SpawnIndices) (t : Team)
  : (Q * Q) * SpawnIndices :=
  let spawns := spawnsOf m t in
  if Nat.eqb (length spawns) 0 then ((960, 500), si)
  else
    let index := (indexOf si t mod length spawns)%nat in
    match spawns !! index with
    | Some sp => ((sp_x sp, sp_y sp), bumpIndex si t)
    | None => ((960, 500), bumpIndex si t)
    end.

(** ** Field updates of a player *)

Definition setX (v : Q) (p : Player) : Player :=
  mkPlayer (p_playerId p) (p_team p) v (p_y p) (p_velocityY p) (p_hasBomb p)
           (p_onGround p) (p_jumpsUsed p) (p_wasInJumpPad p).
Definition setY (v : Q) (p : Player) : Player :=
  mkPlayer (p_playerId p) (p_team p) (p_x p) v (p_velocityY p) (p_hasBomb p)
           (p_onGround p) (p_jumpsUsed p) (p_wasInJumpPad p).
Definition setVelocityY (v : Q) (p : Player) : Player :=
  mkPlayer (p_playerId p) (p_team p) (p_x p) (p_y p) v (p_hasBomb p)
           (p_onGround p) (p_jumpsUsed p) (p_wasInJumpPad p).
Definition setHasBomb (v : bool) (p : Player) : Player :=
  mkPlayer (p_playerId p) (p_team p) (p_x p) (p_y p) (p_velocityY p) v
           (p_onGround p) (p_jumpsUsed p) (p_wasInJumpPad p).
Definition setOnGround (v : bool) (p : Player) : Player :=
  mkPlayer (p_playerId p) (p_team p) (p_x p) (p_y p) (p_velocityY p) (p_hasBomb p)
           v (p_jumpsUsed p) (p_wasInJumpPad p).
Definition setJumpsUsed (v : nat) (p : Player) : Player :=
  mkPlayer (p_playerId p) (p_team p) (p_x p) (p_y p) (p_velocityY p) (p_hasBomb p)
           (p_onGround p) v (p_wasInJumpPad p).
Definition setWasInJumpPad (v : bool) (p : Player) : Player :=
  mkPlayer (p_playerId p) (p_team p) (p_x p) (p_y p) (p_velocityY p) (p_hasBomb p)
           (p_onGround p) (p_jumpsUsed p) v.

Definition setWasPressingW (v : bool) (i : InputState) : InputState :=
  mkInput (i_a i) (i_d i) (i_w i) (i_s i) v (i_wasPressingS i).

(** ** The per-player block of [updateGame] *)

(** STEP 1: ground check before the input is processed. *)
Definition groundCheck (m : MapGeom) (p : Player) : Player :=
  match getGroundY m (p_x p) (p_y p) with
  | Some groundY =>
      if Qltb (Qabs (p_y p - groundY)) 2 && Qltb (Qabs (p_velocityY p)) 36
      then setJumpsUsed 0 (setOnGround true (setVelocityY 0 (setY groundY p)))
      else setOnGround false p
  | None => setOnGround false p
  end.

Definition mapLeft (m : MapGeom) : Q := startX m + CHAR_WIDTH m / 2.
Definition mapRight (m : MapGeom) : Q :=
  startX m + (inject_Z (mapCols m) * blockWidth m) - CHAR_WIDTH m / 2.
Definition clampX (m : MapGeom) (x : Q) : Q := Qmax (mapLeft m) (Qmin (mapRight m) x).

(** The test of the first double loop of [applyMovement]. *)
Definition alreadyTouchingBlock (m : MapGeom) (p : Player) (dx : Q) (b : Block) : bool :=
  let currentCharLeft := p_x p - CHAR_WIDTH m / 2 in
  let currentCharRight := p_x p + CHAR_WIDTH m / 2 in
  let touchThreshold := 2 in
  let charTop := p_y p - CHAR_HEIGHT m in
  let charBottom := p_y p in
  let blockLeft := b_x b in
  let blockRight := b_x b + effWidth b in
  let blockTop := b_y b in
  let blockBottom := b_y b + b_height b in
  Qltb charTop blockBottom && Qgtb charBottom blockTop &&
  ((Qgtb dx 0 && Qgeb currentCharRight (blockLeft - touchThreshold) &&
    Qleb currentCharRight (blockLeft + touchThreshold))
   || (Qltb dx 0 && Qleb currentCharLeft (blockRight + touchThreshold) &&
       Qgeb currentCharLeft (blockRight - touchThreshold))).

(** The body of the [outer] loop of [applyMovement]: the block the character
    would overlap at [newX] gives the position at its edge. *)
Definition edgePosition (m : MapGeom) (p : Player) (dx newX : Q) (b : Block) : option Q :=
  let blockLeft := b_x b in
  let blockRight := b_x b + effWidth b in
  if overlaps m newX (p_y p) b then
    if Qgtb dx 0 then Some (blockLeft - CHAR_WIDTH m / 2)
    else Some (blockRight + CHAR_WIDTH m / 2)
  else None.

(** [applyMovement(playerId, deltaTime)] on the player and its input state. *)
Definition applyMovement (m : MapGeom) (deltaTime : Q) (inputState : InputState)
    (p : Player) : Player :=
  let dx0 := 0 in
  let dx1 := if i_a inputState then dx0 - SPEED * deltaTime else dx0 in
  let dx := if i_d inputState then dx1 + SPEED * deltaTime else dx1 in
  if negb (Qeqb dx 0) then
    let newX := p_x p + dx in
    let alreadyTouching := existsb (alreadyTouchingBlock m p dx) (blockList m) in
    let p1 :=
      if negb alreadyTouching then
        let collision := checkCollision m newX (p_y p) (p_velocityY p) None in
        if negb (collided collision) then setX (clampX m newX) p
        else
          match firstSome (edgePosition m p dx newX) (blockList m) with
          | Some newPosition =>
              let positionDiff := Qabs (p_x p - newPosition) in
              if Qgtb positionDiff (1 # 1000) then setX (clampX m newPosition) p
              else p
          | None => p
          end
      else p in
    setX (clampX m (p_x p1)) p1
  else p.

(** [isOnJumpPad] of [processJumpInput]: the ground found under the player
    is the top of a jump pad. *)
Definition isOnJumpPad (m : MapGeom) (x y : Q) : bool :=
  match getGroundY m x y with
  | Some currentGroundY =>
      match getJumpPadAt m x currentGroundY with Some _ => true | None => false end
  | None => false
  end.

(** [processJumpInput(playerId)] on the player and its input state. *)
Definition processJumpInput (m : MapGeom) (inputState : InputState) (p : Player)
  : Player * InputState :=
  let justPressedW := i_w inputState && negb (i_wasPressingW inputState) in
  let inputState' := setWasPressingW (i_w inputState) inputState in
  if justPressedW then
    let isInsideJumpPad := checkJumpPadCollision m (p_x p) (p_y p) in
    if isOnJumpPad m (p_x p) (p_y p) || isInsideJumpPad then (p, inputState')
    else if p_onGround p then
      (setOnGround false (setJumpsUsed 1 (setVelocityY JUMP_POWER p)), inputState')
    else if isTouchingBlock m (p_x p) (p_y p) then
      (setJumpsUsed 0 (setVelocityY JUMP_POWER p), inputState')
    else if Nat.ltb (p_jumpsUsed p) MAX_JUMPS && Qgtb (p_velocityY p) 0 then
      (setJumpsUsed (S (p_jumpsUsed p)) (setVelocityY JUMP_POWER p), inputState')
    else (p, inputState')
  else (p, inputState').

(** STEP 2 and 2.5 for a player whose input state may be absent from
    [playerInputs] (both methods then return at once). *)
Definition applyInputState (m : MapGeom) (deltaTime : Q) (inp : option InputState)
    (p : Player) : Player * option InputState :=
  match inp with
  | Some inputState =>
      let p1 := applyMovement m deltaTime inputState p in
      let r := processJumpInput m inputState p1 in
      (r.1, Some r.2)
  | None => (p, None)
  end.

(** STEP 3: gravity. *)
Definition applyGravity (deltaTime : Q) (p : Player) : Player :=
  let v := p_velocityY p + GRAVITY * deltaTime in
  if Qgtb v MAX_FALL_SPEED then setVelocityY MAX_FALL_SPEED p else setVelocityY v p.

(** STEP 4: vertical movement.  [p] is the player after gravity. *)
Definition verticalMove (m : MapGeom) (deltaTime : Q) (p : Player) : Player :=
  let newY := p_y p + p_velocityY p * deltaTime in
  let prevY := p_y p in
  let willBeInJumpPad := checkJumpPadCollision m (p_x p) newY in
  let enteringJumpPad := negb (p_wasInJumpPad p) && willBeInJumpPad in
  let newGroundY := getGroundY m (p_x p) (p_y p) in
  let jumpPad :=
    match newGroundY with
    | Some g => getJumpPadAt m (p_x p) g
    | None => None
    end in
  if Qgtb (p_velocityY p) 0 then
    match newGroundY with
    | Some g =>
        if Qgeb newY g then
          match jumpPad with
          | Some _ =>
              setWasInJumpPad true (setJumpsUsed 0 (setOnGround false
                (setVelocityY JUMP_PAD_BOUNCE (setY g p))))
          | None =>
              let collision := checkCollision m (p_x p) newY (p_velocityY p) (Some prevY) in
              if negb (collided collision) then setOnGround false (setY newY p)
              else setJumpsUsed 0 (setOnGround true (setVelocityY 0 (setY g p)))
          end
        else if enteringJumpPad then
          setWasInJumpPad true (setOnGround false (setY newY
            (setJumpsUsed 0 (setVelocityY JUMP_PAD_BOUNCE p))))
        else
          let collision := checkCollision m (p_x p) newY (p_velocityY p) (Some prevY) in
          if negb (collided collision) then setOnGround false (setY newY p)
          else setOnGround false (setVelocityY 0 p)
    | None =>
        if enteringJumpPad then
          setWasInJumpPad true (setOnGround false (setY newY
            (setJumpsUsed 0 (setVelocityY JUMP_PAD_BOUNCE p))))
        else
          let collision := checkCollision m (p_x p) newY (p_velocityY p) (Some prevY) in
          if negb (collided collision) then setOnGround false (setY newY p)
          else setOnGround false (setVelocityY 0 p)
    end
  else
    if enteringJumpPad then
      let p1 :=
        if Qltb (p_velocityY p) 0 then setVelocityY JUMP_PAD_BOUNCE p
        else if Qeqb (p_velocityY p) 0 then setVelocityY JUMP_PAD_BOUNCE p
        else p in
      setOnGround false (setY newY (setJumpsUsed 0 p1))
    else
      let currentlyOnJumpPad := checkJumpPadCollision m (p_x p) (p_y p) in
      if currentlyOnJumpPad && Qltb (p_velocityY p) 0 then
        setWasInJumpPad true (setOnGround false (setY newY p))
      else
        let collision := checkCollision m (p_x p) newY (p_velocityY p) (Some prevY) in
        if negb (collided collision) then
          setWasInJumpPad willBeInJumpPad (setOnGround false (setY newY p))
        else
          let hitJumpPad := checkJumpPadCollision m (p_x p) newY in
          if hitJumpPad && Qltb (p_velocityY p) 0 then
            setWasInJumpPad true (setOnGround false (setY newY p))
          else
            let p1 :=
              match blockBottom collision with
              | Some bb =>
                  if Qltb (p_velocityY p) 0 then setY (bb + CHAR_HEIGHT m) p else p
              | None => p
              end in
            setWasInJumpPad false (setJumpsUsed 0 (setOnGround false (setVelocityY 0 p1))).

(** STEP 6: final ground check, skipped right after a jump-pad bounce. *)
Definition finalGroundCheck (m : MapGeom) (p : Player) : Player :=
  let justBouncedOnJumpPad := Qltb (p_velocityY p) (-400) && p_wasInJumpPad p in
  if negb justBouncedOnJumpPad then
    match getGroundY m (p_x p) (p_y p) with
    | Some finalGroundY =>
        if Qltb (Qabs (p_y p - finalGroundY)) 3 && Qltb (Qabs (p_velocityY p)) 36 then
          match getJumpPadAt m (p_x p) finalGroundY with
          | Some _ => setOnGround false (setY finalGroundY p)
          | None =>
              setJumpsUsed 0 (setOnGround true (setVelocityY 0 (setY finalGroundY p)))
          end
        else if Qgtb (p_velocityY p) (1 # 10) then setOnGround false p
        else p
    | None => if Qgtb (p_velocityY p) (1 # 10) then setOnGround false p else p
    end
  else p.

(** The jump-pad latch for the next frame. *)
Definition updateJumpPadState (m : MapGeom) (p : Player) : Player :=
  let finalWillBeInJumpPad := checkJumpPadCollision m (p_x p) (p_y p) in
  if negb finalWillBeInJumpPad then setWasInJumpPad false p
  else setWasInJumpPad true p.

(** Respawn at the team's next spawn point (the two fallback branches). *)
Definition respawnAtSpawn (m : MapGeom) (si : SpawnIndices) (p : Player)
  : Player * SpawnIndices :=
  let r := getSpawnPoint m si (p_team p) in
  (setOnGround true (setVelocityY 0 (setY r.1.2 (setX r.1.1 p))), r.2).

(** Safety check: a player inside a block is put on the ground found under
    it, or respawned. *)
Definition safetyCheck (m : MapGeom) (si : SpawnIndices) (p : Player)
  : Player * SpawnIndices :=
  let isInsideJumpPad := checkJumpPadCollision m (p_x p) (p_y p) in
  if negb isInsideJumpPad then
    let safetyCollision := checkCollision m (p_x p) (p_y p) 0 None in
    if collided safetyCollision then
      match getGroundY m (p_x p) (p_y p) with
      | Some safetyGroundY =>
          (setOnGround true (setVelocityY 0 (setY safetyGroundY p)), si)
      | None => respawnAtSpawn m si p
      end
    else (p, si)
  else (p, si).

(** Boundary check on [x]. *)
Definition boundaryCheck (m : MapGeom) (p : Player) : Player :=
  setX (clampX m (p_x p)) p.

(** A player below the map is put on the ground found there, or respawned. *)
Definition fallCheck (m : MapGeom) (si : SpawnIndices) (p : Player)
  : Player * SpawnIndices :=
  if Qgtb (p_y p) GAME_HEIGHT then
    match getGroundY m (p_x p) GAME_HEIGHT with
    | Some emergencyGround =>
        (setOnGround true (setVelocityY 0 (setY emergencyGround p)), si)
    | None => respawnAtSpawn m si p
    end
  else (p, si).

(** The state one player's block of [updateGame] reads and writes. *)
Record StepState := mkStep {
  st_player : Player;
  st_input : option InputState;
  st_spawnIndices : SpawnIndices
}.

(** The callback of [this.players.forEach] at the start of [updateGame], for
    one player: its record, its entry of [playerInputs] and [spawnIndices].
    [deltaTime] is the value already capped by [updateGame]. *)
Definition stepPlayer (m : MapGeom) (deltaTime : Q) (s : StepState) : StepState :=
  let p1 := groundCheck m (st_player s) in
  let r := applyInputState m deltaTime (st_input s) p1 in
  let p3 := applyGravity deltaTime r.1 in
  let p4 := verticalMove m deltaTime p3 in
  let p6 := finalGroundCheck m p4 in
  let p7 := updateJumpPadState m p6 in
  let r8 := safetyCheck m (st_spawnIndices s) p7 in
  let p9 := boundaryCheck m r8.1 in
  let r10 := fallCheck m r8.2 p9 in
  mkStep r10.1 r.2 r10.2.

(** ** The game server *)

(** The mutable state of a [GameServer].  [players] and [changedBlocks] are
    a JavaScript [Map] and [Set]: both iterate in insertion order, so they
    are lists here; a key of [changedBlocks] is the pair that the string
    ["row,col"] encodes.  The fields written by [loadMap] are in [geom]. *)
Record GameServer := mkGS {
  players : list (string * Player);
  playerInputs : gmap string InputState;
  lastProcessedSequence : gmap string Z;
  bombs : list Bomb;
  thrownBombs : list ThrownBomb;
  gameTime : double;
  accumulator : double;
  mapData : option MapData;
  geom : MapGeom;
  spawnIndices : SpawnIndices;
  blockColors : list (list Color);
  changedBlocks : list (Z * Z)
}.

Definition setPlayers (v : list (string * Player)) (g : GameServer) : GameServer :=
  mkGS v (playerInputs g) (lastProcessedSequence g) (bombs g) (thrownBombs g)
       (gameTime g) (accumulator g) (mapData g) (geom g) (spawnIndices g)
       (blockColors g) (changedBlocks g).
Definition setPlayerInputs (v : gmap string InputState) (g : GameServer) : GameServer :=
  mkGS (players g) v (lastProcessedSequence g) (bombs g) (thrownBombs g)
       (gameTime g) (accumulator g) (mapData g) (geom g) (spawnIndices g)
       (blockColors g) (changedBlocks g).
Definition setLastProcessedSequence (v : gmap string Z) (g : GameServer) : GameServer :=
  mkGS (players g) (playerInputs g) v (bombs g) (thrownBombs g)
       (gameTime g) (accumulator g) (mapData g) (geom g) (spawnIndices g)
       (blockColors g) (changedBlocks g).
Definition setBombs (v : list Bomb) (g : GameServer) : GameServer :=
  mkGS (players g) (playerInputs g) (lastProcessedSequence g) v (thrownBombs g)
       (gameTime g) (accumulator g) (mapData g) (geom g) (spawnIndices g)
       (blockColors g) (changedBlocks g).
Definition setThrownBombs (v : list ThrownBomb) (g : GameServer) : GameServer :=
  mkGS (players g) (playerInputs g) (lastProcessedSequence g) (bombs g) v
       (gameTime g) (accumulator g) (mapData g) (geom g) (spawnIndices g)
       (blockColors g) (changedBlocks g).
Definition setGameTime (v : double) (g : GameServer) : GameServer :=
  mkGS (players g) (playerInputs g) (lastProcessedSequence g) (bombs g) (thrownBombs g)
       v (accumulator g) (mapData g) (geom g) (spawnIndices g)
       (blockColors g) (changedBlocks g).
Definition setAccumulator (v : double) (g : GameServer) : GameServer :=
  mkGS (players g) (playerInputs g) (lastProcessedSequence g) (bombs g) (thrownBombs g)
       (gameTime g) v (mapData g) (geom g) (spawnIndices g)
       (blockColors g) (changedBlocks g).
Definition setSpawnIndices (v : SpawnIndices) (g : GameServer) : GameServer :=
  mkGS (players g) (playerInputs g) (lastProcessedSequence g) (bombs g) (thrownBombs g)
       (gameTime g) (accumulator g) (mapData g) (geom g) v
       (blockColors g) (changedBlocks g).
Definition setBlockColors (v : list (list Color)) (g : GameServer) : GameServer :=
  mkGS (players g) (playerInputs g) (lastProcessedSequence g) (bombs g) (thrownBombs g)
       (gameTime g) (accumulator g) (mapData g) (geom g) (spawnIndices g)
       v (changedBlocks g).
Definition setChangedBlocks (v : list (Z * Z)) (g : GameServer) : GameServer :=
  mkGS (players g) (playerInputs g) (lastProcessedSequence g) (bombs g) (thrownBombs g)
       (gameTime g) (accumulator g) (mapData g) (geom g) (spawnIndices g)
       (blockColors g) v.

(** *** Insertion-ordered maps and sets *)

(** [Map.prototype.set]: an existing key keeps its place. *)
Fixpoint omSet {K V : Type} `{EqDecision K} (k : K) (v : V) (l : list (K * V))
  : list (K * V) :=
  match l with
  | [] => [(k, v)]
  | (k', v') :: l' =>
      if decide (k = k') then (k, v) :: l' else (k', v') :: omSet k v l'
  end.

(** [Map.prototype.get] *)
Fixpoint omGet {K V : Type} `{EqDecision K} (k : K) (l : list (K * V)) : option V :=
  match l with
  | [] => None
  | (k', v') :: l' => if decide (k = k') then Some v' else omGet k l'
  end.

(** [Map.prototype.delete] *)
Fixpoint omDelete {K V : Type} `{EqDecision K} (k : K) (l : list (K * V))
  : list (K * V) :=
  match l with
  | [] => []
  | (k', v') :: l' => if decide (k = k') then l' else (k', v') :: omDelete k l'
  end.

(** [Set.prototype.add] *)
Definition setAdd {K : Type} `{EqDecision K} (k : K) (l : list K) : list K :=
  if bool_decide (k ∈ l) then l else l ++ [k].

(** *** Block colours *)

(** [this.blockColors[row][col]], [None] for [undefined]. *)
Definition colorIn (cs : list (list Color)) (row col : nat) : option Color :=
  match cs !! row with
  | Some r => r !! col
  | None => None
  end.

Definition colorAt (g : GameServer) (row col : nat) : option Color :=
  colorIn (blockColors g) row col.

(** [this.blockColors[row][col] = color], on cells of the allocated grid. *)
Definition writeColor (row col : nat) (color : Color) (cs : list (list Color))
  : list (list Color) :=
  match cs !! row with
  | Some r => <[row := <[col := color]> r]> cs
  | None => cs
  end.

(** The cell is a spawn cell or the cell beneath one. *)
Definition spawnMarks (row col : Z) (sp : SpawnPoint) : bool :=
  (Z.eqb (sp_row sp) row && Z.eqb (sp_col sp) col)
  || (Z.eqb row (sp_row sp + 1) && Z.eqb col (sp_col sp)).

Definition isAtSpawn (m : MapGeom) (row col : Z) : bool :=
  existsb (spawnMarks row col) (spawnRed m) || existsb (spawnMarks row col) (spawnBlue m).

(** [setBlockColor(row, col, color)] *)
Definition setBlockColor (row col : Z) (color : Color) (g : GameServer) : GameServer :=
  if Z.ltb row 0 || Z.geb row (mapRows (geom g)) ||
     Z.ltb col 0 || Z.geb col (mapCols (geom g)) then g
  else
    match blockAt (geom g) (Z.to_nat row) (Z.to_nat col) with
    | None => g
    | Some _ =>
        let atSpawn := isAtSpawn (geom g) row col in
        let oldColor := colorAt g (Z.to_nat row) (Z.to_nat col) in
        if bool_decide (oldColor <> Some color) then
          setChangedBlocks (setAdd (row, col) (changedBlocks g))
            (setBlockColors (writeColor (Z.to_nat row) (Z.to_nat col) color (blockColors g)) g)
        else if atSpawn then
          setChangedBlocks (setAdd (row, col) (changedBlocks g)) g
        else g
    end.

(** [resetAllBlocks()] *)
Definition resetBlock (g : GameServer) (e : nat * nat * Block) : GameServer :=
  let row := e.1.1 in
  let col := e.1.2 in
  setChangedBlocks (setAdd (Z.of_nat row, Z.of_nat col) (changedBlocks g))
    (setBlockColors (writeColor row col white (blockColors g)) g).

Definition resetAllBlocks (g : GameServer) : GameServer :=
  fold_left resetBlock (blockEntries (geom g)) g.

(** [countBlocksByTeam()]: [(red, blue)]. *)
Definition countBlocksByTeam (g : GameServer) : nat * nat :=
  fold_left (fun acc (e : nat * nat * Block) =>
               match colorAt g e.1.1 e.1.2 with
               | Some (painted red) => (S acc.1, acc.2)
               | Some (painted blue) => (acc.1, S acc.2)
               | _ => acc
               end) (blockEntries (geom g)) (0%nat, 0%nat).

(** *** Loading the map *)

(** [blocks[row][col] = v] on the allocated grid. *)
Definition writeBlock (row col : nat) (v : option Block)
    (bs : list (list (option Block))) : list (list (option Block)) :=
  match bs !! row with
  | Some r => <[row := <[col := v]> r]> bs
  | None => bs
  end.

Definition inGrid (rows cols row col : Z) : bool :=
  Z.geb row 0 && Z.ltb row rows && Z.geb col 0 && Z.ltb col cols.

(** The geometry computed by [loadMap] from the parsed map file. *)
Definition loadGeom (md : MapData) : MapGeom :=
  let cols := if Z.eqb (md_cols md) 0 then 63%Z else md_cols md in
  let rows := if Z.eqb (md_rows md) 0 then 43%Z else md_rows md in
  let padding := 20 in
  let availableWidth := GAME_WIDTH - (padding * 2) in
  let availableHeight := GAME_HEIGHT - (padding * 2) in
  let blockWidthByCols := availableWidth / inject_Z cols in
  let blockHeightByRows := availableHeight / inject_Z rows in
  let bw := inject_Z (Qfloor (Qmin blockWidthByCols blockHeightByRows)) in
  let bh := bw in
  let gridWidth := bw * inject_Z cols in
  let gridHeight := bh * inject_Z rows in
  let sx := (GAME_WIDTH - gridWidth) / 2 in
  let sy := (GAME_HEIGHT - gridHeight) / 2 in
  let empty := replicate (Z.to_nat rows) (replicate (Z.to_nat cols) (@None Block)) in
  let place bs (bd : Z * Z * Z) :=
    let row := bd.1.1 in
    let col := bd.1.2 in
    let imageIndex := bd.2 in
    if inGrid rows cols row col then
      writeBlock (Z.to_nat row) (Z.to_nat col)
        (Some (mkBlock (sx + inject_Z col * bw) (sy + inject_Z row * bh) bw bh imageIndex)) bs
    else bs in
  let spawn (rc : Z * Z) :=
    mkSpawn (sx + inject_Z rc.2 * bw + bw / 2) (sy + inject_Z rc.1 * bh) rc.1 rc.2 in
  mkGeom cols rows (fold_left place (md_blocks md) empty) bw bh sx sy bw bh
         (map spawn (md_spawnsRed md)) (map spawn (md_spawnsBlue md)).

(** One bomb spawn of [initializeBombs]; a spawn outside the grid is skipped. *)
Definition addBomb (m : MapGeom) (bs : list Bomb) (rc : Z * Z) : list Bomb :=
  let row := rc.1 in
  let col := rc.2 in
  if inGrid (mapRows m) (mapCols m) row col then
    let pos :=
      match blockAt m (Z.to_nat row) (Z.to_nat col) with
      | Some block => (b_x block + b_width block / 2, b_y block)
      | None => (startX m + inject_Z col * blockWidth m + blockWidth m / 2,
                 startY m + inject_Z row * blockHeight m)
      end in
    bs ++ [mkBomb (length bs) pos.1 pos.2 20 20 row col false 0 10]
  else bs.

(** [initializeBombs()] *)
Definition initializeBombs (g : GameServer) : GameServer :=
  match mapData g with
  | None => g
  | Some md =>
      match md_bombSpawns md with
      | None => g
      | Some spawns => setBombs (fold_left (addBomb (geom g)) spawns []) g
      end
  end.

(** [new GameServer(mapName)] when the map file is read and parsed. *)
Definition newGameServer (md : MapData) : GameServer :=
  let m := loadGeom md in
  initializeBombs
    (mkGS [] ∅ ∅ [] [] dzero dzero (Some md) m (mkIdx 0 0)
          (replicate (Z.to_nat (mapRows m)) (replicate (Z.to_nat (mapCols m)) white))
          []).

(** *** Players and inputs *)

Definition defaultInput : InputState := mkInput false false false false false false.

(** [addPlayer(playerId, team)] *)
Definition addPlayer (playerId : string) (team : Team) (g : GameServer)
  : Player * GameServer :=
  let r := getSpawnPoint (geom g) (spawnIndices g) team in
  let player := mkPlayer playerId team r.1.1 r.1.2 0 false false 0 false in
  (player,
   setPlayers (omSet playerId player (players g))
     (setPlayerInputs (<[playerId := defaultInput]> (playerInputs g))
        (setSpawnIndices r.2 g))).

(** [removePlayer(playerId)] *)
Definition removePlayer (playerId : string) (g : GameServer) : GameServer :=
  setLastProcessedSequence (delete playerId (lastProcessedSequence g))
    (setPlayerInputs (delete playerId (playerInputs g))
       (setPlayers (omDelete playerId (players g)) g)).

(** The [key] property of an input event: a string, or a value on which
    [toLowerCase] is not a function (absent, [null], a number, ...). *)
Inductive JsKey := KeyString (s : string) | KeyOther.

Record InputEvent := mkEvent {
  ev_key : JsKey;
  ev_pressed : bool
}.

(** How a call ends: normally, or by a [TypeError] that leaves the state as
    it was mutated so far. *)
Inductive Outcome (A : Type) := Returned (a : A) | Thrown (a : A).
Arguments Returned {A} a.
Arguments Thrown {A} a.

Definition outcomeState {A : Type} (o : Outcome A) : A :=
  match o with Returned a => a | Thrown a => a end.

Definition lowerAscii (c : ascii) : ascii :=
  let n := nat_of_ascii c in
  if Nat.leb 65 n && Nat.leb n 90 then ascii_of_nat (n + 32) else c.

(** [String.prototype.toLowerCase] on the ASCII range. *)
Fixpoint toLowerCase (s : string) : string :=
  match s with
  | EmptyString => EmptyString
  | String c s' => String (lowerAscii c) (toLowerCase s')
  end.

(** The callback of [inputs.forEach] in [applyInputs]. *)
Definition applyEvent (inputState : InputState) (input : InputEvent)
  : Outcome InputState :=
  match ev_key input with
  | KeyOther => Thrown inputState
  | KeyString k =>
      let key := toLowerCase k in
      let newState := ev_pressed input in
      if String.eqb key "a" then
        Returned (mkInput newState (i_d inputState) (i_w inputState) (i_s inputState)
                          (i_wasPressingW inputState) (i_wasPressingS inputState))
      else if String.eqb key "d" then
        Returned (mkInput (i_a inputState) newState (i_w inputState) (i_s inputState)
                          (i_wasPressingW inputState) (i_wasPressingS inputState))
      else if String.eqb key "w" then
        let oldState := i_w inputState || false in
        Returned (mkInput (i_a inputState) (i_d inputState) newState (i_s inputState)
                          oldState (i_wasPressingS inputState))
      else if String.eqb key "s" then
        Returned (mkInput (i_a inputState) (i_d inputState) (i_w inputState) newState
                          (i_wasPressingW inputState)
                          (if negb newState then false else i_wasPressingS inputState))
      else Returned inputState
  end.

Fixpoint applyEvents (inputs : list InputEvent) (inputState : InputState)
  : Outcome InputState :=
  match inputs with
  | [] => Returned inputState
  | input :: rest =>
      match applyEvent inputState input with
      | Returned st => applyEvents rest st
      | Thrown st => Thrown st
      end
  end.

(** [applyInputs(playerId, inputs, gameTime, sequence)]; [sequence] is [None]
    when the argument is [undefined]. *)
Definition applyInputs (playerId : string) (inputs : list InputEvent)
    (clientTime : Q) (sequence : option Z) (g : GameServer) : Outcome GameServer :=
  match omGet playerId (players g) with
  | None => Returned g
  | Some _ =>
      let inputState :=
        match playerInputs g !! playerId with
        | Some st => st
        | None => defaultInput
        end in
      let seqs :=
        match sequence with
        | Some n => <[playerId := n]> (lastProcessedSequence g)
        | None => lastProcessedSequence g
        end in
      let finish st :=
        setLastProcessedSequence seqs
          (setPlayerInputs (<[playerId := st]> (playerInputs g)) g) in
      match applyEvents inputs inputState with
      | Returned st => Returned (finish st)
      | Thrown st => Thrown (finish st)
      end
  end.

(** [throwBomb(playerId, x, y, team, throwDirection)] *)
Definition throwBomb (playerId : string) (x y : Q) (team : Team) (throwDirection : Q)
    (g : GameServer) : GameServer :=
  let bomb := mkThrown playerId x y team (throwDirection * 300) (-480) 0 false in
  let ps :=
    match omGet playerId (players g) with
    | Some player => omSet playerId (setHasBomb false player) (players g)
    | None => players g
    end in
  setPlayers ps (setThrownBombs (thrownBombs g ++ [bomb]) g).

(** *** One simulation tick *)

(** The first [players.forEach] of [updateGame]: every player is stepped in
    the iteration order of the map, on the shared [playerInputs] and
    [spawnIndices]. *)
Fixpoint stepPlayers (m : MapGeom) (deltaTime : Q) (ps : list (string * Player))
    (inputs : gmap string InputState) (si : SpawnIndices)
  : list (string * Player) * gmap string InputState * SpawnIndices :=
  match ps with
  | [] => ([], inputs, si)
  | (playerId, player) :: rest =>
      let s := stepPlayer m deltaTime (mkStep player (inputs !! playerId) si) in
      let inputs' :=
        match st_input s with
        | Some st => <[playerId := st]> inputs
        | None => inputs
        end in
      let r := stepPlayers m deltaTime rest inputs' (st_spawnIndices s) in
      ((playerId, st_player s) :: r.1.1, r.1.2, r.2)
  end.

(** The callback of [thrownBombs.filter]: the bomb after its move, and
    whether it is kept. *)
Definition advanceThrown (deltaTime : Q) (b : ThrownBomb) : ThrownBomb :=
  let vy := tb_velocityY b + GRAVITY * deltaTime in
  mkThrown (tb_playerId b) (tb_x b + tb_velocityX b * deltaTime)
           (tb_y b + vy * deltaTime) (tb_team b) (tb_velocityX b) vy
           (tb_timer b + deltaTime) (tb_exploded b).

Definition thrownKept (b : ThrownBomb) : bool :=
  negb (tb_exploded b || Qgtb (tb_timer b) 2 || Qgtb (tb_y b) 1200).

(** The proximity test of [collectBlockTouches]. *)
Definition paintTouches (m : MapGeom) (p : Player) (b : Block) : bool :=
  let charLeft := p_x p - CHAR_WIDTH m / 2 in
  let charRight := p_x p + CHAR_WIDTH m / 2 in
  let charTop := p_y p - CHAR_HEIGHT m in
  let charBottom := p_y p in
  let td := touchDistance m in
  let blockLeft := b_x b in
  let blockRight := b_x b + effWidth b in
  let blockTop := b_y b in
  let blockBottom := b_y b + b_height b in
  if Qgeb charRight (blockLeft - td) && Qleb charRight (blockLeft + td) &&
     Qltb charTop blockBottom && Qgtb charBottom blockTop then true
  else if Qleb charLeft (blockRight + td) && Qgeb charLeft (blockRight - td) &&
          Qltb charTop blockBottom && Qgtb charBottom blockTop then true
  else if Qgeb charBottom (blockTop - td) && Qleb charBottom (blockTop + td) &&
          Qltb charLeft blockRight && Qgtb charRight blockLeft then true
  else if Qleb charTop (blockBottom + td) && Qgeb charTop (blockBottom - td) &&
          Qltb charLeft blockRight && Qgtb charRight blockLeft then true
  else false.

(** [collectBlockTouches(player, blockTouches)]; [blockTouches] is a [Map]
    from the cell to [{ team, playerId }]. *)
Definition collectBlockTouches (m : MapGeom) (p : Player)
    (blockTouches : list ((nat * nat) * (Team * string)))
  : list ((nat * nat) * (Team * string)) :=
  fold_left (fun touches (e : nat * nat * Block) =>
               if paintTouches m p e.2
               then omSet (e.1.1, e.1.2) (p_team p, p_playerId p) touches
               else touches)
            (blockEntries m) blockTouches.

(** [checkBombCollision(player, bomb)] *)
Definition checkBombCollision (m : MapGeom) (p : Player) (b : Bomb) : bool :=
  let charLeft := p_x p - CHAR_WIDTH m / 2 in
  let charRight := p_x p + CHAR_WIDTH m / 2 in
  let charTop := p_y p - CHAR_HEIGHT m in
  let charBottom := p_y p in
  let bombLeft := bm_x b - bm_width b / 2 in
  let bombRight := bm_x b + bm_width b / 2 in
  let bombTop := bm_y b - bm_height b in
  let bombBottom := bm_y b in
  Qltb charLeft bombRight && Qgtb charRight bombLeft &&
  Qltb charTop bombBottom && Qgtb charBottom bombTop.

Definition setCollected (c : bool) (t : Q) (b : Bomb) : Bomb :=
  mkBomb (bm_id b) (bm_x b) (bm_y b) (bm_width b) (bm_height b)
         (bm_spawnRow b) (bm_spawnCol b) c t (bm_respawnDelay b).

(** The respawn timer of a collected bomb. *)
Definition tickRespawn (deltaTime : Q) (b : Bomb) : Bomb :=
  if bm_collected b then
    let t := bm_respawnTimer b + deltaTime in
    if Qgeb t (bm_respawnDelay b) then setCollected false 0 b
    else setCollected true t b
  else b.

(** The inner [players.forEach] of the bomb loop, entered for a bomb that is
    not collected: every player without a bomb that overlaps it takes it. *)
Fixpoint pickUp (m : MapGeom) (b : Bomb) (ps : list (string * Player))
  : Bomb * list (string * Player) :=
  match ps with
  | [] => (b, [])
  | (playerId, player) :: rest =>
      if negb (p_hasBomb player) && checkBombCollision m player b then
        let r := pickUp m (setCollected true 0 b) rest in
        (r.1, (playerId, setHasBomb true player) :: r.2)
      else
        let r := pickUp m b rest in
        (r.1, (playerId, player) :: r.2)
  end.

(** The callback of [bombs.forEach], threaded over the bombs. *)
Fixpoint updateBombs (m : MapGeom) (deltaTime : Q) (bs : list Bomb)
    (ps : list (string * Player)) : list Bomb * list (string * Player) :=
  match bs with
  | [] => ([], ps)
  | b :: rest =>
      let b1 := tickRespawn deltaTime b in
      let r1 := if negb (bm_collected b1) then pickUp m b1 ps else (b1, ps) in
      let r := updateBombs m deltaTime rest r1.2 in
      (r1.1 :: r.1, r.2)
  end.

(** [updateGame(deltaTime)] *)
Definition updateGame (deltaTime0 : Q) (g : GameServer) : GameServer :=
  let deltaTime := Qmin deltaTime0 (1 / 30) in
  let m := geom g in
  let r := stepPlayers m deltaTime (players g) (playerInputs g) (spawnIndices g) in
  let g1 := setSpawnIndices r.2 (setPlayerInputs r.1.2 (setPlayers r.1.1 g)) in
  let g2 :=
    setThrownBombs
      (List.filter thrownKept (map (advanceThrown deltaTime) (thrownBombs g1))) g1 in
  let blockTouches :=
    fold_left (fun touches (e : string * Player) => collectBlockTouches m e.2 touches)
              (players g2) [] in
  let g3 :=
    fold_left (fun g' (t : (nat * nat) * (Team * string)) =>
                 setBlockColor (Z.of_nat t.1.1) (Z.of_nat t.1.2) (painted t.2.1) g')
              blockTouches g2 in
  let rb := updateBombs m deltaTime (bombs g3) (players g3) in
  setPlayers rb.2 (setBombs rb.1 g3).

(** The body of the [while] loop of [update]: the clock is advanced in
    doubles; the physics get the time step as the rational 1/60. *)
Definition simulationStep (g : GameServer) : GameServer :=
  let g1 := setGameTime (dadd (gameTime g) fixedTimestepD) g in
  let g2 := updateGame fixedTimestep g1 in
  setAccumulator (dsub (accumulator g2) fixedTimestepD) g2.

(** The [while] loop of [update]: at most [remaining] more steps; the steps
    made are counted. *)
Fixpoint updateLoop (remaining : nat) (g : GameServer) : GameServer * nat :=
  match remaining with
  | O => (g, O)
  | S k =>
      if dgeb (accumulator g) fixedTimestepD then
        let r := updateLoop k (simulationStep g) in
        (r.1, S r.2)
      else (g, O)
  end.

Definition maxUpdates : nat := 5.

(** [update(deltaTime)], with the number of steps it made. *)
Definition updateCounting (deltaTime0 : double) (g : GameServer) : GameServer * nat :=
  let deltaTime := dmin deltaTime0 tenth in
  let g1 := setAccumulator (dadd (accumulator g) deltaTime) g in
  let r := updateLoop maxUpdates g1 in
  let g2 := r.1 in
  if dgeb (accumulator g2) fixedTimestepD
  then (setAccumulator fixedTimestepD g2, r.2)
  else (g2, r.2).

Definition update (deltaTime : double) (g : GameServer) : GameServer :=
  (updateCounting deltaTime g).1.

(** *** Snapshots *)

Record SnapPlayer := mkSnapPlayer {
  sn_playerId : string;
  sn_team : Team;
  sn_x : Q;
  sn_y : Q;
  sn_velocityX : Q;
  sn_velocityY : Q;
  sn_hasBomb : bool;
  sn_onGround : bool;
  sn_jumpsUsed : nat
}.

Record SnapBomb := mkSnapBomb {
  sb_id : nat;
  sb_x : Q;
  sb_y : Q;
  sb_collected : bool;
  sb_respawnTimer : Q
}.

(** An entry of [blockChanges]: [{ row, col, color }]; the colour is [None]
    when the cell is outside the colour arrays. *)
Record BlockChange := mkChange {
  bc_row : Z;
  bc_col : Z;
  bc_color : option Color
}.

Record Snapshot := mkSnapshot {
  snap_tick : double;
  snap_serverTime : Z;
  snap_gameTime : double;
  snap_players : list SnapPlayer;
  snap_thrownBombs : list ThrownBomb;
  snap_bombs : list SnapBomb;
  snap_blockChanges : list BlockChange;
  snap_lastProcessedSequences : gmap string Z
}.

Definition snapPlayer (g : GameServer) (player : Player) : SnapPlayer :=
  let velocityX :=
    match playerInputs g !! p_playerId player with
    | Some inputState =>
        let v1 := if i_a inputState then - SPEED else 0 in
        if i_d inputState then SPEED else v1
    | None => 0
    end in
  mkSnapPlayer (p_playerId player) (p_team player) (p_x player) (p_y player)
               velocityX (p_velocityY player) (p_hasBomb player) (p_onGround player)
               (p_jumpsUsed player).

Definition snapBomb (b : Bomb) : SnapBomb :=
  mkSnapBomb (bm_id b) (bm_x b) (bm_y b) (bm_collected b) (bm_respawnTimer b).

(** The callback of [changedBlocks.forEach] in [getSnapshot]. *)
Definition pushChange (g : GameServer) (acc : list BlockChange) (key : Z * Z)
  : list BlockChange :=
  let row := key.1 in
  let col := key.2 in
  if Z.geb row 0 && Z.ltb row (mapRows (geom g)) &&
     Z.geb col 0 && Z.ltb col (mapCols (geom g))
  then acc ++ [mkChange row col (colorAt g (Z.to_nat row) (Z.to_nat col))]
  else acc.

(** [getSnapshot()]: the snapshot and the server after the call.
    [serverTime] is the value of [Date.now()]. *)
Definition getSnapshot (serverTime : Z) (g : GameServer) : Snapshot * GameServer :=
  let tick := dfloor (ddiv (gameTime g) fixedTimestepD) in
  let blockChanges := fold_left (pushChange g) (changedBlocks g) [] in
  let g' := setChangedBlocks [] g in
  let snapshot :=
    mkSnapshot tick serverTime (gameTime g')
      (map (snapPlayer g') (map snd (players g')))
      (thrownBombs g')
      (map snapBomb (bombs g'))
      blockChanges
      (map_fold (fun playerId sequence (o : gmap string Z) => <[playerId := sequence]> o)
                ∅ (lastProcessedSequence g')) in
  (snapshot, g').

(** ** The match state machine of [GameServerManager] *)

Inductive GameState := QUEUE | PLAYING | ENDED.

(** An entry of the manager's [players]: [{ socketId, team, character }];
    [character] is the player record made by [addPlayer]. *)
Record PlayerInfo := mkInfo {
  pi_socketId : string;
  pi_team : option Team;
  pi_character : option Player
}.

(** The fields of [GameServerManager] the timers read and write; [queued]
    is its [players] map (an insertion-ordered [Map], hence a list), the
    times are values of [Date.now()]. *)
Record Manager := mkManager {
  gameServer : GameServer;
  queued : list (string * PlayerInfo);
  gameState : GameState;
  queueCountdown : Q;
  gameCountdown : Q;
  lastQueueUpdate : Q;
  lastGameUpdate : Q;
  roundNumber : nat;
  currentRoundStartTime : option Q
}.

Definition setQueueCountdown (v : Q) (mg : Manager) : Manager :=
  mkManager (gameServer mg) (queued mg) (gameState mg) v (gameCountdown mg)
            (lastQueueUpdate mg) (lastGameUpdate mg) (roundNumber mg)
            (currentRoundStartTime mg).

(** What [updateTimers] leaves to be done after it returns. *)
Inductive Pending :=
  | NoPending
  | PausedCheck   (* [checkGamePaused().then(...)] was started *)
  | EndGame       (* [endGame()] is called *)
  | Broadcast     (* [broadcastGameState()] is called *).

(** [teams[teamIndex % 2]] *)
Definition teamOfIndex (teamIndex : nat) : Team :=
  if Nat.eqb (teamIndex mod 2) 0 then red else blue.

(** The [players.forEach] of [startGame]: teams in turn, every player added
    to the game server. *)
Fixpoint assignTeams (teamIndex : nat) (ps : list (string * PlayerInfo))
    (g : GameServer) : list (string * PlayerInfo) * GameServer :=
  match ps with
  | [] => ([], g)
  | (playerId, playerInfo) :: rest =>
      let team := teamOfIndex teamIndex in
      let r := addPlayer playerId team g in
      let info := mkInfo (pi_socketId playerInfo) (Some team) (Some r.1) in
      let rr := assignTeams (S teamIndex) rest r.2 in
      ((playerId, info) :: rr.1, rr.2)
  end.

(** [startGame()] at time [now] (one reading of [Date.now()] for the two
    of the source): the snapshot of its final [broadcastSnapshot()], taken
    with [serverTime], and the manager after. *)
Definition startGame (now : Q) (serverTime : Z) (mg : Manager)
  : Snapshot * Manager :=
  let g1 := resetAllBlocks (gameServer mg) in
  let g2 := setGameTime dzero g1 in
  let g3 := initializeBombs g2 in
  let r := assignTeams 0 (queued mg) g3 in
  let s := getSnapshot serverTime r.2 in
  (s.1,
   mkManager s.2 r.1 PLAYING (queueCountdown mg) 120 (lastQueueUpdate mg) now
             (S (roundNumber mg)) (Some now)).

(** [updateTimers()] at time [now]: the part that runs at once.  The
    countdowns are rationals: the properties below depend on the outcome of
    one test [countdown <= 0], made right after one subtraction, and on the
    constants written afterwards, never on a countdown carried over many
    calls. *)
Definition updateTimers (now : Q) (mg : Manager) : Manager * Pending :=
  match gameState mg with
  | QUEUE =>
      let delta := (now - lastQueueUpdate mg) / 1000 in
      let countdown := queueCountdown mg - delta in
      let mg1 := mkManager (gameServer mg) (queued mg) (gameState mg) countdown
                           (gameCountdown mg) now (lastGameUpdate mg)
                           (roundNumber mg) (currentRoundStartTime mg) in
      if Qleb countdown 0 then (setQueueCountdown (1 # 10) mg1, PausedCheck)
      else if negb (Z.eqb (Qfloor countdown) (Qfloor (countdown + delta)))
           then (mg1, Broadcast) else (mg1, NoPending)
  | PLAYING =>
      let delta := (now - lastGameUpdate mg) / 1000 in
      let countdown := gameCountdown mg - delta in
      let mg1 := mkManager (gameServer mg) (queued mg) (gameState mg)
                           (queueCountdown mg) countdown (lastQueueUpdate mg) now
                           (roundNumber mg) (currentRoundStartTime mg) in
      if Qleb countdown 0 then (mg1, EndGame)
      else if negb (Z.eqb (Qfloor countdown) (Qfloor (countdown + delta)))
           then (mg1, Broadcast) else (mg1, NoPending)
  | ENDED => (mg, NoPending)
  end.

(** The callback given to [checkGamePaused().then] by [updateTimers], run
    at time [now] with the value of the paused flag: the snapshot broadcast,
    if any, and the manager after.  The callback runs on the manager as it
    is when the check resolves; it does not read [gameState]. *)
Definition onPausedChecked (now : Q) (serverTime : Z) (isPaused : bool)
    (mg : Manager) : option Snapshot * Manager :=
  if isPaused then (None, setQueueCountdown 60 mg)
  else if Nat.leb 2 (length (queued mg)) then
    let r := startGame now serverTime mg in (Some r.1, r.2)
  else (None, setQueueCountdown 60 mg).

(** ** Sequences of calls *)

(** An [input] message: its events and its sequence number. *)
Definition Batch : Type := list InputEvent * Z.

(** The [applyInputs] calls of a list of messages of one player, in the
    order they are handled; the state goes on from where a call left it. *)
Fixpoint applyBatches (playerId : string) (bs : list Batch) (g : GameServer)
  : GameServer :=
  match bs with
  | [] => g
  | b :: rest =>
      applyBatches playerId rest
        (outcomeState (applyInputs playerId b.1 0 (Some b.2) g))
  end.

(** Snapshots taken one after the other at the given times. *)
Fixpoint takeSnapshots (times : list Z) (g : GameServer) : GameServer :=
  match times with
  | [] => g
  | t :: rest => takeSnapshots rest (getSnapshot t g).2
  end.

(** The greatest sequence number of a list, from [z]. *)
Definition maxSequence (z : Z) (l : list Z) : Z := fold_left Z.max l z.

(** The store records the highest sequence number among the messages
    applied, whatever their order. *)
Definition recordsHighest (playerId : string) (bs : list Batch) (g : GameServer) : Prop :=
  forall b rest, bs = b :: rest ->
    lastProcessedSequence (applyBatches playerId bs g) !! playerId
    = Some (maxSequence b.2 (map snd rest)).

(** ** A small map used in the examples

    63 columns and 43 rows (blocks of 24 px, grid origin (204, 24)); a
    regular block at row 20, column 10, a jump pad at row 20, column 30; two
    red spawn points and a blue one on row 19; one bomb spawn. *)
Definition demoMap : MapData :=
  mkMapData 63 43
    [(20, 10, 0); (20, 30, 9)]%Z
    [(19, 10); (19, 12)]%Z
    [(19, 50)]%Z
    (Some [(19, 40)]%Z).

Definition demoServer : GameServer := newGameServer demoMap.

(** The demo server with one red player, ["p1"], spawned. *)
Definition demoServer1 : GameServer := (addPlayer "p1" red demoServer).2.

Definition demoGeom : MapGeom := loadGeom demoMap.

(** ** The jump quota as first stated

    An edge-triggered jump from the ground is the first jump; in the air,
    away from any block and falling, it is the second; a third is refused. *)
Definition jumpQuota (m : MapGeom) (inputState : InputState) (p : Player) : Prop :=
  i_w inputState = true -> i_wasPressingW inputState = false ->
  let p' := (processJumpInput m inputState p).1 in
  (p_onGround p = true ->
     p_jumpsUsed p' = 1%nat /\ p_velocityY p' == JUMP_POWER) /\
  (p_onGround p = false -> isTouchingBlock m (p_x p) (p_y p) = false ->
   0 < p_velocityY p -> p_jumpsUsed p = 1%nat ->
     p_jumpsUsed p' = 2%nat) /\
  (p_onGround p = false -> isTouchingBlock m (p_x p) (p_y p) = false ->
   0 < p_velocityY p -> p_jumpsUsed p = 2%nat ->
     p_velocityY p' == p_velocityY p).

(** [w] pressed this tick, not the tick before. *)
Definition jumpPressed : InputState := mkInput false false true false false false.

(** A player at rest on the jump pad of the demo map, flagged on the ground. *)
Definition playerOnPad : Player := mkPlayer "p1" red 960 504 0 false true 0 false.

(** A player falling 40 px above that jump pad, one jump used. *)
Definition playerAbovePad : Player := mkPlayer "p1" red 960 464 100 false false 1 false.

(** A player at rest on the regular block of the demo map. *)
Definition playerOnBlock : Player := mkPlayer "p1" red 456 504 0 false true 0 false.

(** A player falling far from any block. *)
Definition playerInAir (jumps : nat) : Player :=
  mkPlayer "p1" red 700 300 100 false false jumps false.

(** The blocks of the map that are not jump pads, in loop order. *)
Definition regularBlocks (m : MapGeom) : list Block :=
  List.filter (fun b => negb (isJumpPad b)) (blockList m).

(** A player of the demo map going up through the jump pad. *)
Definition playerThroughPad : Player :=
  mkPlayer "p1" red 960 540 (-600) false false 1 false.

(** A player that fell below the demo map. *)
Definition playerBelowMap : Player :=
  mkPlayer "p1" red 700 2000 0 false false 0 false.

(** ** Determinism as first stated

    The player after the step is a function of the player, its input state,
    the map and [dt] alone. *)
Definition stepDeterminedByInputs (m : MapGeom) (deltaTime : Q) (p : Player)
    (inp : option InputState) : Prop :=
  forall si1 si2,
    p_x (st_player (stepPlayer m deltaTime (mkStep p inp si1)))
    == p_x (st_player (stepPlayer m deltaTime (mkStep p inp si2))).

(** Componentwise order on the spawn counters. *)
Definition idxLe (a b : SpawnIndices) : Prop :=
  (idx_red a <= idx_red b)%nat /\ (idx_blue a <= idx_blue b)%nat.

(** ** Colour changes between two snapshots *)

(** The two methods that write block colours. *)
Inductive ColorOp :=
  | OpSetBlockColor (row col : Z) (color : Color)
  | OpResetAllBlocks.

Definition runOp (g : GameServer) (op : ColorOp) : GameServer :=
  match op with
  | OpSetBlockColor row col color => setBlockColor row col color g
  | OpResetAllBlocks => resetAllBlocks g
  end.

Definition runOps (ops : list ColorOp) (g : GameServer) : GameServer :=
  fold_left runOp ops g.

(** The cell is an entry of [blockChanges]. *)
Definition listed (s : Snapshot) (row col : Z) : bool :=
  existsb (fun bc => Z.eqb (bc_row bc) row && Z.eqb (bc_col bc) col)
          (snap_blockChanges s).

(** Delta compression as first stated: a cell is listed exactly when its
    colour differs from the one it had at the previous emission or the cell
    is spawn-adjacent; the dirty set is empty afterwards. *)
Definition deltaExact (g0 : GameServer) (ops : list ColorOp) : Prop :=
  let g1 := runOps ops g0 in
  let r := getSnapshot 0 g1 in
  (forall row col : nat,
     listed r.1 (Z.of_nat row) (Z.of_nat col) = true <->
     (colorAt g1 row col <> colorAt g0 row col \/
      isAtSpawn (geom g0) (Z.of_nat row) (Z.of_nat col) = true)) /\
  changedBlocks r.2 = [].

(** The cell is in the grid and holds a block. *)
Definition hasBlock (m : MapGeom) (row col : Z) : Prop :=
  (0 <= row < mapRows m)%Z /\ (0 <= col < mapCols m)%Z /\
  is_Some (blockAt m (Z.to_nat row) (Z.to_nat col)).

(** The call [op], made in state [g], puts the cell in the dirty set:
    [resetAllBlocks] does for every block; [setBlockColor] does for its
    block when the colour differs from the current one, or when the block is
    a spawn cell or the cell beneath one. *)
Definition marks (g : GameServer) (op : ColorOp) (row col : Z) : Prop :=
  match op with
  | OpResetAllBlocks => hasBlock (geom g) row col
  | OpSetBlockColor r c color =>
      r = row /\ c = col /\ hasBlock (geom g) row col /\
      (colorAt g (Z.to_nat row) (Z.to_nat col) <> Some color \/
       isAtSpawn (geom g) row col = true)
  end.

(** Some call of the sequence, started in [g0], marks the cell. *)
Definition markedBy (g0 : GameServer) (ops : list ColorOp) (row col : Z) : Prop :=
  exists ops1 op ops2,
    ops = ops1 ++ op :: ops2 /\ marks (runOps ops1 g0) op row col.

(** ** Well-formed servers

    What [new GameServer] establishes and the methods keep: every block has
    a cell of the colour grid, and a map without bomb spawns has no bomb. *)
Definition colorsAllocated (g : GameServer) : Prop :=
  forall row col b, (row, col, b) ∈ blockEntries (geom g) ->
    is_Some (colorAt g row col).

Definition bombsConsistent (g : GameServer) : Prop :=
  match mapData g with
  | Some md => match md_bombSpawns md with
               | Some _ => True
               | None => bombs g = []
               end
  | None => bombs g = []
  end.

Definition serverOK (g : GameServer) : Prop :=
  colorsAllocated g /\ bombsConsistent g.

(** A bomb as [initializeBombs] makes it. *)
Definition freshBomb (b : Bomb) : Prop :=
  bm_collected b = false /\ bm_respawnTimer b = 0.

(** A manager in the queue, three players waiting, countdown nearly over. *)
Definition demoManager : Manager :=
  mkManager demoServer
    [("p1"%string, mkInfo "s1" None None);
     ("p2"%string, mkInfo "s2" None None);
     ("p3"%string, mkInfo "s3" None None)]
    QUEUE (1 # 100) 120 0 0 0 None.

(** The demo server with player ["p1"] at rest on the regular block, no
    key held. *)
Definition demoResting : GameServer :=
  setPlayerInputs (<["p1"%string := defaultInput]> ∅)
    (setPlayers [("p1"%string, playerOnBlock)] demoServer).

(** Two servers that differ at most by their dirty set. *)
Definition sameSimulation (g1 g2 : GameServer) : Prop :=
  setChangedBlocks [] g1 = setChangedBlocks [] g2.

(** ** More of the game server *)

(** The result of [checkHorizontalCollision]:
    [{ collided, blockLeft, blockRight }]. *)
Record HCollision := mkHCollision {
  h_collided : bool;
  h_blockLeft : option Q;
  h_blockRight : option Q
}.

(** [checkHorizontalCollision(x, y)]: the first block the character box
    overlaps, no tolerance. *)
Definition checkHorizontalCollision (m : MapGeom) (x y : Q) : HCollision :=
  match List.find (overlaps m x y) (blockList m) with
  | Some b => mkHCollision true (Some (b_x b)) (Some (b_x b + effWidth b))
  | None => mkHCollision false None None
  end.

(** [respawnPlayer(playerId)] *)
Definition respawnPlayer (playerId : string) (g : GameServer) : GameServer :=
  match omGet playerId (players g) with
  | None => g
  | Some player =>
      let r := getSpawnPoint (geom g) (spawnIndices g) (p_team player) in
      let player' :=
        mkPlayer (p_playerId player) (p_team player) r.1.1 r.1.2 0 false false 0 false in
      setPlayers (omSet playerId player' (players g)) (setSpawnIndices r.2 g)
  end.

(** [n] calls of [getSpawnPoint(team)] in a row: the points returned and the
    counters left. *)
Fixpoint spawnCalls (m : MapGeom) (t : Team) (n : nat) (si : SpawnIndices)
  : list (Q * Q) * SpawnIndices :=
  match n with
  | O => ([], si)
  | S k =>
      let r := getSpawnPoint m si t in
      let rest := spawnCalls m t k r.2 in
      (r.1 :: rest.1, rest.2)
  end.

(** ** More of the manager *)

Definition setGameServer (v : GameServer) (mg : Manager) : Manager :=
  mkManager v (queued mg) (gameState mg) (queueCountdown mg) (gameCountdown mg)
            (lastQueueUpdate mg) (lastGameUpdate mg) (roundNumber mg)
            (currentRoundStartTime mg).

Definition setQueued (v : list (string * PlayerInfo)) (mg : Manager) : Manager :=
  mkManager (gameServer mg) v (gameState mg) (queueCountdown mg) (gameCountdown mg)
            (lastQueueUpdate mg) (lastGameUpdate mg) (roundNumber mg)
            (currentRoundStartTime mg).

Definition setGameState (v : GameState) (mg : Manager) : Manager :=
  mkManager (gameServer mg) (queued mg) v (queueCountdown mg) (gameCountdown mg)
            (lastQueueUpdate mg) (lastGameUpdate mg) (roundNumber mg)
            (currentRoundStartTime mg).

(** [broadcastSnapshot()]: the snapshot sent and the manager after. *)
Definition broadcastSnapshot (serverTime : Z) (mg : Manager) : Snapshot * Manager :=
  let r := getSnapshot serverTime (gameServer mg) in
  (r.1, setGameServer r.2 mg).

(** The part of [handlePlayerJoin(socket, playerId)] that runs at once and
    changes the manager: a player already in the queue is left alone, a new
    one is put at the end without a team. *)
Definition joinQueue (socketId playerId : string) (mg : Manager) : Manager :=
  match omGet playerId (queued mg) with
  | Some _ => mg
  | None => setQueued (omSet playerId (mkInfo socketId None None) (queued mg)) mg
  end.

(** [handlePlayerJoin(socket, playerId)] as a whole: for a new player, the
    queue entry, then the snapshot sent to the joining socket alone (in
    [QUEUE], after the paused flag was read); [None] when the player had
    joined already. *)
Definition handlePlayerJoin (serverTime : Z) (socketId playerId : string) (mg : Manager)
  : option Snapshot * Manager :=
  match omGet playerId (queued mg) with
  | Some _ => (None, mg)
  | None =>
      let r := broadcastSnapshot serverTime (joinQueue socketId playerId mg) in
      (Some r.1, r.2)
  end.

(** [handleSpectatorJoin(socket, playerId)]: the snapshot sent to the socket
    (the [spectators] map is not part of the model). *)
Definition handleSpectatorJoin (serverTime : Z) (mg : Manager) : Snapshot * Manager :=
  broadcastSnapshot serverTime mg.

(** [handleDisconnect(socket, playerId)] for a queued player. *)
Definition handleDisconnect (playerId : string) (mg : Manager) : Manager :=
  match omGet playerId (queued mg) with
  | Some _ =>
      let g :=
        match omGet playerId (players (gameServer mg)) with
        | Some _ => removePlayer playerId (gameServer mg)
        | None => gameServer mg
        end in
      setQueued (omDelete playerId (queued mg)) (setGameServer g mg)
  | None => mg
  end.

(** The [data] of a [playerInput] message. *)
Record InputMessage := mkInputMessage {
  im_playerId : string;
  im_inputs : list InputEvent;
  im_gameTime : Q;
  im_sequence : option Z
}.

(** [handlePlayerInput(socket, data)] *)
Definition handlePlayerInput (data : InputMessage) (mg : Manager) : Outcome Manager :=
  match gameState mg with
  | PLAYING =>
      match applyInputs (im_playerId data) (im_inputs data) (im_gameTime data)
                        (im_sequence data) (gameServer mg) with
      | Returned g => Returned (setGameServer g mg)
      | Thrown g => Thrown (setGameServer g mg)
      end
  | _ => Returned mg
  end.

(** The [data] of a [bombThrown] message. *)
Record ThrowMessage := mkThrowMessage {
  tm_playerId : string;
  tm_x : Q;
  tm_y : Q;
  tm_team : Team;
  tm_throwDirection : Q
}.

(** [handleBombThrown(socket, data)] *)
Definition handleBombThrown (data : ThrowMessage) (mg : Manager) : Manager :=
  match gameState mg with
  | PLAYING =>
      setGameServer (throwBomb (tm_playerId data) (tm_x data) (tm_y data) (tm_team data)
                               (tm_throwDirection data) (gameServer mg)) mg
  | _ => mg
  end.

(** ['red' | 'blue' | 'tie'] *)
Inductive Winner := WinTeam (t : Team) | WinTie.

(** The payload of [gameEnded]. *)
Record GameEnded := mkGameEnded {
  ge_redBlocks : nat;
  ge_blueBlocks : nat;
  ge_winner : Winner
}.

(** The loop of [endGame] over the queued players: [removePlayer] for those
    the game server still has. *)
Definition removeQueued (g : GameServer) (ps : list (string * PlayerInfo)) : GameServer :=
  fold_left (fun g' (e : string * PlayerInfo) =>
               match omGet e.1 (players g') with
               | Some _ => removePlayer e.1 g'
               | None => g'
               end) ps g.

(** [endGame()]: the [gameEnded] payload, the snapshot broadcast and the
    manager after (the return to the queue, 5 s later, is
    [startQueueCountdown]). *)
Definition endGame (serverTime : Z) (mg : Manager) : GameEnded * Snapshot * Manager :=
  let scores := countBlocksByTeam (gameServer mg) in
  let redBlocks := scores.1 in
  let blueBlocks := scores.2 in
  let winner :=
    if Nat.ltb blueBlocks redBlocks then WinTeam red
    else if Nat.ltb redBlocks blueBlocks then WinTeam blue
    else WinTie in
  let g1 := setThrownBombs [] (setBombs [] (setPlayers [] (gameServer mg))) in
  let r := getSnapshot serverTime g1 in
  let g2 := removeQueued r.2 (queued mg) in
  (mkGameEnded redBlocks blueBlocks winner, r.1,
   setQueued [] (setGameState ENDED (setGameServer g2 mg))).

(** [startQueueCountdown()] at time [now]: the snapshot broadcast and the
    manager after. *)
Definition startQueueCountdown (now : Q) (serverTime : Z) (mg : Manager)
  : Snapshot * Manager :=
  let g1 := resetAllBlocks (gameServer mg) in
  let g2 := setGameTime dzero g1 in
  let g3 := initializeBombs (setThrownBombs [] (setBombs [] g2)) in
  let g4 := setPlayers [] g3 in
  let r := getSnapshot serverTime g4 in
  (r.1,
   mkManager r.2 (queued mg) QUEUE 60 (gameCountdown mg) now (lastGameUpdate mg)
             (roundNumber mg) (currentRoundStartTime mg)).

(** [restartQueueIfUnpaused()] once the paused flag is read. *)
Definition restartQueueIfUnpaused (now : Q) (serverTime : Z) (isPaused : bool)
    (mg : Manager) : Manager :=
  if negb isPaused then
    match gameState mg with
    | PLAYING => mg
    | _ => (startQueueCountdown now serverTime mg).2
    end
  else mg.

(** The tile kind of the last entry of the map file for a cell, if any. *)
Definition lastTile (bds : list (Z * Z * Z)) (row col : Z) : option Z :=
  fold_left (fun acc (bd : Z * Z * Z) =>
               if Z.eqb bd.1.1 row && Z.eqb bd.1.2 col then Some bd.2 else acc)
            bds None.

(** The block [loadMap] makes for a cell and a tile kind. *)
Definition blockOfCell (m : MapGeom) (row col tile : Z) : Block :=
  mkBlock (startX m + inject_Z col * blockWidth m)
          (startY m + inject_Z row * blockHeight m)
          (blockWidth m) (blockHeight m) tile.

(** ** Limits of the player state *)

(** The range the tick keeps the vertical velocity and the jump counter in:
    no faster upward than a jump-pad bounce, no faster downward than the
    maximum fall speed, no more jumps than [MAX_JUMPS]. *)
Definition withinLimits (p : Player) : Prop :=
  JUMP_PAD_BOUNCE <= p_velocityY p /\ p_velocityY p <= MAX_FALL_SPEED /\
  (p_jumpsUsed p <= MAX_JUMPS)%nat.

(** What a stage of the player step may do to the identity, the bomb flag,
    the vertical velocity and the jump counter of a player. *)
Definition stageEffect (p p' : Player) : Prop :=
  p_playerId p' = p_playerId p /\ p_team p' = p_team p /\
  p_hasBomb p' = p_hasBomb p /\
  (p_velocityY p' = p_velocityY p \/ p_velocityY p' = 0 \/
   p_velocityY p' = JUMP_PAD_BOUNCE \/ p_velocityY p' = JUMP_POWER) /\
  (p_jumpsUsed p' = p_jumpsUsed p \/ p_jumpsUsed p' = 0%nat \/
   p_jumpsUsed p' = 1%nat \/
   (p_jumpsUsed p' = S (p_jumpsUsed p) /\ (p_jumpsUsed p < MAX_JUMPS)%nat)).

(** What the tick keeps of a player: its key, its identity and team, and a
    bomb it holds. *)
Definition samePlayer (a b : string * Player) : Prop :=
  b.1 = a.1 /\ p_playerId b.2 = p_playerId a.2 /\ p_team b.2 = p_team a.2 /\
  (p_hasBomb a.2 = true -> p_hasBomb b.2 = true).

(** ** Keys *)

(** The input state with the jump key released and its latch cleared. *)
Definition releaseW (i : InputState) : InputState :=
  mkInput (i_a i) (i_d i) false (i_s i) false (i_wasPressingS i).

(** The event names [k], whatever its case. *)
Definition keyIs (k : string) (e : InputEvent) : bool :=
  match ev_key e with
  | KeyString s => String.eqb (toLowerCase s) k
  | KeyOther => false
  end.

(** The state of key [k] after the events, [d] before them: that of the
    last event that names it. *)
Definition lastPressed (k : string) (evs : list InputEvent) (d : bool) : bool :=
  fold_left (fun acc e => if keyIs k e then ev_pressed e else acc) evs d.

Definition wellFormed (e : InputEvent) : Prop := ev_key e <> KeyOther.

(** The jump key held since the tick before, no other key. *)
Definition jumpHeld : InputState := mkInput false false true false true false.

(** ** Pickup bombs *)

(** The test of the inner loop of the bomb update: the player has no bomb
    and overlaps the bomb. *)
Definition takesBomb (m : MapGeom) (b : Bomb) (p : Player) : bool :=
  negb (p_hasBomb p) && checkBombCollision m p b.


(** ** Colours and score *)

(** The cell of an entry of [blockChanges]. *)
Definition changeCell (bc : BlockChange) : Z * Z := (bc_row bc, bc_col bc).

(** The blocks of the colour of a team. *)
Definition blocksOf (t : Team) (g : GameServer) : list (nat * nat * Block) :=
  List.filter (fun e : nat * nat * Block =>
                 bool_decide (colorAt g e.1.1 e.1.2 = Some (painted t)))
              (blockEntries (geom g)).

(** ** Painting *)

(** The last player of the list, in its order, that touches the block: its
    team and id, [acc] when none does. *)
Definition lastToucherFrom (m : MapGeom) (b : Block) (ps : list (string * Player))
    (acc : option (Team * string)) : option (Team * string) :=
  fold_left (fun acc (e : string * Player) =>
               if paintTouches m e.2 b then Some (p_team e.2, p_playerId e.2) else acc)
            ps acc.

Definition lastToucher (m : MapGeom) (b : Block) (ps : list (string * Player))
  : option (Team * string) :=
  lastToucherFrom m b ps None.

(** What the bomb update keeps of a player: everything that places it. *)
Definition samePlace (a b : string * Player) : Prop :=
  b.1 = a.1 /\ p_x b.2 = p_x a.2 /\ p_y b.2 = p_y a.2 /\
  p_team b.2 = p_team a.2 /\ p_playerId b.2 = p_playerId a.2.

(** The demo server with two players on the regular block, the blue one
    added last. *)
Definition demoTwoOnBlock : GameServer :=
  setPlayerInputs (<["p1"%string := defaultInput]> (<["p2"%string := defaultInput]> ∅))
    (setPlayers [("p1"%string, playerOnBlock);
                 ("p2"%string, mkPlayer "p2" blue 460 504 0 false true 0 false)]
                demoServer).

(** ** Collisions *)

(** The overlap test of [checkCollision]: the character box and the block,
    the block shrunk by half a pixel at its top and bottom. *)
Definition insideBlock (m : MapGeom) (x y : Q) (b : Block) : bool :=
  Qltb (x - CHAR_WIDTH m / 2) (b_x b + effWidth b - 0) &&
  Qgtb (x + CHAR_WIDTH m / 2) (b_x b + 0) &&
  Qltb (y - CHAR_HEIGHT m) (b_y b + b_height b - (1 # 2)) &&
  Qgtb y (b_y b + (1 # 2)).

(** ** Bombs of a map *)

(** The bomb of a spawn cell: at the top centre of the cell, 20 x 20,
    available, respawn delay 10 s. *)
Definition bombOfCell (m : MapGeom) (id : nat) (row col : Z) : Bomb :=
  mkBomb id (startX m + inject_Z col * blockWidth m + blockWidth m / 2)
         (startY m + inject_Z row * blockHeight m) 20 20 row col false 0 10.

(** The bombs of a list of cells, numbered from [n]. *)
Fixpoint bombsFrom (m : MapGeom) (n : nat) (cells : list (Z * Z)) : list Bomb :=
  match cells with
  | [] => []
  | rc :: rest => bombOfCell m n rc.1 rc.2 :: bombsFrom m (S n) rest
  end.

(** The bomb spawns of a map that lie in its grid. *)
Definition bombCells (md : MapData) : list (Z * Z) :=
  match md_bombSpawns md with
  | Some spawns =>
      List.filter (fun rc : Z * Z =>
                     inGrid (mapRows (loadGeom md)) (mapCols (loadGeom md)) rc.1 rc.2)
                  spawns
  | None => []
  end.

(** Both direction keys held. *)
Definition bothHeld : InputState := mkInput true true false false false false.

(** ** Players and the map *)

(** The character is between the left and the right edge of the grid. *)
Definition insideMap (m : MapGeom) (p : Player) : Prop :=
  mapLeft m <= p_x p /\ p_x p <= mapRight m.

(** The character stands where [getSpawnPoint] puts a player of its team. *)
Definition atSpawn (m : MapGeom) (p : Player) : Prop :=
  exists si, (p_x p, p_y p) = (getSpawnPoint m si (p_team p)).1.

(** ** The chat of [server.js] *)

(** A JavaScript value as far as the chat handler tells values apart: a
    string, or a value that is not a string ([undefined], [null], a number,
    an object, ...) and is truthy or not. *)
Inductive JsValue := JsString (s : string) | JsOther (isTruthy : bool).

(** [!!v] *)
Definition truthy (v : JsValue) : bool :=
  match v with
  | JsString s => negb (String.eqb s "")
  | JsOther b => b
  end.

(** A chat message: [{ id, username, message, timestamp, isSystem }]; the
    user name is whatever value the handler was given. *)
Record ChatMessage := mkChat {
  cm_id : string;
  cm_username : JsValue;
  cm_message : string;
  cm_timestamp : Z;
  cm_isSystem : bool
}.

Definition MAX_CHAT_MESSAGES : nat := 100.

(** [chatMessages.push(msg)], then [chatMessages.shift()] when the array is
    longer than [MAX_CHAT_MESSAGES]. *)
Definition pushChat (msg : ChatMessage) (chatMessages : list ChatMessage)
  : list ChatMessage :=
  let l := chatMessages ++ [msg] in
  if Nat.ltb MAX_CHAT_MESSAGES (length l) then tail l else l.

(** [sendSystemMessage(message)]; [id] and [now] are the values made from
    [Date.now()] and [Math.random()]. *)
Definition sendSystemMessage (id : string) (now : Z) (message : string)
    (chatMessages : list ChatMessage) : ChatMessage * list ChatMessage :=
  let systemMessage := mkChat id (JsString "System") message now true in
  (systemMessage, pushChat systemMessage chatMessages).

(** White space and line terminators among the code units up to 255. *)
Definition isSpace (c : ascii) : bool :=
  let n := nat_of_ascii c in
  (Nat.leb 9 n && Nat.leb n 13) || Nat.eqb n 32 || Nat.eqb n 160.

Fixpoint trimStart (s : string) : string :=
  match s with
  | EmptyString => EmptyString
  | String c s' => if isSpace c then trimStart s' else s
  end.

Fixpoint trimEnd (s : string) : string :=
  match s with
  | EmptyString => EmptyString
  | String c s' =>
      match trimEnd s' with
      | EmptyString => if isSpace c then EmptyString else String c EmptyString
      | t => String c t
      end
  end.

(** [String.prototype.trim] on code units up to 255. *)
Definition trim (s : string) : string := trimEnd (trimStart s).

(** What the handler of [chatMessage] answers. *)
Inductive ChatReply :=
  | ChatIgnored
  | ChatTooLong                       (* [chatError] to the sender *)
  | ChatBroadcast (m : ChatMessage)   (* [chatMessage] to everyone *).

(** The handler of [chatMessage] for [data = { message, username }];
    [stored] is the value of [playerStats && playerStats.username] (not
    truthy when the lookup finds nothing or fails). *)
Definition onChatMessage (id : string) (now : Z) (message username stored : JsValue)
    (chatMessages : list ChatMessage) : ChatReply * list ChatMessage :=
  match message with
  | JsOther _ => (ChatIgnored, chatMessages)
  | JsString s =>
      if negb (truthy message) || Nat.eqb (String.length (trim s)) 0 then
        (ChatIgnored, chatMessages)
      else if Nat.ltb 200 (String.length s) then (ChatTooLong, chatMessages)
      else
        let displayUsername :=
          if truthy username then username
          else if truthy stored then stored
          else JsString "Anonymous" in
        let chatMessage := mkChat id displayUsername (trim s) now false in
        (ChatBroadcast chatMessage, pushChat chatMessage chatMessages)
  end.

(** What reaches the chat: a message of a user or one of the system. *)
Inductive ChatEvent :=
  | UserChat (id : string) (now : Z) (message username stored : JsValue)
  | SystemChat (id : string) (now : Z) (message : string).

Definition chatStep (chatMessages : list ChatMessage) (ev : ChatEvent)
  : list ChatMessage :=
  match ev with
  | UserChat id now message username stored =>
      (onChatMessage id now message username stored chatMessages).2
  | SystemChat id now message => (sendSystemMessage id now message chatMessages).2
  end.

(** The message an event adds to the chat, if any. *)
Definition chatSent (ev : ChatEvent) : option ChatMessage :=
  match ev with
  | UserChat id now message username stored =>
      match (onChatMessage id now message username stored []).1 with
      | ChatBroadcast m => Some m
      | _ => None
      end
  | SystemChat id now message => Some (sendSystemMessage id now message []).1
  end.

(** The chat after the events, from an empty history. *)
Definition chatAfter (evs : list ChatEvent) : list ChatMessage :=
  fold_left chatStep evs [].

(** The name a user message is shown under. *)
Definition displayName (username stored : JsValue) : JsValue :=
  if truthy username then username
  else if truthy stored then stored
  else JsString "Anonymous".

(** Two letters followed by 199 spaces: 201 characters that trim to 2. *)
Definition paddedHi : string :=
  String.append "hi" (string_of_list_ascii (repeat " "%char 199)).

(** ** The clock as first stated

    [gameTime] grows by exactly the number of steps made times 1/60 s; in
    [clockExactD] the step is the double the code adds, [fixedTimestep]. *)
Definition clockExact (deltaTime : double) (g : GameServer) : Prop :=
  let r := updateCounting deltaTime g in
  dvalue (gameTime r.1)
  == dvalue (gameTime g) + inject_Z (Z.of_nat r.2) * (1 # 60).

Definition clockExactD (deltaTime : double) (g : GameServer) : Prop :=
  let r := updateCounting deltaTime g in
  dvalue (gameTime r.1)
  == dvalue (gameTime g) + inject_Z (Z.of_nat r.2) * dvalue fixedTimestepD.

(** The demo server after [k] calls [update(1/60)]. *)
Definition afterTicks (k : nat) : GameServer :=
  Nat.iter k (update fixedTimestepD) demoServer.

(** ** Bombs after a reset *)

(** Where the bomb of a spawn cell lies: at the top centre of the block of
    the cell, or of the cell itself when it holds no block. *)
Definition bombPlace (m : MapGeom) (row col : Z) : Q * Q :=
  match blockAt m (Z.to_nat row) (Z.to_nat col) with
  | Some block => (b_x block + b_width block / 2, b_y block)
  | None => (startX m + inject_Z col * blockWidth m + blockWidth m / 2,
             startY m + inject_Z row * blockHeight m)
  end.

(** The bomb spawns of the server's map that lie in its grid, in the order
    of the map file. *)
Definition spawnCells (g : GameServer) : list (Z * Z) :=
  match mapData g with
  | Some md =>
      match md_bombSpawns md with
      | Some spawns =>
          List.filter (fun rc : Z * Z =>
                         inGrid (mapRows (geom g)) (mapCols (geom g)) rc.1 rc.2)
                      spawns
      | None => []
      end
  | None => []
  end.

(** [bs] are the bombs of a new game of [g]: one for each spawn cell, in
    order, numbered from 0, at its place, 20 x 20, available, with no time
    on its respawn timer and a respawn delay of 10 s. *)
Definition bombsReset (g : GameServer) (bs : list Bomb) : Prop :=
  length bs = length (spawnCells g) /\
  forall (i : nat) (row col : Z),
    spawnCells g !! i = Some (row, col) ->
    bs !! i = Some (mkBomb i (bombPlace (geom g) row col).1 (bombPlace (geom g) row col).2
                           20 20 row col false 0 10).

(** ** The queue phase *)

(** What happens while the manager waits in the queue: a player joins, a
    spectator joins, the loop broadcasts a snapshot or runs the timers (a
    check of the paused flag that the timers start resolves later: it is
    not part of the phase). *)
Inductive QueueEvent :=
  | PlayerJoins (serverTime : Z) (socketId playerId : string)
  | SpectatorJoins (serverTime : Z)
  | SnapshotSent (serverTime : Z)
  | TimersRun (now : Q).

Definition queueStep (mg : Manager) (ev : QueueEvent) : Manager :=
  match ev with
  | PlayerJoins serverTime socketId playerId =>
      (handlePlayerJoin serverTime socketId playerId mg).2
  | SpectatorJoins serverTime => (handleSpectatorJoin serverTime mg).2
  | SnapshotSent serverTime => (broadcastSnapshot serverTime mg).2
  | TimersRun now => (updateTimers now mg).1
  end.

Definition queuePhase (evs : list QueueEvent) (mg : Manager) : Manager :=
  fold_left queueStep evs mg.

(** The player of a join. *)
Definition joiner (ev : QueueEvent) : option string :=
  match ev with
  | PlayerJoins _ _ playerId => Some playerId
  | _ => None
  end.

(** A manager whose game server has acknowledged input 7 of ["p1"]. *)
Definition demoAcked : Manager :=
  setGameServer (setLastProcessedSequence (<["p1"%string := 7%Z]> ∅) demoServer)
                demoManager.

(** ** The spawn point of a respawn *)

(** The spawn point the counters select for a team: the entry of the team's
    list at the team's counter modulo the length of the list; the centre of
    the screen when the team has no spawn point. *)
Definition selectedSpawn (m : MapGeom) (si : SpawnIndices) (t : Team) : Q * Q :=
  match spawnsOf m t !! (indexOf si t mod length (spawnsOf m t))%nat with
  | Some sp => (sp_x sp, sp_y sp)
  | None => (960, 500)
  end.

(** * Properties *)

(** ** Comparisons *)

Lemma Qltb_spec (a b : Q) : Qltb a b = true <-> a < b.
Proof.
  unfold Qltb. rewrite negb_true_iff. split.
  - intros H. destruct (Qlt_le_dec a b) as [Hl|Hl]; [exact Hl|].
    apply Qle_bool_iff in Hl. congruence.
  - intros H. destruct (Qle_bool b a) eqn:E; [|reflexivity].
    apply Qle_bool_iff in E. lra.
Qed.

Lemma Qltb_false (a b : Q) : Qltb a b = false <-> b <= a.
Proof.
  unfold Qltb. rewrite negb_false_iff. apply Qle_bool_iff.
Qed.

Lemma Qleb_spec (a b : Q) : Qleb a b = true <-> a <= b.
Proof. apply Qle_bool_iff. Qed.

Lemma Qleb_false (a b : Q) : Qleb a b = false <-> b < a.
Proof.
  unfold Qleb. split.
  - intros H. destruct (Qlt_le_dec b a) as [Hl|Hl]; [exact Hl|].
    apply Qle_bool_iff in Hl. congruence.
  - intros H. destruct (Qle_bool a b) eqn:E; [|reflexivity].
    apply Qle_bool_iff in E. lra.
Qed.

Lemma Qgtb_spec (a b : Q) : Qgtb a b = true <-> b < a.
Proof. apply Qltb_spec. Qed.

Lemma Qgtb_false (a b : Q) : Qgtb a b = false <-> a <= b.
Proof. apply Qltb_false. Qed.

Lemma Qgeb_spec (a b : Q) : Qgeb a b = true <-> b <= a.
Proof. apply Qleb_spec. Qed.

Lemma Qgeb_false (a b : Q) : Qgeb a b = false <-> a < b.
Proof. apply Qleb_false. Qed.

Lemma Qeqb_spec (a b : Q) : Qeqb a b = true <-> a == b.
Proof. apply Qeq_bool_iff. Qed.

Lemma Qeqb_false (a b : Q) : Qeqb a b = false <-> ~ a == b.
Proof.
  unfold Qeqb. split.
  - intros H E. apply Qeq_bool_iff in E. congruence.
  - intros H. destruct (Qeq_bool a b) eqn:E; [|reflexivity].
    apply Qeq_bool_iff in E. contradiction.
Qed.

Ltac qbool :=
  repeat match goal with
  | H : _ && _ = true |- _ => apply andb_true_iff in H; destruct H
  | H : _ || _ = false |- _ => apply orb_false_iff in H; destruct H
  | H : negb _ = true |- _ => apply negb_true_iff in H
  | H : negb _ = false |- _ => apply negb_false_iff in H
  | H : Qltb _ _ = true |- _ => apply Qltb_spec in H
  | H : Qltb _ _ = false |- _ => apply Qltb_false in H
  | H : Qleb _ _ = true |- _ => apply Qleb_spec in H
  | H : Qleb _ _ = false |- _ => apply Qleb_false in H
  | H : Qgtb _ _ = true |- _ => apply Qgtb_spec in H
  | H : Qgtb _ _ = false |- _ => apply Qgtb_false in H
  | H : Qgeb _ _ = true |- _ => apply Qgeb_spec in H
  | H : Qgeb _ _ = false |- _ => apply Qgeb_false in H
  | H : Qeqb _ _ = true |- _ => apply Qeqb_spec in H
  | H : Qeqb _ _ = false |- _ => apply Qeqb_false in H
  end.

(** ** Frame of the tick: the clock and the accumulator *)

Lemma setBlockColor_frame row col color g :
  let g' := setBlockColor row col color g in
  gameTime g' = gameTime g /\ accumulator g' = accumulator g /\
  geom g' = geom g /\ players g' = players g /\ bombs g' = bombs g.
Proof.
  unfold setBlockColor.
  destruct (_ || _); [easy|].
  destruct (blockAt _ _ _); [|easy].
  destruct (bool_decide _); [easy|].
  destruct (isAtSpawn _ _ _); easy.
Qed.

Lemma paint_fold_frame (ts : list ((nat * nat) * (Team * string))) g :
  let g' := fold_left (fun g' (t : (nat * nat) * (Team * string)) =>
                         setBlockColor (Z.of_nat t.1.1) (Z.of_nat t.1.2) (painted t.2.1) g')
                      ts g in
  gameTime g' = gameTime g /\ accumulator g' = accumulator g /\
  geom g' = geom g /\ players g' = players g /\ bombs g' = bombs g.
Proof.
  revert g. induction ts as [|t ts IH]; intros g; [easy|].
  cbn [fold_left].
  destruct (IH (setBlockColor (Z.of_nat t.1.1) (Z.of_nat t.1.2) (painted t.2.1) g))
    as (H1 & H2 & H3 & H4 & H5).
  destruct (setBlockColor_frame (Z.of_nat t.1.1) (Z.of_nat t.1.2) (painted t.2.1) g)
    as (K1 & K2 & K3 & K4 & K5).
  cbv zeta. repeat split; congruence.
Qed.

Lemma updateGame_gameTime dt g : gameTime (updateGame dt g) = gameTime g.
Proof.
  unfold updateGame. cbn [gameTime setPlayers setBombs].
  match goal with |- gameTime (fold_left ?f ?ts ?g0) = _ =>
    destruct (paint_fold_frame ts g0) as (H & _) end.
  cbv zeta in H. rewrite H. reflexivity.
Qed.

Lemma updateGame_accumulator dt g : accumulator (updateGame dt g) = accumulator g.
Proof.
  unfold updateGame. cbn [accumulator setPlayers setBombs].
  match goal with |- accumulator (fold_left ?f ?ts ?g0) = _ =>
    destruct (paint_fold_frame ts g0) as (_ & H & _) end.
  cbv zeta in H. rewrite H. reflexivity.
Qed.

Lemma updateGame_geom dt g : geom (updateGame dt g) = geom g.
Proof.
  unfold updateGame. cbn [geom setPlayers setBombs].
  match goal with |- geom (fold_left ?f ?ts ?g0) = _ =>
    destruct (paint_fold_frame ts g0) as (_ & _ & H & _) end.
  cbv zeta in H. rewrite H. reflexivity.
Qed.

(** ** The fixed-timestep accumulator *)

Lemma gameTime_setAccumulator a g : gameTime (setAccumulator a g) = gameTime g.
Proof. reflexivity. Qed.

Lemma gameTime_setGameTime t g : gameTime (setGameTime t g) = t.
Proof. reflexivity. Qed.

Lemma accumulator_setAccumulator a g : accumulator (setAccumulator a g) = a.
Proof. reflexivity. Qed.

Lemma accumulator_setGameTime t g : accumulator (setGameTime t g) = accumulator g.
Proof. reflexivity. Qed.

Lemma simulationStep_gameTime g :
  gameTime (simulationStep g) = dadd (gameTime g) fixedTimestepD.
Proof.
  unfold simulationStep. cbv zeta.
  rewrite gameTime_setAccumulator, updateGame_gameTime.
  apply gameTime_setGameTime.
Qed.

Lemma simulationStep_accumulator g :
  accumulator (simulationStep g) = dsub (accumulator g) fixedTimestepD.
Proof.
  unfold simulationStep. cbv zeta.
  rewrite accumulator_setAccumulator, updateGame_accumulator.
  rewrite accumulator_setGameTime. reflexivity.
Qed.

Lemma setAccumulator_id g : setAccumulator (accumulator g) g = g.
Proof. destruct g; reflexivity. Qed.

Lemma inject_nat_succ (n : nat) :
  inject_Z (Z.of_nat (S n)) == inject_Z (Z.of_nat n) + 1.
Proof.
  rewrite Nat2Z.inj_succ. unfold Z.succ. rewrite inject_Z_plus. reflexivity.
Qed.

Lemma iter_shift {A : Type} (f : A -> A) (n : nat) (a : A) :
  Nat.iter n f (f a) = Nat.iter (S n) f a.
Proof. symmetry. apply Nat.iter_succ_r. Qed.

(** The loop makes [n] steps: the accumulator was found [>= 1/60] before
    each of them, and is not when the loop stops short of its bound. *)
Lemma updateLoop_spec k g :
  let r := updateLoop k g in
  let n := r.2 in
  (n <= k)%nat /\
  r.1 = Nat.iter n simulationStep g /\
  gameTime r.1 = Nat.iter n (fun t => dadd t fixedTimestepD) (gameTime g) /\
  accumulator r.1 = Nat.iter n (fun a => dsub a fixedTimestepD) (accumulator g) /\
  (forall j, (j < n)%nat ->
     dgeb (Nat.iter j (fun a => dsub a fixedTimestepD) (accumulator g)) fixedTimestepD
     = true) /\
  ((n < k)%nat ->
     dgeb (Nat.iter n (fun a => dsub a fixedTimestepD) (accumulator g)) fixedTimestepD
     = false).
Proof.
  revert g. induction k as [|k IH]; intros g; cbn [updateLoop].
  - cbn [fst snd]. repeat apply conj; try reflexivity; lia.
  - destruct (dgeb (accumulator g) fixedTimestepD) eqn:E.
    + specialize (IH (simulationStep g)). cbv zeta in IH.
      destruct IH as (I1 & I2 & I3 & I4 & I5 & I6).
      cbn [fst snd].
      rewrite simulationStep_gameTime in I3.
      rewrite simulationStep_accumulator in I4, I5, I6.
      repeat apply conj.
      * lia.
      * rewrite Nat.iter_succ_r. exact I2.
      * rewrite Nat.iter_succ_r. exact I3.
      * rewrite Nat.iter_succ_r. exact I4.
      * intros [|j] Hj; [exact E|].
        rewrite Nat.iter_succ_r. apply I5. lia.
      * intros Hn. rewrite Nat.iter_succ_r. apply I6. lia.
    + cbn [fst snd]. repeat apply conj; try reflexivity; try lia.
      intros _. exact E.
Qed.

Lemma SFltb_asym (a b : double) : SFltb a b = true -> SFltb b a = false.
Proof.
  unfold SFltb.
  destruct a as [sa|sa| |sa ma ea], b as [sb|sb| |sb mb eb]; cbn [SFcompare];
    try discriminate; try reflexivity;
    try (destruct sa; try discriminate; try reflexivity; fail);
    try (destruct sb; try discriminate; try reflexivity; fail);
    try (destruct sa, sb; try discriminate; try reflexivity; fail).
  change (PosDef.Pos.compare_cont Eq ma mb) with (Pos.compare ma mb).
  change (PosDef.Pos.compare_cont Eq mb ma) with (Pos.compare mb ma).
  rewrite (Z.compare_antisym ea eb), (Pos.compare_antisym ma mb).
  destruct sa, sb; try discriminate; try reflexivity;
    destruct (ea ?= eb)%Z; cbn [CompOpp]; try discriminate; try reflexivity;
    destruct (ma ?= mb)%positive; cbn [CompOpp]; try discriminate; reflexivity.
Qed.

Lemma SFltb_leb (a b : double) : SFleb a b = false -> SFltb a b = false.
Proof.
  unfold SFleb, SFltb. destruct (SFcompare a b) as [[| |]|]; try discriminate; reflexivity.
Qed.

Lemma SFltb_irrefl (a : double) : SFltb a a = false.
Proof.
  destruct (SFltb a a) eqn:E; [|reflexivity].
  pose proof (SFltb_asym a a E). congruence.
Qed.

(** [Math.min(a, b)] is never above [b]. *)
Lemma dmin_bound (a b : double) : SFltb b (dmin a b) = false.
Proof.
  assert (Hn : SFltb b S754_nan = false) by (destruct b; reflexivity).
  unfold dmin.
  destruct a as [sa|sa| |sa ma ea] eqn:Ea; [| |exact Hn|];
    (destruct b as [sb|sb| |sb mb eb] eqn:Eb; [| |reflexivity|]);
    rewrite <- ?Ea, <- ?Eb in *;
    (destruct (SFltb a b) eqn:E1; [apply SFltb_asym; exact E1|]);
    (destruct (SFltb b a) eqn:E2; [apply SFltb_irrefl|]);
    try exact E2;
    (destruct sb; [apply SFltb_irrefl|exact E2]).
Qed.

(** C9.  [update(deltaTime)] clamps [deltaTime] to at most 0.1 s with
    [Math.min], adds it to the accumulator and then runs the simulation step
    (clock advanced by the double 1/60, [updateGame(1/60)], accumulator
    drained by the same double) [n] times, [n <= 5]: once for each time the
    accumulator is found [>= 1/60], the loop stopping short of five steps
    only when it is not.  [gameTime] is what [n] rounded additions of the
    double 1/60 make of it, and the accumulator is left no greater than
    1/60. *)
Theorem update_fixed_timestep (deltaTime : double) (g : GameServer) :
  let r := updateCounting deltaTime g in
  let n := r.2 in
  let dt := dmin deltaTime tenth in
  let g0 := setAccumulator (dadd (accumulator g) dt) g in
  let drained := Nat.iter n (fun a => dsub a fixedTimestepD) (accumulator g0) in
  update deltaTime g = r.1 /\
  SFltb tenth dt = false /\
  (n <= 5)%nat /\
  r.1 = setAccumulator (accumulator r.1) (Nat.iter n simulationStep g0) /\
  gameTime r.1 = Nat.iter n (fun t => dadd t fixedTimestepD) (gameTime g) /\
  (forall j, (j < n)%nat ->
     dgeb (Nat.iter j (fun a => dsub a fixedTimestepD) (accumulator g0)) fixedTimestepD
     = true) /\
  ((n < 5)%nat -> dgeb drained fixedTimestepD = false) /\
  accumulator r.1 = (if dgeb drained fixedTimestepD then fixedTimestepD else drained) /\
  SFltb fixedTimestepD (accumulator r.1) = false.
Proof.
  cbv zeta. unfold update, updateCounting. cbv zeta.
  set (g0 := setAccumulator (dadd (accumulator g) (dmin deltaTime tenth)) g).
  pose proof (updateLoop_spec maxUpdates g0) as H.
  cbv zeta in H. destruct H as (H1 & H2 & H3 & H4 & H5 & H6).
  revert H1 H2 H3 H4 H5 H6. generalize (updateLoop maxUpdates g0). intros [g2 n].
  cbn [fst snd]. unfold maxUpdates. intros H1 H2 H3 H4 H5 H6.
  destruct (dgeb (accumulator g2) fixedTimestepD) eqn:E; cbn [fst snd];
    rewrite <- H4.
  - rewrite E, accumulator_setAccumulator, gameTime_setAccumulator, <- H2.
    repeat apply conj; try assumption; try reflexivity.
    + apply dmin_bound.
    + intros Hn. specialize (H6 Hn). rewrite <- H4, E in H6. exact H6.
  - rewrite E, <- H2.
    repeat apply conj; try assumption; try reflexivity.
    + apply dmin_bound.
    + symmetry. apply setAccumulator_id.
    + apply SFltb_leb. exact E.
Qed.

(** The amended statement speaks of rounded additions because the clock is
    not exact: the first step of a new server already leaves [gameTime] at
    the double nearest to 1/60, which is not 1/60; measured in the double
    itself the clock is exact for two steps and then falls behind, so that
    after seven steps the snapshot reports tick 6. *)
Lemma clock_not_exact :
  ~ clockExact fixedTimestepD demoServer /\
  (updateCounting fixedTimestepD (afterTicks 2)).2 = 1%nat /\
  ~ clockExactD fixedTimestepD (afterTicks 2) /\
  gameTime (afterTicks 7) = Nat.iter 7 (fun t => dadd t fixedTimestepD) dzero /\
  dvalue (gameTime (afterTicks 7)) < 7 * dvalue fixedTimestepD /\
  snap_tick (getSnapshot 0 (afterTicks 7)).1 = dofZ 6.
Proof.
  repeat apply conj.
  - unfold clockExact. vm_compute. discriminate.
  - vm_compute. reflexivity.
  - unfold clockExactD. vm_compute. discriminate.
  - vm_compute. reflexivity.
  - vm_compute. reflexivity.
  - vm_compute. reflexivity.
Qed.

(** Two calls, of 0.007 s and of 0.043 s, on a new server: 0.05 s in all,
    three time steps on paper.  The first call makes no step and the second
    makes two: the accumulator then holds a double just under 1/60. *)
Example update_steps_in_doubles :
  let d7 := ddiv (dofZ 7) (dofZ 1000) in
  let d43 := ddiv (dofZ 43) (dofZ 1000) in
  (updateCounting d7 demoServer).2 = 0%nat /\
  (updateCounting d43 (update d7 demoServer)).2 = 2%nat /\
  dgeb (accumulator (update d43 (update d7 demoServer))) fixedTimestepD = false.
Proof. cbv zeta. repeat apply conj; vm_compute; reflexivity. Qed.

(** ** Snapshots leave the simulation alone *)

Lemma sameSimulation_fields g1 g2 :
  sameSimulation g1 g2 ->
  exists c1 c2 ps ins sq bs tbs t a md m si cs,
    g1 = mkGS ps ins sq bs tbs t a md m si cs c1 /\
    g2 = mkGS ps ins sq bs tbs t a md m si cs c2.
Proof.
  unfold sameSimulation. destruct g1, g2. cbn. intros H. inversion H; subst.
  do 13 eexists. split; reflexivity.
Qed.

Lemma setBlockColor_same row col color g1 g2 :
  sameSimulation g1 g2 ->
  sameSimulation (setBlockColor row col color g1) (setBlockColor row col color g2).
Proof.
  intros H. apply sameSimulation_fields in H.
  destruct H as (c1 & c2 & ps & ins & sq & bs & tbs & t & a & md & m & si & cs & -> & ->).
  unfold sameSimulation, setBlockColor, colorAt. cbn.
  destruct (_ || _); [reflexivity|].
  destruct (blockAt m _ _); [|reflexivity].
  destruct (bool_decide _); [reflexivity|].
  destruct (isAtSpawn m row col); reflexivity.
Qed.

Lemma paint_fold_same (ts : list ((nat * nat) * (Team * string))) g1 g2 :
  sameSimulation g1 g2 ->
  sameSimulation
    (fold_left (fun g' (t : (nat * nat) * (Team * string)) =>
                  setBlockColor (Z.of_nat t.1.1) (Z.of_nat t.1.2) (painted t.2.1) g')
               ts g1)
    (fold_left (fun g' (t : (nat * nat) * (Team * string)) =>
                  setBlockColor (Z.of_nat t.1.1) (Z.of_nat t.1.2) (painted t.2.1) g')
               ts g2).
Proof.
  revert g1 g2. induction ts as [|t ts IH]; intros g1 g2 H; [exact H|].
  cbn [fold_left]. apply IH. apply setBlockColor_same. exact H.
Qed.

Lemma updateGame_same deltaTime g1 g2 :
  sameSimulation g1 g2 ->
  sameSimulation (updateGame deltaTime g1) (updateGame deltaTime g2).
Proof.
  intros H. apply sameSimulation_fields in H.
  destruct H as (c1 & c2 & ps & ins & sq & bs & tbs & t & a & md & m & si & cs & -> & ->).
  unfold updateGame.
  cbn [geom players playerInputs spawnIndices thrownBombs setPlayers setPlayerInputs
       setSpawnIndices setThrownBombs].
  match goal with
  | |- sameSimulation
         (setPlayers (updateBombs _ _ (bombs (fold_left ?f ?ts ?ga)) (players _)).2 _)
         (setPlayers (updateBombs _ _ (bombs (fold_left ?f ?ts ?gb)) (players _)).2 _) =>
      assert (Hs : sameSimulation (fold_left f ts ga) (fold_left f ts gb))
        by (apply paint_fold_same; reflexivity);
      apply sameSimulation_fields in Hs;
      destruct Hs as (c1' & c2' & ps' & ins' & sq' & bs' & tbs' & t' & a' & md' & m'
                      & si' & cs' & -> & ->)
  end.
  reflexivity.
Qed.

Lemma simulationStep_same g1 g2 :
  sameSimulation g1 g2 -> sameSimulation (simulationStep g1) (simulationStep g2).
Proof.
  intros H. unfold simulationStep.
  assert (H1 : sameSimulation (setGameTime (dadd (gameTime g1) fixedTimestepD) g1)
                              (setGameTime (dadd (gameTime g2) fixedTimestepD) g2)).
  { apply sameSimulation_fields in H.
    destruct H as (c1 & c2 & ps & ins & sq & bs & tbs & t & a & md & m & si & cs & -> & ->).
    reflexivity. }
  apply (updateGame_same fixedTimestep) in H1.
  apply sameSimulation_fields in H1.
  destruct H1 as (c1 & c2 & ps & ins & sq & bs & tbs & t & a & md & m & si & cs & -> & ->).
  reflexivity.
Qed.

Lemma updateLoop_same k g1 g2 :
  sameSimulation g1 g2 ->
  sameSimulation (updateLoop k g1).1 (updateLoop k g2).1 /\
  (updateLoop k g1).2 = (updateLoop k g2).2.
Proof.
  revert g1 g2. induction k as [|k IH]; intros g1 g2 H; cbn [updateLoop].
  - split; [exact H|reflexivity].
  - assert (Ha : accumulator g1 = accumulator g2).
    { apply sameSimulation_fields in H.
      destruct H as (c1 & c2 & ps & ins & sq & bs & tbs & t & a & md & m & si & cs & -> & ->).
      reflexivity. }
    rewrite Ha. destruct (dgeb (accumulator g2) fixedTimestepD).
    + destruct (IH _ _ (simulationStep_same g1 g2 H)) as [I1 I2].
      cbn [fst snd]. split; [exact I1|congruence].
    + split; [exact H|reflexivity].
Qed.

Lemma update_same deltaTime g1 g2 :
  sameSimulation g1 g2 -> sameSimulation (update deltaTime g1) (update deltaTime g2).
Proof.
  intros H. unfold update, updateCounting.
  assert (H1 : sameSimulation
                 (setAccumulator (dadd (accumulator g1) (dmin deltaTime tenth)) g1)
                 (setAccumulator (dadd (accumulator g2) (dmin deltaTime tenth)) g2)).
  { apply sameSimulation_fields in H.
    destruct H as (c1 & c2 & ps & ins & sq & bs & tbs & t & a & md & m & si & cs & -> & ->).
    reflexivity. }
  destruct (updateLoop_same maxUpdates _ _ H1) as [H2 _].
  apply sameSimulation_fields in H2.
  destruct H2 as (c1 & c2 & ps & ins & sq & bs & tbs & t & a & md & m & si & cs & E1 & E2).
  rewrite E1, E2. cbn [accumulator].
  destruct (dgeb a fixedTimestepD); reflexivity.
Qed.

(** C10.  [getSnapshot] changes nothing of the server but [changedBlocks],
    which it empties; and the simulation goes on from the state it leaves
    exactly as from the state it found, up to the dirty set. *)
Theorem getSnapshot_frame (serverTime : Z) (g : GameServer) :
  let g' := (getSnapshot serverTime g).2 in
  players g' = players g /\
  playerInputs g' = playerInputs g /\
  bombs g' = bombs g /\
  thrownBombs g' = thrownBombs g /\
  blockColors g' = blockColors g /\
  lastProcessedSequence g' = lastProcessedSequence g /\
  gameTime g' = gameTime g /\
  changedBlocks g' = [] /\
  g' = setChangedBlocks [] g /\
  forall deltaTime, sameSimulation (update deltaTime g') (update deltaTime g).
Proof.
  cbv zeta. unfold getSnapshot. cbn [snd].
  repeat apply conj; try reflexivity.
  intros deltaTime. apply update_same. unfold sameSimulation.
  destruct g; reflexivity.
Qed.

(** ** Input sequence acknowledgment *)

Lemma copy_sequences (m : gmap string Z) :
  map_fold (fun playerId sequence (o : gmap string Z) => <[playerId := sequence]> o)
           ∅ m = m.
Proof.
  apply (map_fold_weak_ind (fun r m => r = m)).
  - reflexivity.
  - intros i x m' r _ ->. reflexivity.
Qed.

Lemma getSnapshot_sequences t g :
  snap_lastProcessedSequences (getSnapshot t g).1 = lastProcessedSequence g.
Proof. unfold getSnapshot. cbn. apply copy_sequences. Qed.

Lemma takeSnapshots_sequences ts g :
  lastProcessedSequence (takeSnapshots ts g) = lastProcessedSequence g.
Proof.
  revert g. induction ts as [|t ts IH]; intros g; [reflexivity|].
  cbn [takeSnapshots]. rewrite IH. reflexivity.
Qed.

Lemma applyInputs_players pid evs t sq g :
  players (outcomeState (applyInputs pid evs t sq g)) = players g.
Proof.
  unfold applyInputs. destruct (omGet pid (players g)); [|reflexivity].
  destruct (applyEvents evs _); reflexivity.
Qed.

Lemma applyInputs_sequence pid evs t n g p :
  omGet pid (players g) = Some p ->
  lastProcessedSequence (outcomeState (applyInputs pid evs t (Some n) g)) !! pid = Some n.
Proof.
  intros H. unfold applyInputs. rewrite H.
  destruct (applyEvents evs _); cbn; apply lookup_insert_eq.
Qed.

Lemma applyBatches_players pid bs g :
  players (applyBatches pid bs g) = players g.
Proof.
  revert g. induction bs as [|b bs IH]; intros g; [reflexivity|].
  cbn [applyBatches]. rewrite IH. apply applyInputs_players.
Qed.

Lemma applyBatches_last pid bs evs n g p :
  omGet pid (players g) = Some p ->
  lastProcessedSequence (applyBatches pid (bs ++ [(evs, n)]) g) !! pid = Some n.
Proof.
  revert g. induction bs as [|b bs IH]; intros g H.
  - cbn [app applyBatches fst snd]. eapply applyInputs_sequence; eauto.
  - cbn [app applyBatches]. apply IH. rewrite applyInputs_players. exact H.
Qed.

Lemma maxSequence_ge z l : (z <= maxSequence z l)%Z.
Proof.
  unfold maxSequence. revert z. induction l as [|a l IH]; intros z; cbn; [lia|].
  specialize (IH (Z.max z a)). lia.
Qed.

Lemma maxSequence_last z l n :
  Forall (fun s => (s <= n)%Z) l -> (z <= n)%Z -> maxSequence z (l ++ [n]) = n.
Proof.
  unfold maxSequence. revert z. induction l as [|a l IH]; intros z Hl Hz; cbn.
  - lia.
  - inversion Hl; subst. apply IH; [assumption|lia].
Qed.

(** Two messages handled in the order 2, 1 leave 1 recorded, not the
    highest: [recordsHighest] fails. *)
Lemma highest_sequence_counterexample :
  ~ recordsHighest "p1" [([], 2%Z); ([], 1%Z)] demoServer1.
Proof.
  intros H. specialize (H ([], 2%Z) [([], 1%Z)] eq_refl).
  vm_compute in H. discriminate H.
Qed.

(** C7 (amended).  For a player of the game, the store holds the sequence
    number of the message applied last; every later snapshot carries it for
    that player; it is the highest one applied when no earlier message had a
    greater number. *)
Theorem last_sequence_acknowledged
    (playerId : string) (bs : list Batch) (evs : list InputEvent) (n : Z)
    (g : GameServer) (p : Player) (times : list Z) (t : Z) :
  omGet playerId (players g) = Some p ->
  let g' := applyBatches playerId (bs ++ [(evs, n)]) g in
  lastProcessedSequence g' !! playerId = Some n /\
  snap_lastProcessedSequences (getSnapshot t (takeSnapshots times g')).1 !! playerId
    = Some n /\
  (Forall (fun s => (s <= n)%Z) (map snd bs) ->
   forall b rest, bs ++ [(evs, n)] = b :: rest ->
     maxSequence b.2 (map snd rest) = n).
Proof.
  intros Hp. cbv zeta.
  assert (Hlast := applyBatches_last playerId bs evs n g p Hp).
  repeat apply conj.
  - exact Hlast.
  - rewrite getSnapshot_sequences, takeSnapshots_sequences. exact Hlast.
  - intros Hall b rest Heq. destruct bs as [|b0 bs'].
    + cbn in Heq. inversion Heq; subst. reflexivity.
    + cbn in Heq. inversion Heq; subst b rest. cbn [map] in Hall.
      inversion Hall; subst. rewrite map_app. cbn [map snd].
      apply maxSequence_last; assumption.
Qed.

(** After the messages 1, 2, 3 the store and the snapshot hold 3. *)
Lemma last_sequence_acknowledged_witness :
  lastProcessedSequence
    (applyBatches "p1" ([([], 1%Z); ([], 2%Z)] ++ [([], 3%Z)]) demoServer1) !! "p1"
  = Some 3%Z /\
  snap_lastProcessedSequences
    (getSnapshot 0 (takeSnapshots [0%Z]
       (applyBatches "p1" ([([], 1%Z); ([], 2%Z)] ++ [([], 3%Z)]) demoServer1))).1 !! "p1"
  = Some 3%Z.
Proof.
  assert (Hp : { p | omGet "p1" (players demoServer1) = Some p }).
  { eexists. vm_compute. reflexivity. }
  destruct Hp as [p Hp].
  destruct (last_sequence_acknowledged "p1" [([], 1%Z); ([], 2%Z)] [] 3%Z
              demoServer1 p [0%Z] 0%Z Hp) as (H1 & H2 & _).
  split; [exact H1|exact H2].
Defined.

(** ** Invalid input events *)

Lemma unknown_key_dropped (k : string) (pressed : bool) (st : InputState) :
  toLowerCase k <> "a"%string -> toLowerCase k <> "d"%string ->
  toLowerCase k <> "w"%string -> toLowerCase k <> "s"%string ->
  applyEvent st (mkEvent (KeyString k) pressed) = Returned st.
Proof.
  intros Ha Hd Hw Hs. unfold applyEvent. cbn [ev_key ev_pressed].
  apply String.eqb_neq in Ha, Hd, Hw, Hs. rewrite Ha, Hd, Hw, Hs. reflexivity.
Qed.

Lemma event_without_key_throws (pressed : bool) (st : InputState) :
  applyEvent st (mkEvent KeyOther pressed) = Thrown st.
Proof. reflexivity. Qed.

(** C8 (failing input).  A message of player ["p1"] whose single event has
    no [key] does not return: [input.key.toLowerCase()] raises a
    [TypeError], after the sequence number 7 was recorded. *)
Theorem malformed_event_throws :
  exists g',
    applyInputs "p1" [mkEvent KeyOther true] 0 (Some 7%Z) demoServer1 = Thrown g' /\
    lastProcessedSequence g' !! "p1" = Some 7%Z /\
    playerInputs g' !! "p1" = playerInputs demoServer1 !! "p1".
Proof.
  assert (Hp : exists p, omGet "p1" (players demoServer1) = Some p).
  { eexists. vm_compute. reflexivity. }
  destruct Hp as [p Hp].
  eexists. split; [|split].
  - unfold applyInputs. rewrite Hp.
    cbn [applyEvents applyEvent ev_key]. reflexivity.
  - cbn. apply lookup_insert_eq.
  - cbn. rewrite lookup_insert_eq. vm_compute. reflexivity.
Qed.

(** ** Jump quota *)

(** On the jump pad, and 40 px above it, the edge-triggered jump is
    ignored: the quota as first stated fails there. *)
Lemma jump_refused_near_jump_pad :
  ~ jumpQuota demoGeom jumpPressed playerOnPad /\
  ~ jumpQuota demoGeom jumpPressed playerAbovePad.
Proof.
  split; intros H; destruct (H eq_refl eq_refl) as (H1 & H2 & H3).
  - destruct (H1 eq_refl) as [Hj _]. vm_compute in Hj. discriminate Hj.
  - assert (Hj : p_jumpsUsed (processJumpInput demoGeom jumpPressed playerAbovePad).1
                 = 2%nat).
    { apply H2; [reflexivity| vm_compute; reflexivity | reflexivity | reflexivity]. }
    vm_compute in Hj. discriminate Hj.
Qed.

(** C4 (amended).  For an edge-triggered jump of a player that neither
    stands on a jump pad nor is inside one: from the ground it is the first
    jump, at [JUMP_POWER]; in the air, away from any block, falling, with
    one jump used, it is the second, at [JUMP_POWER].  With two jumps used,
    in the air and away from any block, the jump is refused and the player
    is unchanged. *)
Theorem jump_quota (m : MapGeom) (inputState : InputState) (p : Player) :
  i_w inputState = true -> i_wasPressingW inputState = false ->
  let p' := (processJumpInput m inputState p).1 in
  (isOnJumpPad m (p_x p) (p_y p) = false ->
   checkJumpPadCollision m (p_x p) (p_y p) = false ->
   p_onGround p = true ->
     p_jumpsUsed p' = 1%nat /\ p_velocityY p' = JUMP_POWER /\ p_onGround p' = false) /\
  (isOnJumpPad m (p_x p) (p_y p) = false ->
   checkJumpPadCollision m (p_x p) (p_y p) = false ->
   p_onGround p = false -> isTouchingBlock m (p_x p) (p_y p) = false ->
   0 < p_velocityY p -> p_jumpsUsed p = 1%nat ->
     p_jumpsUsed p' = 2%nat /\ p_velocityY p' = JUMP_POWER) /\
  (p_onGround p = false -> isTouchingBlock m (p_x p) (p_y p) = false ->
   p_jumpsUsed p = 2%nat ->
     p' = p).
Proof.
  intros Hw Hwas. cbv zeta. unfold processJumpInput. rewrite Hw, Hwas.
  cbn [andb negb]. repeat apply conj.
  - intros H1 H2 H3. rewrite H1, H2, H3. cbn. auto.
  - intros H1 H2 H3 H4 H5 H6. rewrite H1, H2, H3, H4, H6.
    apply Qgtb_spec in H5. rewrite H5. cbn. auto.
  - intros H3 H4 H6. rewrite H3, H4, H6.
    destruct (_ || _); reflexivity.
Qed.

Lemma jump_quota_witness :
  (let p' := (processJumpInput demoGeom jumpPressed playerOnBlock).1 in
   p_jumpsUsed p' = 1%nat /\ p_velocityY p' = JUMP_POWER /\ p_onGround p' = false) /\
  (let p' := (processJumpInput demoGeom jumpPressed (playerInAir 1)).1 in
   p_jumpsUsed p' = 2%nat /\ p_velocityY p' = JUMP_POWER) /\
  (processJumpInput demoGeom jumpPressed (playerInAir 2)).1 = playerInAir 2.
Proof.
  split; [|split].
  - apply (jump_quota demoGeom jumpPressed playerOnBlock eq_refl eq_refl);
      vm_compute; reflexivity.
  - apply (jump_quota demoGeom jumpPressed (playerInAir 1) eq_refl eq_refl);
      vm_compute; reflexivity.
  - apply (jump_quota demoGeom jumpPressed (playerInAir 2) eq_refl eq_refl);
      vm_compute; reflexivity.
Defined.

(** ** Jump pads are one-way *)

Lemma firstSome_filter {A B : Type} (f : A -> option B) (keep : A -> bool) (l : list A) :
  (forall a, keep a = false -> f a = None) ->
  firstSome f (List.filter keep l) = firstSome f l.
Proof.
  intros H. induction l as [|a l IH]; [reflexivity|].
  cbn [List.filter firstSome]. destruct (keep a) eqn:E.
  - cbn [firstSome]. destruct (f a); [reflexivity|exact IH].
  - rewrite (H a E). exact IH.
Qed.

Lemma jump_pad_passed_upward m x y velocityY prevY b :
  velocityY < 0 -> isJumpPad b = true ->
  checkCollisionBlock m x y velocityY prevY b = None.
Proof.
  intros Hv Hb. unfold checkCollisionBlock, jumpPadLetsThrough.
  apply Qltb_spec in Hv. rewrite Hv, Hb. cbn [andb].
  destruct (_ && _); reflexivity.
Qed.

Lemma checkCollision_upward_regular m x y velocityY prevY :
  velocityY < 0 ->
  checkCollision m x y velocityY prevY
  = collisionAmong m x y velocityY prevY (regularBlocks m).
Proof.
  intros Hv. unfold checkCollision, collisionAmong, regularBlocks.
  rewrite firstSome_filter; [reflexivity|].
  intros b Hb. apply negb_false_iff in Hb.
  apply jump_pad_passed_upward; assumption.
Qed.

(** C6.  With [velocityY < 0]: the loop of [checkCollision] goes on at every
    jump pad, so that the result is the one found among the blocks that are
    not jump pads; and the vertical move of a player going up either takes
    the player to the new height with the velocity kept or set to the
    bounce, or stops it at a ceiling, which happens only when a block that
    is not a jump pad is hit and no jump pad overlaps the player, before or
    after the move. *)
Theorem jump_pad_one_way (m : MapGeom) (x y velocityY : Q) (prevY : option Q)
    (deltaTime : Q) (p : Player) :
  velocityY < 0 -> p_velocityY p < 0 ->
  (forall b, isJumpPad b = true ->
     checkCollisionBlock m x y velocityY prevY b = None) /\
  checkCollision m x y velocityY prevY
    = collisionAmong m x y velocityY prevY (regularBlocks m) /\
  let newY := p_y p + p_velocityY p * deltaTime in
  let p' := verticalMove m deltaTime p in
  ((p_y p' = newY /\
    (p_velocityY p' = p_velocityY p \/ p_velocityY p' = JUMP_PAD_BOUNCE))
   \/
   (checkJumpPadCollision m (p_x p) newY = false /\
    checkJumpPadCollision m (p_x p) (p_y p) = false /\
    collided (collisionAmong m (p_x p) newY (p_velocityY p) (Some (p_y p))
                (regularBlocks m)) = true /\
    p_velocityY p' = 0)).
Proof.
  intros Hv Hp. split; [|split].
  - intros b Hb. apply jump_pad_passed_upward; assumption.
  - apply checkCollision_upward_regular. exact Hv.
  - cbv zeta. unfold verticalMove.
    assert (Hgt : Qgtb (p_velocityY p) 0 = false) by (apply Qgtb_false; lra).
    assert (Hlt : Qltb (p_velocityY p) 0 = true) by (apply Qltb_spec; exact Hp).
    rewrite Hgt, Hlt.
    rewrite (checkCollision_upward_regular m (p_x p) _ (p_velocityY p) _ Hp).
    set (newY := p_y p + p_velocityY p * deltaTime).
    destruct (negb (p_wasInJumpPad p) && checkJumpPadCollision m (p_x p) newY) eqn:Eent.
    { left. cbn. auto. }
    destruct (checkJumpPadCollision m (p_x p) (p_y p)) eqn:Ecur; cbn [andb].
    { left. cbn. auto. }
    destruct (collided _) eqn:Ecol; cbn [negb].
    2:{ left. cbn. auto. }
    destruct (checkJumpPadCollision m (p_x p) newY) eqn:Ehit; cbn [andb].
    { left. cbn. auto. }
    right. repeat apply conj; try reflexivity.
Qed.

Lemma jump_pad_one_way_witness :
  let p := playerThroughPad in
  let m := demoGeom in
  let deltaTime := fixedTimestep in
  (forall b, isJumpPad b = true ->
     checkCollisionBlock m 960 520 (-100) None b = None) /\
  checkCollision m 960 520 (-100) None
    = collisionAmong m 960 520 (-100) None (regularBlocks m) /\
  let newY := p_y p + p_velocityY p * deltaTime in
  let p' := verticalMove m deltaTime p in
  ((p_y p' = newY /\
    (p_velocityY p' = p_velocityY p \/ p_velocityY p' = JUMP_PAD_BOUNCE))
   \/
   (checkJumpPadCollision m (p_x p) newY = false /\
    checkJumpPadCollision m (p_x p) (p_y p) = false /\
    collided (collisionAmong m (p_x p) newY (p_velocityY p) (Some (p_y p))
                (regularBlocks m)) = true /\
    p_velocityY p' = 0)).
Proof.
  apply (jump_pad_one_way demoGeom 960 520 (-100) None fixedTimestep playerThroughPad);
    reflexivity.
Defined.

(** ** Determinism of the player step *)

Lemma idxLe_refl a : idxLe a a.
Proof. unfold idxLe. lia. Qed.

Lemma idxLe_antisym a b c : idxLe a b -> idxLe b c -> c = a -> b = a.
Proof.
  unfold idxLe. destruct a, b, c. cbn. intros [? ?] [? ?] E.
  inversion E; subst. f_equal; lia.
Qed.

Lemma bumpIndex_neq si t : bumpIndex si t <> si.
Proof. destruct si, t; cbn; intros E; inversion E; lia. Qed.

Lemma bumpIndex_le si t : idxLe si (bumpIndex si t).
Proof. destruct si, t; unfold idxLe; cbn; lia. Qed.

Lemma getSpawnPoint_le m si t : idxLe si (getSpawnPoint m si t).2.
Proof.
  unfold getSpawnPoint. destruct (Nat.eqb _ 0); [apply idxLe_refl|].
  destruct (_ !! _); apply bumpIndex_le.
Qed.

Lemma getSpawnPoint_indep m si1 t :
  (getSpawnPoint m si1 t).2 = si1 ->
  forall si2, getSpawnPoint m si2 t = ((getSpawnPoint m si1 t).1, si2).
Proof.
  unfold getSpawnPoint. destruct (Nat.eqb _ 0); [reflexivity|].
  destruct (_ !! _); cbn [snd]; intros E; destruct (bumpIndex_neq _ _ E).
Qed.

Lemma respawnAtSpawn_le m si p : idxLe si (respawnAtSpawn m si p).2.
Proof. unfold respawnAtSpawn. cbn [snd]. apply getSpawnPoint_le. Qed.

Lemma respawnAtSpawn_indep m si1 p :
  (respawnAtSpawn m si1 p).2 = si1 ->
  forall si2, respawnAtSpawn m si2 p = ((respawnAtSpawn m si1 p).1, si2).
Proof.
  unfold respawnAtSpawn. cbn [fst snd]. intros E si2.
  rewrite (getSpawnPoint_indep m si1 (p_team p) E si2). reflexivity.
Qed.

Lemma safetyCheck_le m si p : idxLe si (safetyCheck m si p).2.
Proof.
  unfold safetyCheck. destruct (negb _); [|apply idxLe_refl].
  destruct (collided _); [|apply idxLe_refl].
  destruct (getGroundY _ _ _); [apply idxLe_refl|apply respawnAtSpawn_le].
Qed.

Lemma safetyCheck_indep m si1 p :
  (safetyCheck m si1 p).2 = si1 ->
  forall si2, safetyCheck m si2 p = ((safetyCheck m si1 p).1, si2).
Proof.
  unfold safetyCheck. destruct (negb _); [|reflexivity].
  destruct (collided _); [|reflexivity].
  destruct (getGroundY _ _ _); [reflexivity|apply respawnAtSpawn_indep].
Qed.

Lemma fallCheck_le m si p : idxLe si (fallCheck m si p).2.
Proof.
  unfold fallCheck. destruct (Qgtb _ _); [|apply idxLe_refl].
  destruct (getGroundY _ _ _); [apply idxLe_refl|apply respawnAtSpawn_le].
Qed.

Lemma fallCheck_indep m si1 p :
  (fallCheck m si1 p).2 = si1 ->
  forall si2, fallCheck m si2 p = ((fallCheck m si1 p).1, si2).
Proof.
  unfold fallCheck. destruct (Qgtb _ _); [|reflexivity].
  destruct (getGroundY _ _ _); [reflexivity|apply respawnAtSpawn_indep].
Qed.

(** A player below the demo map is respawned at the spawn point the red
    counter selects: with the counter at 0 and at 1 the same player, input
    state, map and [dt] give two different positions. *)
Lemma step_depends_on_spawn_counter :
  ~ stepDeterminedByInputs demoGeom fixedTimestep playerBelowMap None.
Proof.
  intros H. specialize (H (mkIdx 0 0) (mkIdx 1 0)).
  vm_compute in H. discriminate H.
Qed.

(** ** The block grid and its entries *)

Lemma gridCells_spec m row col :
  In (row, col) (gridCells m) <->
  (row < Z.to_nat (mapRows m))%nat /\ (col < Z.to_nat (mapCols m))%nat.
Proof.
  unfold gridCells. rewrite in_flat_map. split.
  - intros (r & Hr & Hc). apply in_map_iff in Hc. destruct Hc as (c & E & Hc).
    inversion E; subst. apply in_seq in Hr, Hc. lia.
  - intros [Hr Hc]. exists row. split; [apply in_seq; lia|].
    apply in_map_iff. exists col. split; [reflexivity|apply in_seq; lia].
Qed.

Lemma blockEntries_spec m row col b :
  (row, col, b) ∈ blockEntries m <->
  (row < Z.to_nat (mapRows m))%nat /\ (col < Z.to_nat (mapCols m))%nat /\
  blockAt m row col = Some b.
Proof.
  unfold blockEntries. rewrite list_elem_of_omap. split.
  - intros ([r c] & Hin & Hf). cbn [fst snd] in Hf.
    destruct (blockAt m r c) eqn:E; [|discriminate].
    inversion Hf; subst. apply list_elem_of_In, gridCells_spec in Hin.
    intuition.
  - intros (Hr & Hc & Hb). exists (row, col). split.
    + apply list_elem_of_In, gridCells_spec. auto.
    + cbn [fst snd]. rewrite Hb. reflexivity.
Qed.

Lemma blockList_spec m b :
  b ∈ blockList m <->
  exists row col, (row < Z.to_nat (mapRows m))%nat /\
                  (col < Z.to_nat (mapCols m))%nat /\ blockAt m row col = Some b.
Proof.
  unfold blockList. rewrite list_elem_of_In, in_map_iff. split.
  - intros ([[r c] b'] & E & Hin). cbn in E. subst b'.
    apply list_elem_of_In, blockEntries_spec in Hin. eauto.
  - intros (r & c & H). exists (r, c, b). split; [reflexivity|].
    apply list_elem_of_In, blockEntries_spec. exact H.
Qed.

(** ** Delta compression *)

Lemma setAdd_spec {K : Type} `{EqDecision K} (k k' : K) (l : list K) :
  k ∈ setAdd k' l <-> k = k' \/ k ∈ l.
Proof.
  unfold setAdd. destruct (bool_decide (k' ∈ l)) eqn:E.
  - apply bool_decide_eq_true in E. split; [auto|]. intros [->|H]; assumption.
  - rewrite elem_of_app, list_elem_of_singleton. tauto.
Qed.

Lemma setBlockColor_geom row col color g : geom (setBlockColor row col color g) = geom g.
Proof. apply (setBlockColor_frame row col color g). Qed.

Lemma setBlockColor_changed row col color g k :
  k ∈ changedBlocks (setBlockColor row col color g) <->
  k ∈ changedBlocks g \/
  (k = (row, col) /\ marks g (OpSetBlockColor row col color) row col).
Proof.
  unfold setBlockColor, marks, hasBlock.
  destruct (_ || _) eqn:Erange.
  { split; [auto|]. intros [H|(_ & _ & _ & (Hr & Hc & _) & _)]; [exact H|].
    exfalso. apply orb_true_iff in Erange. destruct Erange as [E|E].
    - apply orb_true_iff in E. destruct E as [E|E].
      + apply orb_true_iff in E. destruct E as [E|E]; lia.
      + lia.
    - lia. }
  apply orb_false_iff in Erange. destruct Erange as [E1 E4].
  apply orb_false_iff in E1. destruct E1 as [E1 E3].
  apply orb_false_iff in E1. destruct E1 as [E1 E2].
  assert (Hrange : (0 <= row < mapRows (geom g))%Z /\ (0 <= col < mapCols (geom g))%Z)
    by lia.
  destruct (blockAt (geom g) (Z.to_nat row) (Z.to_nat col)) eqn:Eb.
  2:{ split; [auto|]. intros [H|(_ & _ & _ & (_ & _ & [b Hb]) & _)]; [exact H|discriminate]. }
  destruct (bool_decide _) eqn:Ed.
  - apply bool_decide_eq_true in Ed. cbn [changedBlocks setChangedBlocks].
    rewrite setAdd_spec. split.
    + intros [->|H]; [right|left; exact H].
      repeat split; try lia; eauto.
    + intros [H|[-> _]]; auto.
  - apply bool_decide_eq_false in Ed.
    destruct (isAtSpawn (geom g) row col) eqn:Es.
    + cbn [changedBlocks setChangedBlocks]. rewrite setAdd_spec. split.
      * intros [->|H]; [right|left; exact H].
        repeat split; try lia; eauto.
      * intros [H|[-> _]]; auto.
    + split; [auto|]. intros [H|(_ & _ & _ & _ & [Hc|Hc])]; [exact H| |discriminate].
      exfalso. apply Ed. intros E. apply Hc. exact E.
Qed.

Lemma resetFold_geom es g : geom (fold_left resetBlock es g) = geom g.
Proof.
  revert g. induction es as [|e es IH]; intros g; [reflexivity|].
  cbn [fold_left]. rewrite IH. reflexivity.
Qed.

Lemma resetFold_changed es g k :
  k ∈ changedBlocks (fold_left resetBlock es g) <->
  k ∈ changedBlocks g \/ exists e, e ∈ es /\ k = (Z.of_nat e.1.1, Z.of_nat e.1.2).
Proof.
  revert g. induction es as [|e es IH]; intros g; cbn [fold_left].
  - split; [auto|]. intros [H|(e & He & _)]; [exact H|]. inversion He.
  - rewrite IH.
    replace (changedBlocks (resetBlock g e))
      with (setAdd (Z.of_nat e.1.1, Z.of_nat e.1.2) (changedBlocks g))
      by reflexivity.
    rewrite setAdd_spec. split.
    + intros [[->|H]|(e' & He' & ->)].
      * right. exists e. split; [left|reflexivity].
      * left. exact H.
      * right. exists e'. split; [right; exact He'|reflexivity].
    + intros [H|(e' & He' & ->)]; [auto|].
      apply elem_of_cons in He'. destruct He' as [->|He'].
      * left. left. reflexivity.
      * right. exists e'. auto.
Qed.

Lemma entries_hasBlock m row col :
  (exists e, e ∈ blockEntries m /\ (row, col) = (Z.of_nat e.1.1, Z.of_nat e.1.2)) <->
  hasBlock m row col.
Proof.
  unfold hasBlock. split.
  - intros ([[r c] b] & He & E). cbn [fst snd] in E. inversion E; subst.
    apply blockEntries_spec in He. destruct He as (Hr & Hc & Hb).
    rewrite !Nat2Z.id. repeat split; try lia. eauto.
  - intros (Hr & Hc & [b Hb]). exists (Z.to_nat row, Z.to_nat col, b). split.
    + apply blockEntries_spec. repeat split; try lia. exact Hb.
    + cbn [fst snd]. rewrite !Z2Nat.id by lia. reflexivity.
Qed.

Lemma runOp_geom g op : geom (runOp g op) = geom g.
Proof.
  destruct op; cbn [runOp]; [apply setBlockColor_geom|apply resetFold_geom].
Qed.

Lemma runOp_changed g op (k : Z * Z) :
  k ∈ changedBlocks (runOp g op) <-> k ∈ changedBlocks g \/ marks g op k.1 k.2.
Proof.
  destruct op as [row col color|]; cbn [runOp].
  - rewrite setBlockColor_changed. split.
    + intros [H|[-> H]]; [left; exact H|right; exact H].
    + intros [H|H]; [left; exact H|right].
      destruct k as [r c]. cbn [fst snd] in H.
      destruct H as (-> & -> & H). split; [reflexivity|].
      cbn [marks]. tauto.
  - unfold resetAllBlocks. rewrite resetFold_changed. cbn [marks].
    destruct k as [r c]. cbn [fst snd]. rewrite <- entries_hasBlock. tauto.
Qed.

Lemma runOps_geom ops g : geom (runOps ops g) = geom g.
Proof.
  unfold runOps. revert g. induction ops as [|op ops IH]; intros g; [reflexivity|].
  cbn [fold_left]. rewrite IH. apply runOp_geom.
Qed.

Lemma runOps_changed ops g (k : Z * Z) :
  k ∈ changedBlocks (runOps ops g) <-> k ∈ changedBlocks g \/ markedBy g ops k.1 k.2.
Proof.
  unfold markedBy. revert g. induction ops as [|op ops IH]; intros g.
  - cbn. split; [auto|]. intros [H|(o1 & o & o2 & E & _)]; [exact H|].
    destruct o1; discriminate.
  - change (runOps (op :: ops) g) with (runOps ops (runOp g op)).
    rewrite IH, runOp_changed. split.
    + intros [[H|H]|(o1 & o & o2 & -> & H)].
      * left. exact H.
      * right. exists [], op, ops. split; [reflexivity|exact H].
      * right. exists (op :: o1), o, o2. split; [reflexivity|exact H].
    + intros [H|(o1 & o & o2 & E & H)]; [auto|].
      destruct o1 as [|o' o1]; cbn in E; inversion E; subst.
      * left. right. exact H.
      * right. exists o1, o, o2. split; [reflexivity|exact H].
Qed.

Lemma writeColor_other r c color cs r' c' :
  (r, c) <> (r', c') ->
  colorIn (writeColor r c color cs) r' c' = colorIn cs r' c'.
Proof.
  intros Hne. unfold writeColor, colorIn.
  destruct (cs !! r) as [line|] eqn:E; [|reflexivity].
  destruct (decide (r = r')) as [->|Hr].
  - rewrite list_lookup_insert_eq by (eapply lookup_lt_Some; eauto).
    rewrite E. apply list_lookup_insert_ne. congruence.
  - rewrite list_lookup_insert_ne by exact Hr. reflexivity.
Qed.

Lemma setBlockColor_color row col color g r c :
  colorAt (setBlockColor row col color g) r c <> colorAt g r c ->
  marks g (OpSetBlockColor row col color) (Z.of_nat r) (Z.of_nat c).
Proof.
  unfold setBlockColor.
  destruct (_ || _) eqn:Erange; [congruence|].
  apply orb_false_iff in Erange. destruct Erange as [E1 E4].
  apply orb_false_iff in E1. destruct E1 as [E1 E3].
  apply orb_false_iff in E1. destruct E1 as [E1 E2].
  destruct (blockAt (geom g) (Z.to_nat row) (Z.to_nat col)) eqn:Eb; [|congruence].
  destruct (bool_decide _) eqn:Ed.
  - apply bool_decide_eq_true in Ed. unfold colorAt.
    cbn [blockColors setChangedBlocks setBlockColors]. intros Hc.
    destruct (decide ((Z.to_nat row, Z.to_nat col) = (r, c))) as [E|E].
    + inversion E; subst. rewrite !Z2Nat.id by lia.
      cbn [marks]. unfold hasBlock.
      repeat split; try lia; eauto.
    + exfalso. apply Hc. apply writeColor_other. exact E.
  - destruct (isAtSpawn _ _ _); intros H; exfalso; apply H; reflexivity.
Qed.

Lemma resetFold_color es g r c :
  colorAt (fold_left resetBlock es g) r c <> colorAt g r c ->
  exists e, e ∈ es /\ (r, c) = (e.1.1, e.1.2).
Proof.
  revert g. induction es as [|e es IH]; intros g; cbn [fold_left]; [congruence|].
  intros Hc.
  destruct (decide (colorAt (fold_left resetBlock es (resetBlock g e)) r c
                    = colorAt (resetBlock g e) r c)) as [E|E].
  - rewrite E in Hc. exists e. split; [left|].
    destruct (decide ((e.1.1, e.1.2) = (r, c))) as [E'|E']; [congruence|].
    exfalso. apply Hc. unfold colorAt, resetBlock.
    cbn [blockColors setChangedBlocks setBlockColors].
    apply writeColor_other. exact E'.
  - destruct (IH _ E) as (e' & He' & Heq). exists e'. split; [right; exact He'|exact Heq].
Qed.

Lemma runOp_color g op r c :
  colorAt (runOp g op) r c <> colorAt g r c ->
  marks g op (Z.of_nat r) (Z.of_nat c).
Proof.
  destruct op as [row col color|]; cbn [runOp].
  - apply setBlockColor_color.
  - intros H. apply resetFold_color in H. destruct H as (e & He & E).
    cbn [marks]. apply entries_hasBlock. exists e. split; [exact He|].
    inversion E; subst. reflexivity.
Qed.

Lemma runOps_color ops g r c :
  colorAt (runOps ops g) r c <> colorAt g r c ->
  markedBy g ops (Z.of_nat r) (Z.of_nat c).
Proof.
  unfold markedBy. revert g. induction ops as [|op ops IH]; intros g.
  - cbn. congruence.
  - change (runOps (op :: ops) g) with (runOps ops (runOp g op)). intros Hc.
    destruct (decide (colorAt (runOp g op) r c = colorAt g r c)) as [E|E].
    + rewrite <- E in Hc. destruct (IH _ Hc) as (o1 & o & o2 & -> & H).
      exists (op :: o1), o, o2. split; [reflexivity|exact H].
    + exists [], op, ops. split; [reflexivity|]. apply runOp_color. exact E.
Qed.

Lemma marks_hasBlock g op row col : marks g op row col -> hasBlock (geom g) row col.
Proof. destruct op; cbn [marks]; tauto. Qed.

Lemma pushFold_listed g keys acc row col :
  existsb (fun bc => Z.eqb (bc_row bc) row && Z.eqb (bc_col bc) col)
          (fold_left (pushChange g) keys acc) = true <->
  existsb (fun bc => Z.eqb (bc_row bc) row && Z.eqb (bc_col bc) col) acc = true \/
  ((row, col) ∈ keys /\
   (0 <= row < mapRows (geom g))%Z /\ (0 <= col < mapCols (geom g))%Z).
Proof.
  revert acc. induction keys as [|[kr kc] keys IH]; intros acc; cbn [fold_left].
  - split; [auto|]. intros [H|[H _]]; [exact H|inversion H].
  - rewrite IH. unfold pushChange. cbn [fst snd].
    destruct (_ && _) eqn:Er.
    + rewrite existsb_app. cbn [existsb bc_row bc_col]. rewrite orb_false_r.
      rewrite orb_true_iff, andb_true_iff, !Z.eqb_eq.
      apply andb_true_iff in Er. destruct Er as [Er E4].
      apply andb_true_iff in Er. destruct Er as [Er E3].
      apply andb_true_iff in Er. destruct Er as [E1 E2].
      split.
      * intros [[H|[-> ->]]|(H & Hr)].
        -- left. exact H.
        -- right. split; [left|lia].
        -- right. split; [right; exact H|exact Hr].
      * intros [H|(H & Hr)]; [auto|].
        apply elem_of_cons in H. destruct H as [E|H].
        -- inversion E; subst. left. right. auto.
        -- right. auto.
    + split.
      * intros [H|(H & Hr)]; [auto|]. right. split; [right; exact H|exact Hr].
      * intros [H|(H & Hr)]; [auto|].
        apply elem_of_cons in H. destruct H as [E|H].
        -- injection E as E1 E2. rewrite <- E1, <- E2 in Er. exfalso.
           assert (Z.geb row 0 && Z.ltb row (mapRows (geom g)) &&
                   Z.geb col 0 && Z.ltb col (mapCols (geom g)) = true).
           { rewrite !andb_true_iff. repeat split; lia. }
           congruence.
        -- right. auto.
Qed.

Lemma pushFold_colors g keys acc :
  Forall (fun bc => bc_color bc
                    = colorAt g (Z.to_nat (bc_row bc)) (Z.to_nat (bc_col bc))) acc ->
  Forall (fun bc => bc_color bc
                    = colorAt g (Z.to_nat (bc_row bc)) (Z.to_nat (bc_col bc)))
         (fold_left (pushChange g) keys acc).
Proof.
  revert acc. induction keys as [|k keys IH]; intros acc Hacc; [exact Hacc|].
  cbn [fold_left]. apply IH. unfold pushChange.
  destruct (_ && _); [|exact Hacc].
  apply Forall_app. split; [exact Hacc|]. constructor; [reflexivity|constructor].
Qed.

Lemma getSnapshot_listed t g row col :
  listed (getSnapshot t g).1 row col = true <->
  (row, col) ∈ changedBlocks g /\
  (0 <= row < mapRows (geom g))%Z /\ (0 <= col < mapCols (geom g))%Z.
Proof.
  unfold listed, getSnapshot. cbn [fst snap_blockChanges].
  rewrite pushFold_listed. cbn [existsb]. split.
  - intros [H|H]; [discriminate|exact H].
  - auto.
Qed.

(** After [resetAllBlocks] on the freshly loaded demo map the jump-pad
    cell (20, 30) is listed, though it was white and stays white and is not
    spawn-adjacent; and with no call at all the block beneath the red spawn
    point, (20, 10), is not listed. *)
Lemma delta_not_exact :
  ~ deltaExact demoServer [OpResetAllBlocks] /\ ~ deltaExact demoServer [].
Proof.
  split; intros [H _].
  - specialize (H 20%nat 30%nat). destruct H as [H _].
    assert (Hl : listed (getSnapshot 0 (runOps [OpResetAllBlocks] demoServer)).1
                        (Z.of_nat 20) (Z.of_nat 30) = true)
      by (vm_compute; reflexivity).
    destruct (H Hl) as [Hc|Hs].
    + apply Hc. vm_compute. reflexivity.
    + vm_compute in Hs. discriminate Hs.
  - specialize (H 20%nat 10%nat). destruct H as [_ H].
    assert (Hs : isAtSpawn (geom demoServer) (Z.of_nat 20) (Z.of_nat 10) = true)
      by (vm_compute; reflexivity).
    specialize (H (or_intror Hs)). vm_compute in H. discriminate H.
Qed.

(** C2 (amended).  Starting with an empty dirty set, after any sequence of
    [setBlockColor] and [resetAllBlocks] calls, the next snapshot lists a
    cell exactly when one of the calls marked it: a [setBlockColor] on that
    block with a colour other than its colour at that moment, a
    [setBlockColor] on it while it is a spawn cell or the cell beneath one,
    or a [resetAllBlocks] (for every block).  Every entry carries the
    current colour; every cell whose colour differs from the one it had at
    the start is listed; the dirty set is empty afterwards. *)
Theorem delta_compression (g0 : GameServer) (ops : list ColorOp) (t : Z) :
  changedBlocks g0 = [] ->
  let g1 := runOps ops g0 in
  let r := getSnapshot t g1 in
  (forall row col : Z, listed r.1 row col = true <-> markedBy g0 ops row col) /\
  Forall (fun bc => bc_color bc
                    = colorAt g1 (Z.to_nat (bc_row bc)) (Z.to_nat (bc_col bc)))
         (snap_blockChanges r.1) /\
  (forall row col : nat,
     colorAt g1 row col <> colorAt g0 row col ->
     listed r.1 (Z.of_nat row) (Z.of_nat col) = true) /\
  changedBlocks r.2 = [].
Proof.
  intros Hempty. cbv zeta.
  assert (Hlisted : forall row col : Z,
             listed (getSnapshot t (runOps ops g0)).1 row col = true
             <-> markedBy g0 ops row col).
  { intros row col. rewrite getSnapshot_listed.
    rewrite (runOps_changed ops g0 (row, col)). rewrite Hempty. cbn [fst snd].
    rewrite runOps_geom. split.
    - intros [[H|H] _]; [inversion H|exact H].
    - intros H. split; [right; exact H|].
      destruct H as (o1 & o & o2 & _ & H). apply marks_hasBlock in H.
      rewrite runOps_geom in H. destruct H as (Hr & Hc & _). split; assumption. }
  repeat apply conj.
  - exact Hlisted.
  - unfold getSnapshot. cbn [fst snap_blockChanges].
    apply pushFold_colors. constructor.
  - intros row col Hc. apply Hlisted. apply runOps_color. exact Hc.
  - reflexivity.
Qed.

Lemma delta_compression_witness :
  changedBlocks demoServer = [] /\
  let ops := [OpSetBlockColor 20 30 (painted red); OpSetBlockColor 20 10 white] in
  let r := getSnapshot 0 (runOps ops demoServer) in
  listed r.1 20 30 = true /\ listed r.1 20 10 = true /\ changedBlocks r.2 = [].
Proof.
  split; [reflexivity|]. cbv zeta.
  destruct (delta_compression demoServer
              [OpSetBlockColor 20 30 (painted red); OpSetBlockColor 20 10 white] 0
              eq_refl) as (H1 & _ & H3 & H4).
  cbv zeta in H1, H3, H4. repeat apply conj.
  - apply (H3 20%nat 30%nat). vm_compute. discriminate.
  - apply H1. exists [OpSetBlockColor 20 30 (painted red)], (OpSetBlockColor 20 10 white), [].
    split; [reflexivity|]. cbn [marks]. unfold hasBlock.
    repeat apply conj; try reflexivity; try (vm_compute; discriminate).
    + vm_compute. eexists. reflexivity.
    + right. vm_compute. reflexivity.
  - exact H4.
Defined.

(** ** The queue countdown *)

Lemma omGet_omSet_eq {K V : Type} `{EqDecision K} (k : K) (v : V) l :
  omGet k (omSet k v l) = Some v.
Proof.
  induction l as [|[k' v'] l IH]; cbn.
  - destruct (decide (k = k)); [reflexivity|contradiction].
  - destruct (decide (k = k')) as [->|Hne]; cbn.
    + destruct (decide (k' = k')); [reflexivity|contradiction].
    + destruct (decide (k = k')); [contradiction|exact IH].
Qed.

Lemma omGet_omSet_ne {K V : Type} `{EqDecision K} (k k' : K) (v : V) l :
  k <> k' -> omGet k' (omSet k v l) = omGet k' l.
Proof.
  intros Hne. induction l as [|[k1 v1] l IH]; cbn.
  - destruct (decide (k' = k)); [congruence|reflexivity].
  - destruct (decide (k = k1)) as [->|Hne1]; cbn.
    + destruct (decide (k' = k1)); [congruence|reflexivity].
    + destruct (decide (k' = k1)); [reflexivity|exact IH].
Qed.



Lemma assignTeams_keys ps k g :
  map fst (assignTeams k ps g).1 = map fst ps.
Proof.
  revert k g. induction ps as [|[pid info] ps IH]; intros k g; cbn [assignTeams].
  - reflexivity.
  - cbn [fst snd map]. rewrite IH. reflexivity.
Qed.



Lemma writeColor_same r c color cs :
  is_Some (colorIn cs r c) -> colorIn (writeColor r c color cs) r c = Some color.
Proof.
  unfold writeColor, colorIn. destruct (cs !! r) as [line|] eqn:E.
  - intros [x Hx]. rewrite list_lookup_insert_eq by (eapply lookup_lt_Some; eauto).
    apply list_lookup_insert_eq. eapply lookup_lt_Some; eauto.
  - intros [x Hx]. discriminate.
Qed.

Lemma resetBlock_white g e row col :
  (colorAt g row col = Some white \/
   ((e.1.1, e.1.2) = (row, col) /\ is_Some (colorAt g row col))) ->
  colorAt (resetBlock g e) row col = Some white.
Proof.
  unfold resetBlock, colorAt. cbn [blockColors setChangedBlocks setBlockColors].
  intros H. destruct (decide ((e.1.1, e.1.2) = (row, col))) as [E|E].
  - inversion E; subst. apply writeColor_same.
    destruct H as [H|[_ H]]; [rewrite H; eauto|exact H].
  - rewrite writeColor_other by exact E. destruct H as [H|[H _]]; [exact H|congruence].
Qed.

Lemma resetFold_white es g row col :
  (colorAt g row col = Some white \/
   ((exists e, e ∈ es /\ (e.1.1, e.1.2) = (row, col)) /\ is_Some (colorAt g row col))) ->
  colorAt (fold_left resetBlock es g) row col = Some white.
Proof.
  revert g. induction es as [|e es IH]; intros g H; cbn [fold_left].
  - destruct H as [H|[(e & He & _) _]]; [exact H|inversion He].
  - apply IH. destruct H as [H|[(e' & He' & E) Hs]].
    + left. apply resetBlock_white. left. exact H.
    + apply elem_of_cons in He'. destruct He' as [->|He'].
      * left. apply resetBlock_white. right. split; assumption.
      * destruct (decide (colorAt (resetBlock g e) row col = Some white)) as [W|W];
          [left; exact W|].
        right. split; [exists e'; split; assumption|].
        destruct (decide ((e.1.1, e.1.2) = (row, col))) as [E'|E'].
        -- exfalso. apply W. apply resetBlock_white. right. split; assumption.
        -- unfold resetBlock, colorAt.
           cbn [blockColors setChangedBlocks setBlockColors].
           rewrite writeColor_other by exact E'. exact Hs.
Qed.

Lemma resetAllBlocks_white g row col b :
  colorsAllocated g -> (row, col, b) ∈ blockEntries (geom g) ->
  colorAt (resetAllBlocks g) row col = Some white.
Proof.
  intros Halloc He. unfold resetAllBlocks. apply resetFold_white. right. split.
  - exists (row, col, b). split; [exact He|reflexivity].
  - eapply Halloc; eauto.
Qed.

Lemma resetAllBlocks_frame g :
  geom (resetAllBlocks g) = geom g /\ mapData (resetAllBlocks g) = mapData g /\
  bombs (resetAllBlocks g) = bombs g.
Proof.
  unfold resetAllBlocks. generalize (blockEntries (geom g)). intros es.
  revert g. induction es as [|e es IH]; intros g; cbn [fold_left]; [auto|].
  destruct (IH (resetBlock g e)) as (I1 & I2 & I3). rewrite I1, I2, I3. auto.
Qed.

Lemma addBomb_fresh m spawns bs :
  Forall freshBomb bs -> Forall freshBomb (fold_left (addBomb m) spawns bs).
Proof.
  revert bs. induction spawns as [|rc spawns IH]; intros bs H; [exact H|].
  cbn [fold_left]. apply IH. unfold addBomb. destruct (inGrid _ _ _ _); [|exact H].
  apply Forall_app. split; [exact H|].
  constructor; [split; reflexivity|constructor].
Qed.

Lemma initializeBombs_fresh g :
  bombsConsistent g -> Forall freshBomb (bombs (initializeBombs g)).
Proof.
  unfold bombsConsistent, initializeBombs. destruct (mapData g) as [md|].
  - destruct (md_bombSpawns md) as [spawns|].
    + intros _. cbn [bombs setBombs]. apply addBomb_fresh. constructor.
    + intros ->. constructor.
  - intros ->. constructor.
Qed.


Lemma initializeBombs_frame g :
  geom (initializeBombs g) = geom g /\ blockColors (initializeBombs g) = blockColors g /\
  mapData (initializeBombs g) = mapData g.
Proof.
  unfold initializeBombs. destruct (mapData g) as [md|] eqn:E; [|auto].
  destruct (md_bombSpawns md); cbn; auto.
Qed.

Lemma newGameServer_serverOK md : serverOK (newGameServer md).
Proof.
  unfold newGameServer.
  set (g0 := mkGS _ _ _ _ _ _ _ _ _ _ _ _).
  destruct (initializeBombs_frame g0) as (Hg & Hc & Hm). split.
  - intros row col b He. rewrite Hg in He. apply blockEntries_spec in He.
    destruct He as (Hr & Hcol & _).
    unfold colorAt, colorIn. rewrite Hc. cbn [blockColors g0 geom] in *.
    rewrite lookup_replicate_2 by exact Hr.
    rewrite lookup_replicate_2 by exact Hcol. eauto.
  - unfold bombsConsistent. rewrite Hm. cbn [mapData g0].
    unfold initializeBombs. cbn [mapData g0].
    destruct (md_bombSpawns md); [exact I|reflexivity].
Qed.

Lemma addBomb_cells m spawns bs :
  let cells := List.filter (fun rc : Z * Z => inGrid (mapRows m) (mapCols m) rc.1 rc.2)
                           spawns in
  let bs' := fold_left (addBomb m) spawns bs in
  length bs' = (length bs + length cells)%nat /\
  (forall i, (i < length bs)%nat -> bs' !! i = bs !! i) /\
  forall (i : nat) (row col : Z),
    cells !! i = Some (row, col) ->
    bs' !! (length bs + i)%nat
    = Some (mkBomb (length bs + i) (bombPlace m row col).1 (bombPlace m row col).2
                   20 20 row col false 0 10).
Proof.
  cbv zeta. revert bs.
  induction spawns as [|rc spawns IH]; intros bs; cbn [fold_left List.filter].
  - cbn [length]. repeat apply conj; [lia|reflexivity|].
    intros i row col H. destruct i; discriminate.
  - destruct (IH (addBomb m bs rc)) as (I1 & I2 & I3).
    unfold addBomb in I1, I2, I3 |- *. cbv zeta in I1, I2, I3 |- *.
    destruct (inGrid (mapRows m) (mapCols m) rc.1 rc.2) eqn:Eg.
    + rewrite length_app in I1, I2, I3. cbn [length] in I1, I2, I3 |- *.
      repeat apply conj.
      * lia.
      * intros i Hi. rewrite I2 by lia. apply lookup_app_l. exact Hi.
      * intros [|i] row col Hc; cbn in Hc.
        -- inversion Hc; subst. rewrite Nat.add_0_r, I2 by lia.
           rewrite lookup_app_r by lia. rewrite Nat.sub_diag.
           cbn [fst snd]. unfold bombPlace.
           destruct (blockAt m (Z.to_nat row) (Z.to_nat col)); reflexivity.
        -- specialize (I3 i row col Hc).
           replace (length bs + S i)%nat with (length bs + 1 + i)%nat by lia.
           exact I3.
    + exact (conj I1 (conj I2 I3)).
Qed.

Lemma initializeBombs_reset g :
  bombsConsistent g -> bombsReset g (bombs (initializeBombs g)).
Proof.
  unfold bombsConsistent, bombsReset, spawnCells, initializeBombs.
  destruct (mapData g) as [md|].
  - destruct (md_bombSpawns md) as [spawns|].
    + intros _. cbn [bombs setBombs].
      destruct (addBomb_cells (geom g) spawns []) as (H1 & _ & H3).
      cbv zeta in H1, H3. cbn [length Nat.add] in H1, H3.
      split; [exact H1|exact H3].
    + intros ->. split; [reflexivity|]. intros i row col H. destruct i; discriminate.
  - intros ->. split; [reflexivity|]. intros i row col H. destruct i; discriminate.
Qed.

Lemma bombsReset_ext g g' bs :
  geom g' = geom g -> mapData g' = mapData g -> bombsReset g' bs -> bombsReset g bs.
Proof.
  unfold bombsReset, spawnCells. intros -> ->. exact (fun H => H).
Qed.

Lemma startGame_server now serverTime mg :
  gameServer (startGame now serverTime mg).2
  = setChangedBlocks []
      (assignTeams 0 (queued mg)
         (initializeBombs (setGameTime dzero (resetAllBlocks (gameServer mg))))).2.
Proof. reflexivity. Qed.

Lemma startGame_fields now serverTime mg :
  let r := startGame now serverTime mg in
  gameState r.2 = PLAYING /\ gameCountdown r.2 = 120 /\ lastGameUpdate r.2 = now /\
  roundNumber r.2 = S (roundNumber mg) /\
  queueCountdown r.2 = queueCountdown mg /\ lastQueueUpdate r.2 = lastQueueUpdate mg /\
  queued r.2
  = (assignTeams 0 (queued mg)
       (initializeBombs (setGameTime dzero (resetAllBlocks (gameServer mg))))).1 /\
  r.1 = (getSnapshot serverTime
           (assignTeams 0 (queued mg)
              (initializeBombs (setGameTime dzero (resetAllBlocks (gameServer mg))))).2).1.
Proof. cbv zeta. repeat apply conj; reflexivity. Qed.




(** ** Ground lookup *)

Lemma Qltb_proper a a' b b' : a == a' -> b == b' -> Qltb a b = Qltb a' b'.
Proof. intros Ha Hb. unfold Qltb. rewrite Ha, Hb. reflexivity. Qed.

Lemma Qleb_proper a a' b b' : a == a' -> b == b' -> Qleb a b = Qleb a' b'.
Proof. intros Ha Hb. unfold Qleb. rewrite Ha, Hb. reflexivity. Qed.

Lemma groundCandidate_proper m x y y' b :
  y == y' -> groundCandidate m x y b = groundCandidate m x y' b.
Proof.
  intros H. unfold groundCandidate, Qgeb, Qgtb.
  rewrite (Qleb_proper (-3) (-3) (b_y b - y) (b_y b - y')) by (rewrite ?H; reflexivity).
  rewrite (Qleb_proper (b_y b - y) (b_y b - y') 50 50) by (rewrite ?H; reflexivity).
  reflexivity.
Qed.

Lemma getGroundY_proper m x y y' : y == y' -> getGroundY m x y = getGroundY m x y'.
Proof.
  intros H. unfold getGroundY. generalize (@None Q).
  induction (blockList m) as [|b l IH]; intros acc; [reflexivity|].
  cbn [fold_left]. unfold groundStep at 2 4.
  rewrite (groundCandidate_proper m x y y' b H). apply IH.
Qed.

Lemma getJumpPadAt_proper m x g g' : g == g' -> getJumpPadAt m x g = getJumpPadAt m x g'.
Proof.
  intros H. unfold getJumpPadAt.
  induction (blockList m) as [|b l IH]; [reflexivity|].
  cbn [List.find]. unfold jumpPadMatches at 1 3.
  rewrite (Qltb_proper (Qabs (g - b_y b)) (Qabs (g' - b_y b)) 2 2)
    by (rewrite ?H; reflexivity).
  rewrite IH. reflexivity.
Qed.

Lemma groundFold_spec m x y l acc g :
  fold_left (groundStep m x y) l acc = Some g ->
  (acc = Some g \/ exists b, b ∈ l /\ groundCandidate m x y b = true /\ b_y b = g) /\
  (forall b, b ∈ l -> groundCandidate m x y b = true -> g <= b_y b) /\
  (forall a, acc = Some a -> g <= a).
Proof.
  revert acc. induction l as [|b l IH]; intros acc H; cbn [fold_left] in H.
  - repeat apply conj.
    + left. exact H.
    + intros b Hb. inversion Hb.
    + intros a Ha. rewrite Ha in H. inversion H; subst. lra.
  - destruct (IH _ H) as (I1 & I2 & I3). unfold groundStep in I1, I3.
    destruct (groundCandidate m x y b) eqn:Ec.
    + assert (Hb : g <= b_y b).
      { destruct acc as [a|]; [|apply I3; reflexivity].
        destruct (Qltb (b_y b) a) eqn:El.
        - apply I3. reflexivity.
        - apply Qltb_false in El. specialize (I3 a eq_refl). lra. }
      repeat apply conj.
      * destruct I1 as [I1|(b' & Hb' & Hc' & Hy')].
        -- destruct acc as [a|].
           ++ destruct (Qltb (b_y b) a).
              ** inversion I1; subst. right. exists b. repeat split; [left|exact Ec].
              ** left. exact I1.
           ++ inversion I1; subst. right. exists b. repeat split; [left|exact Ec].
        -- right. exists b'. repeat split; [right; exact Hb'|exact Hc'|exact Hy'].
      * intros b' Hb' Hc'. apply elem_of_cons in Hb'. destruct Hb' as [->|Hb'].
        -- exact Hb.
        -- apply I2; assumption.
      * intros a Ha. subst acc. destruct (Qltb (b_y b) a) eqn:El.
        -- apply Qltb_spec in El. specialize (I3 _ eq_refl). lra.
        -- apply I3. reflexivity.
    + repeat apply conj.
      * destruct I1 as [I1|(b' & Hb' & Hc' & Hy')]; [left; exact I1|].
        right. exists b'. repeat split; [right; exact Hb'|exact Hc'|exact Hy'].
      * intros b' Hb' Hc'. apply elem_of_cons in Hb'. destruct Hb' as [->|Hb'].
        -- congruence.
        -- apply I2; assumption.
      * exact I3.
Qed.

Lemma groundFold_some m x y l acc :
  (is_Some acc \/ exists b, b ∈ l /\ groundCandidate m x y b = true) ->
  is_Some (fold_left (groundStep m x y) l acc).
Proof.
  revert acc. induction l as [|b l IH]; intros acc H; cbn [fold_left].
  - destruct H as [H|(b & Hb & _)]; [exact H|inversion Hb].
  - apply IH. destruct H as [H|(b' & Hb' & Hc')].
    + left. unfold groundStep. destruct (groundCandidate m x y b); [|exact H].
      destruct acc as [a|]; [destruct (Qltb _ _)|]; eauto.
    + apply elem_of_cons in Hb'. destruct Hb' as [->|Hb'].
      * left. unfold groundStep. rewrite Hc'.
        destruct acc as [a|]; [destruct (Qltb _ _)|]; eauto.
      * right. exists b'. auto.
Qed.

Lemma getGroundY_spec m x y g :
  getGroundY m x y = Some g ->
  (exists b, b ∈ blockList m /\ groundCandidate m x y b = true /\ b_y b = g) /\
  (forall b, b ∈ blockList m -> groundCandidate m x y b = true -> g <= b_y b).
Proof.
  intros H. destruct (groundFold_spec m x y _ _ _ H) as ([H1|H1] & H2 & _).
  - discriminate.
  - split; assumption.
Qed.

Lemma getGroundY_some m x y b :
  b ∈ blockList m -> groundCandidate m x y b = true -> is_Some (getGroundY m x y).
Proof.
  intros Hb Hc. apply groundFold_some. right. exists b. auto.
Qed.

(** The ground found just below the player is still the ground found after
    the player has sunk by at most 3 px. *)
Lemma getGroundY_sunk m x y g d :
  getGroundY m x y = Some g -> g == y -> 0 <= d -> d <= 3 ->
  exists g', getGroundY m x (y + d) = Some g' /\ g' == g.
Proof.
  intros Hg Hgy Hd0 Hd3.
  destruct (getGroundY_spec m x y g Hg) as ((b & Hb & Hc & Hy) & Hmin).
  assert (Hc' : groundCandidate m x (y + d) b = true).
  { unfold groundCandidate in *. qbool.
    rewrite !andb_true_iff. repeat split.
    - apply Qltb_spec. assumption.
    - apply Qgtb_spec. assumption.
    - apply Qgeb_spec. rewrite Hy. lra.
    - apply Qleb_spec. rewrite Hy. lra. }
  destruct (getGroundY_some m x (y + d) b Hb Hc') as [g' Hg'].
  exists g'. split; [exact Hg'|].
  destruct (getGroundY_spec m x (y + d) g' Hg') as ((b' & Hb' & Hcb' & Hy') & Hmin').
  specialize (Hmin' b Hb Hc'). rewrite Hy in Hmin'.
  destruct (Qlt_le_dec g' g) as [Hlt|Hle]; [|lra].
  exfalso.
  assert (Hcy : groundCandidate m x y b' = true).
  { unfold groundCandidate in *. qbool.
    rewrite !andb_true_iff. repeat split.
    - apply Qltb_spec. assumption.
    - apply Qgtb_spec. assumption.
    - apply Qgeb_spec. lra.
    - apply Qleb_spec. rewrite Hy'. lra. }
  specialize (Hmin b' Hb' Hcy). rewrite Hy' in Hmin. lra.
Qed.

(** ** The geometry of a loaded map *)

Lemma writeBlock_cases row col v bs r c :
  blockIn (writeBlock row col v bs) r c = blockIn bs r c \/
  blockIn (writeBlock row col v bs) r c = v.
Proof.
  unfold writeBlock, blockIn.
  destruct (bs !! row) as [line0|] eqn:E; [|left; reflexivity].
  destruct (decide (row = r)) as [->|Hr].
  - rewrite list_lookup_insert_eq by (eapply lookup_lt_Some; eauto).
    rewrite E. destruct (decide (col = c)) as [->|Hc].
    + destruct (line0 !! c) as [cell|] eqn:Ec.
      * right. rewrite list_lookup_insert_eq by (eapply lookup_lt_Some; eauto).
        reflexivity.
      * left. rewrite list_insert_ge by (apply lookup_ge_None; exact Ec).
        rewrite Ec. reflexivity.
    + left. rewrite list_lookup_insert_ne by exact Hc. reflexivity.
  - left. rewrite list_lookup_insert_ne by exact Hr. reflexivity.
Qed.

Lemma empty_grid_read (rows cols r c : nat) :
  blockIn (replicate rows (replicate cols (@None Block))) r c = None.
Proof.
  unfold blockIn.
  destruct (replicate rows _ !! r) as [line|] eqn:E; [|reflexivity].
  apply lookup_replicate in E. destruct E as [-> _].
  destruct (replicate cols _ !! c) as [cell|] eqn:Ec; [|reflexivity].
  apply lookup_replicate in Ec. destruct Ec as [-> _]. reflexivity.
Qed.

(** Every block of a loaded map sits on a row of the grid. *)
Lemma loadGeom_block_row md b :
  b ∈ blockList (loadGeom md) ->
  exists row : Z,
    (0 <= row < mapRows (loadGeom md))%Z /\ (0 < mapCols (loadGeom md))%Z /\
    b_y b = startY (loadGeom md) + inject_Z row * blockHeight (loadGeom md).
Proof.
  intros Hb. apply blockList_spec in Hb. destruct Hb as (r & c & _ & _ & Hb).
  unfold blockAt in Hb. revert Hb.
  unfold loadGeom. cbn [blocks mapRows mapCols startY blockHeight].
  set (cols := if Z.eqb (md_cols md) 0 then 63%Z else md_cols md).
  set (rows := if Z.eqb (md_rows md) 0 then 43%Z else md_rows md).
  set (bw := inject_Z (Qfloor _)).
  set (sx := (GAME_WIDTH - bw * inject_Z cols) / 2).
  set (sy := (GAME_HEIGHT - bw * inject_Z rows) / 2).
  generalize (empty_grid_read (Z.to_nat rows) (Z.to_nat cols)).
  generalize (replicate (Z.to_nat rows) (replicate (Z.to_nat cols) (@None Block))).
  intros bs Hbs.
  assert (Hinv : forall r c b, blockIn bs r c = Some b ->
             exists row : Z, (0 <= row < rows)%Z /\ (0 < cols)%Z /\
                             b_y b = sy + inject_Z row * bw).
  { intros r' c' b' H. rewrite Hbs in H. discriminate. }
  clear Hbs. revert bs Hinv r c b.
  induction (md_blocks md) as [|bd bds IH]; intros bs Hinv r c b; cbn [fold_left].
  - apply Hinv.
  - apply IH. intros r' c' b'.
    destruct (inGrid rows cols bd.1.1 bd.1.2) eqn:Ein; [|apply Hinv].
    destruct (writeBlock_cases (Z.to_nat bd.1.1) (Z.to_nat bd.1.2)
                (Some (mkBlock (sx + inject_Z bd.1.2 * bw) (sy + inject_Z bd.1.1 * bw)
                               bw bw bd.2)) bs r' c') as [E|E]; rewrite E.
    + apply Hinv.
    + intros H. inversion H; subst b'. cbn [b_y].
      unfold inGrid in Ein. apply andb_true_iff in Ein. destruct Ein as [Ein E4].
      apply andb_true_iff in Ein. destruct Ein as [Ein E3].
      apply andb_true_iff in Ein. destruct Ein as [E1 E2].
      exists bd.1.1. repeat split; try lia.
Qed.

Lemma Qfloor_nonneg (q : Q) : 0 <= q -> 0 <= inject_Z (Qfloor q).
Proof.
  intros H. apply Qfloor_resp_le in H. change (Qfloor 0) with 0%Z in H.
  change 0 with (inject_Z 0). rewrite <- Zle_Qle. exact H.
Qed.

(** The top of a block of a loaded map is at most 1060. *)
Lemma loadGeom_block_top md b :
  b ∈ blockList (loadGeom md) -> b_y b <= 1060.
Proof.
  intros Hb. destruct (loadGeom_block_row md b Hb) as (row & Hrow & Hcols & ->).
  clear Hb. unfold loadGeom in *. cbn [mapRows mapCols startY blockHeight] in *.
  set (cols := if Z.eqb (md_cols md) 0 then 63%Z else md_cols md) in *.
  set (rows := if Z.eqb (md_rows md) 0 then 43%Z else md_rows md) in *.
  set (q := Qmin _ _).
  assert (Hr : 0 < inject_Z rows).
  { change 0 with (inject_Z 0). rewrite <- Zlt_Qlt. lia. }
  assert (Hc : 0 < inject_Z cols).
  { change 0 with (inject_Z 0). rewrite <- Zlt_Qlt. lia. }
  assert (Hrow1 : inject_Z row <= inject_Z rows - 1).
  { assert (H1 : inject_Z row + inject_Z 1 <= inject_Z rows).
    { rewrite <- inject_Z_plus, <- Zle_Qle. lia. }
    change (inject_Z 1) with 1 in H1. lra. }
  assert (Hrow0 : 0 <= inject_Z row).
  { change 0 with (inject_Z 0). rewrite <- Zle_Qle. lia. }
  assert (Hq0 : 0 <= q).
  { unfold q. apply Q.min_glb.
    - apply Qle_shift_div_l; [exact Hc|]. unfold GAME_WIDTH. lra.
    - apply Qle_shift_div_l; [exact Hr|]. unfold GAME_HEIGHT. lra. }
  assert (Hbw0 : 0 <= inject_Z (Qfloor q)) by (apply Qfloor_nonneg; exact Hq0).
  assert (Hbw1 : inject_Z (Qfloor q) * inject_Z rows <= 1040).
  { assert (H1 : inject_Z (Qfloor q) <= (GAME_HEIGHT - 20 * 2) / inject_Z rows).
    { eapply Qle_trans; [apply Qfloor_le|]. apply Q.le_min_r. }
    apply (Qmult_le_compat_r _ _ (inject_Z rows)) in H1; [|lra].
    rewrite Qmult_comm in H1 at 1. rewrite (Qmult_comm _ (inject_Z rows)) in H1.
    rewrite Qmult_div_r in H1 by lra. unfold GAME_HEIGHT in H1.
    rewrite Qmult_comm. lra. }
  unfold GAME_HEIGHT.
  assert (Hprod : inject_Z row * inject_Z (Qfloor q)
                  <= (inject_Z rows - 1) * inject_Z (Qfloor q)).
  { apply Qmult_le_compat_r; assumption. }
  set (bw := inject_Z (Qfloor q)) in *.
  set (R := inject_Z rows) in *.
  set (r := inject_Z row) in *.
  assert (Hexp : (R - 1) * bw == bw * R - bw) by ring.
  rewrite Hexp in Hprod.
  assert (Hdiv : (1080 - bw * R) / 2 == 540 - (bw * R) * (1 # 2)) by field.
  rewrite Hdiv. clear Hexp Hdiv.
  set (P := bw * R) in *. set (S := r * bw) in *.
  clearbody P S. lra.
Qed.

(** ** A player at rest stays at rest *)

Lemma Qabs_ltb (x y : Q) : - y < x -> x < y -> Qltb (Qabs x) y = true.
Proof. intros H1 H2. apply Qltb_spec. apply Qabs_Qlt_condition. split; assumption. Qed.

Lemma groundCheck_resting m p g :
  getGroundY m (p_x p) (p_y p) = Some g -> g == p_y p -> p_velocityY p == 0 ->
  groundCheck m p = setJumpsUsed 0 (setOnGround true (setVelocityY 0 (setY g p))).
Proof.
  intros Hg Hgy Hv. unfold groundCheck. rewrite Hg.
  rewrite (Qabs_ltb (p_y p - g) 2) by lra.
  rewrite (Qabs_ltb (p_velocityY p) 36) by lra.
  reflexivity.
Qed.

Lemma applyInputState_idle m deltaTime inp q :
  (forall st, inp = Some st -> i_a st = false /\ i_d st = false /\ i_w st = false) ->
  (applyInputState m deltaTime inp q).1 = q.
Proof.
  intros Hidle. unfold applyInputState. destruct inp as [st|]; [|reflexivity].
  destruct (Hidle st eq_refl) as (Ha & Hd & Hw). cbn [fst].
  unfold applyMovement. rewrite Ha, Hd.
  change (negb (Qeqb 0 0)) with false. cbv iota.
  unfold processJumpInput. rewrite Hw. reflexivity.
Qed.

Lemma verticalMove_resting m q g :
  getGroundY m (p_x q) (p_y q) = Some g -> g == p_y q ->
  getJumpPadAt m (p_x q) g = None ->
  p_velocityY q == 25 ->
  let q' := verticalMove m fixedTimestep q in
  p_x q' = p_x q /\
  ((p_y q' = p_y q + p_velocityY q * fixedTimestep /\ p_velocityY q' = p_velocityY q)
   \/ (p_y q' = g /\ p_velocityY q' = 0)).
Proof.
  intros Hg Hgy Hpad Hv. cbv zeta. unfold verticalMove. rewrite Hg, Hpad.
  assert (Hpos : Qgtb (p_velocityY q) 0 = true) by (apply Qgtb_spec; lra).
  rewrite Hpos.
  assert (Hge : Qgeb (p_y q + p_velocityY q * fixedTimestep) g = true).
  { apply Qgeb_spec. unfold fixedTimestep. lra. }
  rewrite Hge.
  destruct (negb (collided _)); cbn; auto.
Qed.

Lemma finalGroundCheck_resting m q g yq :
  getGroundY m (p_x q) yq = Some g -> g == yq ->
  getJumpPadAt m (p_x q) g = None ->
  ((p_y q == yq + 25 * fixedTimestep /\ p_velocityY q == 25)
   \/ (p_y q == yq /\ p_velocityY q == 0)) ->
  let q' := finalGroundCheck m q in
  p_x q' = p_x q /\ p_y q' == yq /\ p_velocityY q' = 0.
Proof.
  intros Hg Hgy Hpad Hcase. cbv zeta. unfold finalGroundCheck.
  assert (Hnb : Qltb (p_velocityY q) (-400) = false).
  { apply Qltb_false. destruct Hcase as [[_ Hv]|[_ Hv]]; lra. }
  rewrite Hnb. cbn [andb negb].
  assert (Hground : exists g', getGroundY m (p_x q) (p_y q) = Some g' /\ g' == g).
  { destruct Hcase as [[Hy _]|[Hy _]].
    - destruct (getGroundY_sunk m (p_x q) yq g (25 * fixedTimestep) Hg Hgy)
        as (g' & Hg' & Eg'); [unfold fixedTimestep; lra|unfold fixedTimestep; lra|].
      exists g'. split; [|exact Eg'].
      rewrite (getGroundY_proper m (p_x q) (p_y q) (yq + 25 * fixedTimestep) Hy).
      exact Hg'.
    - exists g. split; [|reflexivity].
      rewrite (getGroundY_proper m (p_x q) (p_y q) yq Hy). exact Hg. }
  destruct Hground as (g' & Hg' & Eg'). rewrite Hg'.
  rewrite (Qabs_ltb (p_y q - g') 3)
    by (destruct Hcase as [[Hy _]|[Hy _]]; unfold fixedTimestep in *; lra).
  rewrite (Qabs_ltb (p_velocityY q) 36)
    by (destruct Hcase as [[_ Hv]|[_ Hv]]; lra).
  cbn [andb].
  rewrite (getJumpPadAt_proper m (p_x q) g' g Eg'), Hpad.
  cbn. repeat apply conj; try reflexivity. lra.
Qed.

Lemma safetyCheck_grounded m si q g :
  getGroundY m (p_x q) (p_y q) = Some g ->
  let r := safetyCheck m si q in
  p_x r.1 = p_x q /\ (p_y r.1 = p_y q \/ p_y r.1 = g) /\ r.2 = si.
Proof.
  intros Hg. cbv zeta. unfold safetyCheck.
  destruct (negb _); [|cbn; auto].
  destruct (collided _); [|cbn; auto].
  rewrite Hg. cbn. auto.
Qed.

Lemma fallCheck_above m si q :
  p_y q <= GAME_HEIGHT -> fallCheck m si q = (q, si).
Proof.
  intros H. unfold fallCheck.
  assert (E : Qgtb (p_y q) GAME_HEIGHT = false) by (apply Qgtb_false; exact H).
  rewrite E. reflexivity.
Qed.

Lemma getGroundY_top md x y g :
  getGroundY (loadGeom md) x y = Some g -> g <= 1060.
Proof.
  intros H. destruct (getGroundY_spec _ _ _ _ H) as ((b & Hb & _ & <-) & _).
  apply (loadGeom_block_top md). exact Hb.
Qed.

(** The step of a player at rest on a regular block, no key held, leaves
    the player's [y] where it was and takes no spawn point. *)
Lemma stepPlayer_resting md p inp si g :
  let m := loadGeom md in
  getGroundY m (p_x p) (p_y p) = Some g -> g == p_y p ->
  getJumpPadAt m (p_x p) g = None ->
  p_velocityY p == 0 ->
  (forall st, inp = Some st -> i_a st = false /\ i_d st = false /\ i_w st = false) ->
  let s' := stepPlayer m fixedTimestep (mkStep p inp si) in
  p_y (st_player s') == p_y p /\ st_spawnIndices s' = si.
Proof.
  intros m Hg Hgy Hpad Hv Hidle. cbv zeta.
  unfold stepPlayer. cbn [st_player st_input st_spawnIndices].
  rewrite (groundCheck_resting m p g Hg Hgy Hv).
  set (p1 := setJumpsUsed 0 _).
  rewrite (applyInputState_idle m fixedTimestep inp p1 Hidle).
  assert (Hx1 : p_x p1 = p_x p) by reflexivity.
  assert (Hy1 : p_y p1 = g) by reflexivity.
  assert (Hg1 : getGroundY m (p_x p1) (p_y p1) = Some g).
  { rewrite Hx1, Hy1. rewrite (getGroundY_proper m (p_x p) g (p_y p) Hgy). exact Hg. }
  set (p3 := applyGravity fixedTimestep p1).
  assert (Hx3 : p_x p3 = p_x p) by reflexivity.
  assert (Hy3 : p_y p3 = g) by reflexivity.
  assert (Hv3 : p_velocityY p3 == 25) by reflexivity.
  assert (Hg3 : getGroundY m (p_x p3) (p_y p3) = Some g) by exact Hg1.
  destruct (verticalMove_resting m p3 g Hg3 ltac:(rewrite Hy3; reflexivity)
              ltac:(rewrite Hx3; exact Hpad) Hv3) as (Hx4 & Hcase4).
  cbv zeta in Hx4, Hcase4.
  set (p4 := verticalMove m fixedTimestep p3) in *.
  assert (Hg4 : getGroundY m (p_x p4) g = Some g).
  { rewrite Hx4. rewrite <- Hy3 at 1. exact Hg3. }
  destruct (finalGroundCheck_resting m p4 g g Hg4 ltac:(reflexivity)
              ltac:(rewrite Hx4, Hx3; exact Hpad)) as (Hx6 & Hy6 & Hv6).
  { destruct Hcase4 as [[Hy Hvv]|[Hy Hvv]].
    - left. rewrite Hy, Hvv, Hy3. split; [|exact Hv3]. rewrite Hv3. reflexivity.
    - right. rewrite Hy, Hvv. split; reflexivity. }
  cbv zeta in Hx6, Hy6, Hv6.
  set (p6 := finalGroundCheck m p4) in *.
  set (p7 := updateJumpPadState m p6).
  assert (Hx7 : p_x p7 = p_x p6) by (unfold p7, updateJumpPadState; destruct (negb _); reflexivity).
  assert (Hy7 : p_y p7 = p_y p6) by (unfold p7, updateJumpPadState; destruct (negb _); reflexivity).
  assert (Hg7 : getGroundY m (p_x p7) (p_y p7) = Some g).
  { rewrite Hx7, Hy7, Hx6. rewrite (getGroundY_proper m (p_x p4) (p_y p6) g Hy6).
    exact Hg4. }
  destruct (safetyCheck_grounded m si p7 g Hg7) as (Hx8 & Hy8 & Hs8).
  cbv zeta in Hx8, Hy8, Hs8.
  set (r8 := safetyCheck m si p7) in *.
  assert (Hy8' : p_y r8.1 == g).
  { destruct Hy8 as [E|E]; rewrite E; [rewrite Hy7; exact Hy6|reflexivity]. }
  assert (Hy9 : p_y (boundaryCheck m r8.1) = p_y r8.1) by reflexivity.
  rewrite Hs8.
  rewrite fallCheck_above.
  - cbn [fst snd]. rewrite Hy9, Hy8'. split; [exact Hgy|reflexivity].
  - rewrite Hy9, Hy8'. pose proof (getGroundY_top md _ _ _ Hg) as Htop.
    unfold GAME_HEIGHT. lra.
Qed.

Lemma stepPlayers_lookup m deltaTime ps inputs si pid p :
  omGet pid ps = Some p ->
  exists si',
    omGet pid (stepPlayers m deltaTime ps inputs si).1.1
    = Some (st_player (stepPlayer m deltaTime (mkStep p (inputs !! pid) si'))).
Proof.
  revert inputs si. induction ps as [|[pid' p'] ps IH]; intros inputs si H;
    cbn [omGet] in H; [discriminate|].
  cbn [stepPlayers fst snd omGet].
  destruct (decide (pid = pid')) as [->|Hne].
  - inversion H; subst. exists si. reflexivity.
  - set (s := stepPlayer m deltaTime (mkStep p' (inputs !! pid') si)).
    set (inputs' := match st_input s with
                    | Some st => <[pid' := st]> inputs
                    | None => inputs
                    end).
    destruct (IH inputs' (st_spawnIndices s) H) as (si' & E).
    exists si'. rewrite E.
    assert (El : inputs' !! pid = inputs !! pid).
    { unfold inputs'. destruct (st_input s); [|reflexivity].
      apply lookup_insert_ne. congruence. }
    rewrite El. reflexivity.
Qed.

Lemma pickUp_lookup m b ps pid p :
  omGet pid ps = Some p ->
  exists p', omGet pid (pickUp m b ps).2 = Some p' /\ p_y p' = p_y p.
Proof.
  revert b. induction ps as [|[pid' q] ps IH]; intros b H; cbn [omGet] in H;
    [discriminate|].
  cbn [pickUp].
  destruct (negb (p_hasBomb q) && checkBombCollision m q b); cbn [fst snd omGet];
    destruct (decide (pid = pid')) as [->|Hne].
  - inversion H; subst. eexists. split; reflexivity.
  - apply IH. exact H.
  - inversion H; subst. eexists. split; reflexivity.
  - apply IH. exact H.
Qed.

Lemma updateBombs_lookup m deltaTime bs ps pid p :
  omGet pid ps = Some p ->
  exists p', omGet pid (updateBombs m deltaTime bs ps).2 = Some p' /\ p_y p' = p_y p.
Proof.
  revert ps p. induction bs as [|b bs IH]; intros ps p H; cbn [updateBombs snd].
  - eauto.
  - destruct (negb (bm_collected (tickRespawn deltaTime b))).
    + destruct (pickUp_lookup m (tickRespawn deltaTime b) ps pid p H) as (p1 & H1 & E1).
      destruct (IH _ _ H1) as (p2 & H2 & E2).
      exists p2. split; [exact H2|congruence].
    + cbn [snd]. apply IH. exact H.
Qed.

(** C5.  On a loaded map, a player of the game that rests exactly on the
    ground found under it, this ground not being a jump pad, with no vertical
    velocity and none of the keys a, d, w, s held, has the same [y] after one
    tick [updateGame(1/60)]. *)
Theorem ground_snap_idempotent (md : MapData) (g : GameServer)
    (playerId : string) (p : Player) (ground : Q) :
  geom g = loadGeom md ->
  omGet playerId (players g) = Some p ->
  getGroundY (geom g) (p_x p) (p_y p) = Some ground -> ground == p_y p ->
  getJumpPadAt (geom g) (p_x p) ground = None ->
  p_velocityY p == 0 ->
  (forall st, playerInputs g !! playerId = Some st ->
     i_a st = false /\ i_d st = false /\ i_w st = false /\ i_s st = false) ->
  exists p',
    omGet playerId (players (updateGame fixedTimestep g)) = Some p' /\
    p_y p' == p_y p.
Proof.
  intros Hgeom Hp Hg Hgy Hpad Hv Hidle.
  unfold updateGame.
  change (Qmin fixedTimestep (1 / 30)) with fixedTimestep.
  destruct (stepPlayers_lookup (geom g) fixedTimestep (players g) (playerInputs g)
              (spawnIndices g) playerId p Hp) as (si' & Hstep).
  set (r := stepPlayers (geom g) fixedTimestep (players g) (playerInputs g)
              (spawnIndices g)) in *.
  set (g2 := setThrownBombs _ _).
  set (touches := fold_left _ (players g2) []).
  destruct (paint_fold_frame touches g2) as (_ & _ & _ & Hplayers & Hbombs).
  cbv zeta in Hplayers, Hbombs.
  cbn [players setPlayers].
  rewrite Hplayers.
  assert (Hp2 : omGet playerId (players g2)
                = Some (st_player (stepPlayer (geom g) fixedTimestep
                                     (mkStep p (playerInputs g !! playerId) si'))))
    by exact Hstep.
  destruct (updateBombs_lookup (geom g) fixedTimestep
              (bombs (fold_left
                        (fun g' (t : (nat * nat) * (Team * string)) =>
                           setBlockColor (Z.of_nat t.1.1) (Z.of_nat t.1.2)
                                         (painted t.2.1) g') touches g2))
              (players g2) playerId _ Hp2)
    as (p' & Hp' & Ey).
  exists p'. split; [exact Hp'|]. rewrite Ey.
  rewrite Hgeom in *.
  apply (stepPlayer_resting md p (playerInputs g !! playerId) si' ground Hg Hgy Hpad Hv).
  intros st Hst. destruct (Hidle st Hst) as (Ha & Hd & Hw & _). auto.
Qed.

Lemma ground_snap_idempotent_witness :
  exists p',
    omGet "p1" (players (updateGame fixedTimestep demoResting)) = Some p' /\
    p_y p' == p_y playerOnBlock.
Proof.
  apply (ground_snap_idempotent demoMap demoResting "p1" playerOnBlock (1008 # 2)).
  - vm_compute. reflexivity.
  - reflexivity.
  - vm_compute. reflexivity.
  - reflexivity.
  - vm_compute. reflexivity.
  - reflexivity.
  - intros st Hst. vm_compute in Hst. inversion Hst; subst. cbn. auto.
Defined.

(** * Further properties of the game server *)

(** ** Spawn points in turn *)

Lemma indexOf_bump si t : indexOf (bumpIndex si t) t = S (indexOf si t).
Proof. destruct si, t; reflexivity. Qed.

Lemma indexOf_bump_other si t t' : t <> t' -> indexOf (bumpIndex si t) t' = indexOf si t'.
Proof. destruct si, t, t'; intros H; try reflexivity; congruence. Qed.

Lemma getSpawnPoint_some m si t :
  spawnsOf m t <> [] ->
  exists sp,
    spawnsOf m t !! (indexOf si t mod length (spawnsOf m t))%nat = Some sp /\
    getSpawnPoint m si t = ((sp_x sp, sp_y sp), bumpIndex si t).
Proof.
  intros Hne. unfold getSpawnPoint.
  assert (Hlen : (0 < length (spawnsOf m t))%nat).
  { destruct (spawnsOf m t); [congruence|cbn; lia]. }
  assert (E : Nat.eqb (length (spawnsOf m t)) 0 = false) by (apply Nat.eqb_neq; lia).
  rewrite E.
  destruct (lookup_lt_is_Some_2 (spawnsOf m t)
              (indexOf si t mod length (spawnsOf m t))%nat) as [sp Hsp].
  { apply Nat.mod_upper_bound. lia. }
  exists sp. rewrite Hsp. auto.
Qed.

Lemma getSpawnPoint_none m si t :
  spawnsOf m t = [] -> getSpawnPoint m si t = ((960, 500), si).
Proof. intros H. unfold getSpawnPoint. rewrite H. reflexivity. Qed.

(** X1.  [getSpawnPoint] walks the team's spawn points in turn: the call
    number [k] of a series returns the point at position (counter + k) modulo
    the number of points, the team's counter has grown by the number of
    calls and the other team's is left alone.  A team without spawn points
    gets the centre (960, 500) and its counter does not move. *)
Theorem spawn_round_robin (m : MapGeom) (t : Team) (si : SpawnIndices) (n k : nat) :
  (k < n)%nat ->
  (spawnsOf m t <> [] ->
     (spawnCalls m t n si).1 !! k
     = option_map (fun sp => (sp_x sp, sp_y sp))
         (spawnsOf m t !! ((indexOf si t + k) mod length (spawnsOf m t))%nat) /\
     is_Some ((spawnCalls m t n si).1 !! k) /\
     indexOf (spawnCalls m t n si).2 t = (indexOf si t + n)%nat /\
     (forall t', t <> t' -> indexOf (spawnCalls m t n si).2 t' = indexOf si t')) /\
  (spawnsOf m t = [] ->
     (spawnCalls m t n si).1 !! k = Some (960, 500) /\
     (spawnCalls m t n si).2 = si).
Proof.
  intros Hk. split.
  - intros Hne. revert si k Hk. induction n as [|n IH]; intros si k Hk; [lia|].
    cbn [spawnCalls fst snd].
    destruct (getSpawnPoint_some m si t Hne) as (sp & Hsp & Hcall). rewrite Hcall.
    cbn [fst snd].
    assert (Hidx : indexOf (spawnCalls m t n (bumpIndex si t)).2 t
                   = (indexOf si t + S n)%nat /\
                   (forall t', t <> t' ->
                      indexOf (spawnCalls m t n (bumpIndex si t)).2 t' = indexOf si t')).
    { destruct n as [|n'].
      - cbn [spawnCalls snd]. split.
        + rewrite indexOf_bump. lia.
        + intros t' Ht. apply indexOf_bump_other. exact Ht.
      - destruct (IH (bumpIndex si t) 0%nat ltac:(lia)) as (_ & _ & I3 & I4). split.
        + rewrite I3, indexOf_bump. lia.
        + intros t' Ht. rewrite I4 by exact Ht. apply indexOf_bump_other. exact Ht. }
    destruct k as [|k].
    + cbn [lookup list_lookup]. rewrite Nat.add_0_r, Hsp. cbn [option_map].
      repeat apply conj; try apply Hidx; eauto.
    + change (((sp_x sp, sp_y sp) :: (spawnCalls m t n (bumpIndex si t)).1) !! S k)
        with ((spawnCalls m t n (bumpIndex si t)).1 !! k).
      destruct (IH (bumpIndex si t) k ltac:(lia)) as (I1 & I2 & _ & _).
      rewrite I1 in *. rewrite indexOf_bump in *.
      replace (indexOf si t + S k)%nat with (S (indexOf si t) + k)%nat by lia.
      repeat apply conj; try apply Hidx; auto.
  - intros He. revert k Hk. induction n as [|n IH]; intros k Hk; [lia|].
    cbn [spawnCalls fst snd]. rewrite (getSpawnPoint_none m si t He). cbn [fst snd].
    destruct k as [|k].
    + split; [reflexivity|]. destruct n; [reflexivity|]. apply (IH 0%nat). lia.
    + change (((960, 500) :: (spawnCalls m t n si).1) !! S k)
        with ((spawnCalls m t n si).1 !! k).
      apply IH. lia.
Qed.

Lemma spawn_round_robin_witness :
  (spawnCalls demoGeom red 5 (mkIdx 1 0)).1 !! 2%nat
  = option_map (fun sp => (sp_x sp, sp_y sp))
      (spawnsOf demoGeom red !! ((1 + 2) mod length (spawnsOf demoGeom red))%nat) /\
  indexOf (spawnCalls demoGeom red 5 (mkIdx 1 0)).2 red = 6%nat.
Proof.
  destruct (spawn_round_robin demoGeom red (mkIdx 1 0) 5 2 ltac:(lia)) as [H _].
  destruct H as (H1 & _ & H3 & _); [vm_compute; discriminate|].
  split; [exact H1|exact H3].
Defined.

(** ** The grid that [loadMap] builds *)

Lemma writeBlock_length row col v bs : length (writeBlock row col v bs) = length bs.
Proof.
  unfold writeBlock. destruct (bs !! row); [apply length_insert|reflexivity].
Qed.

Lemma writeBlock_lines row col v bs n :
  Forall (fun l => length l = n) bs ->
  Forall (fun l => length l = n) (writeBlock row col v bs).
Proof.
  intros H. unfold writeBlock. destruct (bs !! row) as [line|] eqn:E; [|exact H].
  apply Forall_insert; [exact H|]. rewrite length_insert.
  eapply Forall_lookup_1 in H; eauto.
Qed.

Lemma writeBlock_same row col v bs n :
  (row < length bs)%nat -> Forall (fun l => length l = n) bs -> (col < n)%nat ->
  blockIn (writeBlock row col v bs) row col = v.
Proof.
  intros Hr Hl Hc. unfold writeBlock, blockIn.
  destruct (lookup_lt_is_Some_2 bs row Hr) as [line E]. rewrite E.
  rewrite list_lookup_insert_eq by exact Hr.
  assert (Hlen : length line = n) by (eapply Forall_lookup_1 in Hl; eauto).
  rewrite list_lookup_insert_eq by lia. reflexivity.
Qed.

Lemma writeBlock_other row col v bs r c :
  (row, col) <> (r, c) -> blockIn (writeBlock row col v bs) r c = blockIn bs r c.
Proof.
  intros Hne. unfold writeBlock, blockIn.
  destruct (bs !! row) as [line|] eqn:E; [|reflexivity].
  destruct (decide (row = r)) as [->|Hr].
  - rewrite list_lookup_insert_eq by (eapply lookup_lt_Some; eauto).
    rewrite E. rewrite list_lookup_insert_ne by congruence. reflexivity.
  - rewrite list_lookup_insert_ne by exact Hr. reflexivity.
Qed.

Lemma blockIn_outside bs rows cols r c :
  length bs = rows -> Forall (fun l => length l = cols) bs ->
  ~ ((r < rows)%nat /\ (c < cols)%nat) -> blockIn bs r c = None.
Proof.
  intros Hr Hl Hout. unfold blockIn.
  destruct (bs !! r) as [line|] eqn:E; [|reflexivity].
  assert (Hlen : length line = cols) by (eapply Forall_lookup_1 in Hl; eauto).
  apply lookup_lt_Some in E.
  destruct (line !! c) as [cell|] eqn:Ec; [|reflexivity].
  apply lookup_lt_Some in Ec. exfalso. apply Hout. lia.
Qed.

Lemma loadGeom_cells (md : MapData) :
  let m := loadGeom md in
  (forall row col : Z,
     (0 <= row < mapRows m)%Z -> (0 <= col < mapCols m)%Z ->
     blockAt m (Z.to_nat row) (Z.to_nat col)
     = option_map (blockOfCell m row col) (lastTile (md_blocks md) row col)) /\
  (forall r c : nat,
     ~ ((r < Z.to_nat (mapRows m))%nat /\ (c < Z.to_nat (mapCols m))%nat) ->
     blockAt m r c = None).
Proof.
  cbv zeta. unfold blockAt, blockOfCell, lastTile, loadGeom.
  cbn [blocks mapRows mapCols startX startY blockWidth blockHeight].
  set (cols := if Z.eqb (md_cols md) 0 then 63%Z else md_cols md).
  set (rows := if Z.eqb (md_rows md) 0 then 43%Z else md_rows md).
  set (bw := inject_Z (Qfloor _)).
  set (sx := (GAME_WIDTH - bw * inject_Z cols) / 2).
  set (sy := (GAME_HEIGHT - bw * inject_Z rows) / 2).
  set (place := fun (bs : list (list (option Block))) (bd : Z * Z * Z) => _).
  set (step := fun (row col : Z) (acc : option Z) (bd : Z * Z * Z) =>
                 if Z.eqb bd.1.1 row && Z.eqb bd.1.2 col then Some bd.2 else acc).
  set (mk := fun (row col tile : Z) =>
               mkBlock (sx + inject_Z col * bw) (sy + inject_Z row * bw) bw bw tile).
  assert (Hgen : forall bds bs (f : Z -> Z -> option Z),
             length bs = Z.to_nat rows ->
             Forall (fun l => length l = Z.to_nat cols) bs ->
             (forall row col, (0 <= row < rows)%Z -> (0 <= col < cols)%Z ->
                blockIn bs (Z.to_nat row) (Z.to_nat col)
                = option_map (mk row col) (f row col)) ->
             length (fold_left place bds bs) = Z.to_nat rows /\
             Forall (fun l => length l = Z.to_nat cols) (fold_left place bds bs) /\
             (forall row col, (0 <= row < rows)%Z -> (0 <= col < cols)%Z ->
                blockIn (fold_left place bds bs) (Z.to_nat row) (Z.to_nat col)
                = option_map (mk row col) (fold_left (step row col) bds (f row col)))).
  { induction bds as [|bd bds IH]; intros bs f Hlen Hlines Hf; cbn [fold_left].
    - auto.
    - destruct (IH (place bs bd)
                  (fun row col => step row col (f row col) bd)) as (I1 & I2 & I3).
      + unfold place. destruct (inGrid _ _ _ _); [|exact Hlen].
        rewrite writeBlock_length. exact Hlen.
      + unfold place. destruct (inGrid _ _ _ _); [|exact Hlines].
        apply writeBlock_lines. exact Hlines.
      + intros row col Hr Hc. unfold place, step.
        destruct (inGrid rows cols bd.1.1 bd.1.2) eqn:Ein.
        * unfold inGrid in Ein. apply andb_true_iff in Ein. destruct Ein as [Ein E4].
          apply andb_true_iff in Ein. destruct Ein as [Ein E3].
          apply andb_true_iff in Ein. destruct Ein as [E1 E2].
          destruct (Z.eqb bd.1.1 row && Z.eqb bd.1.2 col) eqn:Em.
          -- apply andb_true_iff in Em. destruct Em as [Er Ec].
             apply Z.eqb_eq in Er, Ec. rewrite Er, Ec.
             rewrite (writeBlock_same _ _ _ bs (Z.to_nat cols)) by (try assumption; lia).
             reflexivity.
          -- rewrite writeBlock_other; [apply Hf; assumption|].
             intros E. inversion E as [[Er Ec]].
             apply Z2Nat.inj in Er; [|lia|lia]. apply Z2Nat.inj in Ec; [|lia|lia].
             subst. rewrite !Z.eqb_refl in Em. discriminate.
        * destruct (Z.eqb bd.1.1 row && Z.eqb bd.1.2 col) eqn:Em; [|apply Hf; assumption].
          exfalso. apply andb_true_iff in Em. destruct Em as [Er Ec].
          apply Z.eqb_eq in Er, Ec. unfold inGrid in Ein.
          assert (Z.geb bd.1.1 0 && Z.ltb bd.1.1 rows && Z.geb bd.1.2 0 && Z.ltb bd.1.2 cols
                  = true) by (rewrite !andb_true_iff; repeat split; lia).
          congruence.
      + auto. }
  destruct (Hgen (md_blocks md)
              (replicate (Z.to_nat rows) (replicate (Z.to_nat cols) (@None Block)))
              (fun _ _ => None)) as (H1 & H2 & H3).
  { apply length_replicate. }
  { apply Forall_replicate. apply length_replicate. }
  { intros row col _ _. apply empty_grid_read. }
  split.
  - exact H3.
  - intros r c Hout. eapply blockIn_outside; eauto.
Qed.

Lemma loadGeom_block_cell md b :
  b ∈ blockList (loadGeom md) <->
  exists row col tile : Z,
    (0 <= row < mapRows (loadGeom md))%Z /\ (0 <= col < mapCols (loadGeom md))%Z /\
    lastTile (md_blocks md) row col = Some tile /\
    b = blockOfCell (loadGeom md) row col tile.
Proof.
  destruct (loadGeom_cells md) as [Hin _]. cbv zeta in Hin.
  rewrite blockList_spec. split.
  - intros (r & c & Hr & Hc & Hb).
    specialize (Hin (Z.of_nat r) (Z.of_nat c) ltac:(lia) ltac:(lia)).
    rewrite !Nat2Z.id in Hin. rewrite Hb in Hin.
    destruct (lastTile (md_blocks md) (Z.of_nat r) (Z.of_nat c)) as [tile|] eqn:E;
      [|discriminate].
    cbn [option_map] in Hin. inversion Hin as [Hb'].
    exists (Z.of_nat r), (Z.of_nat c), tile. repeat split; try lia; auto.
  - intros (row & col & tile & Hr & Hc & Ht & ->).
    exists (Z.to_nat row), (Z.to_nat col). repeat split; try lia.
    rewrite (Hin row col Hr Hc), Ht. reflexivity.
Qed.

(** X2.  The grid of a loaded map: a cell inside the grid holds a block
    exactly when the map file has an entry for it, the block sits at the
    cell's place with the tile kind of the last such entry (entries outside
    the grid are skipped, a later entry replaces an earlier one); outside the
    grid there is no block; and the blocks the loops of the server visit are
    exactly these. *)
Theorem loadGeom_blockAt (md : MapData) :
  let m := loadGeom md in
  (forall row col : Z,
     (0 <= row < mapRows m)%Z -> (0 <= col < mapCols m)%Z ->
     blockAt m (Z.to_nat row) (Z.to_nat col)
     = option_map (blockOfCell m row col) (lastTile (md_blocks md) row col)) /\
  (forall r c : nat,
     ~ ((r < Z.to_nat (mapRows m))%nat /\ (c < Z.to_nat (mapCols m))%nat) ->
     blockAt m r c = None) /\
  (forall b,
     b ∈ blockList m <->
     exists row col tile : Z,
       (0 <= row < mapRows m)%Z /\ (0 <= col < mapCols m)%Z /\
       lastTile (md_blocks md) row col = Some tile /\
       b = blockOfCell m row col tile).
Proof.
  cbv zeta. destruct (loadGeom_cells md) as [H1 H2]. cbv zeta in H1, H2.
  split; [exact H1|]. split; [exact H2|].
  intros b. apply loadGeom_block_cell.
Qed.

(** ** A loaded map fits the screen *)

Lemma loadGeom_sizes md :
  let m := loadGeom md in
  (0 < mapCols m)%Z -> (0 < mapRows m)%Z ->
  0 <= blockWidth m /\
  blockWidth m * inject_Z (mapCols m) <= 1880 /\
  blockWidth m * inject_Z (mapRows m) <= 1040 /\
  blockHeight m = blockWidth m /\
  startX m == (1920 - blockWidth m * inject_Z (mapCols m)) * (1 # 2) /\
  startY m == (1080 - blockWidth m * inject_Z (mapRows m)) * (1 # 2).
Proof.
  cbv zeta. unfold loadGeom.
  cbn [mapCols mapRows blockWidth blockHeight startX startY].
  set (cols := if Z.eqb (md_cols md) 0 then 63%Z else md_cols md).
  set (rows := if Z.eqb (md_rows md) 0 then 43%Z else md_rows md).
  set (q := Qmin _ _). intros Hcols Hrows.
  assert (Hr : 0 < inject_Z rows).
  { change 0 with (inject_Z 0). rewrite <- Zlt_Qlt. lia. }
  assert (Hc : 0 < inject_Z cols).
  { change 0 with (inject_Z 0). rewrite <- Zlt_Qlt. lia. }
  assert (Hq0 : 0 <= q).
  { unfold q. apply Q.min_glb.
    - apply Qle_shift_div_l; [exact Hc|]. unfold GAME_WIDTH. lra.
    - apply Qle_shift_div_l; [exact Hr|]. unfold GAME_HEIGHT. lra. }
  assert (Hbw0 : 0 <= inject_Z (Qfloor q)) by (apply Qfloor_nonneg; exact Hq0).
  assert (Hh : inject_Z (Qfloor q) * inject_Z rows <= 1040).
  { assert (H1 : inject_Z (Qfloor q) <= (GAME_HEIGHT - 20 * 2) / inject_Z rows).
    { eapply Qle_trans; [apply Qfloor_le|]. apply Q.le_min_r. }
    apply (Qmult_le_compat_r _ _ (inject_Z rows)) in H1; [|lra].
    rewrite (Qmult_comm _ (inject_Z rows)) in H1.
    rewrite (Qmult_comm _ (inject_Z rows)) in H1.
    rewrite Qmult_div_r in H1 by lra. unfold GAME_HEIGHT in H1.
    rewrite Qmult_comm. lra. }
  assert (Hw : inject_Z (Qfloor q) * inject_Z cols <= 1880).
  { assert (H1 : inject_Z (Qfloor q) <= (GAME_WIDTH - 20 * 2) / inject_Z cols).
    { eapply Qle_trans; [apply Qfloor_le|]. apply Q.le_min_l. }
    apply (Qmult_le_compat_r _ _ (inject_Z cols)) in H1; [|lra].
    rewrite (Qmult_comm _ (inject_Z cols)) in H1.
    rewrite (Qmult_comm _ (inject_Z cols)) in H1.
    rewrite Qmult_div_r in H1 by lra. unfold GAME_WIDTH in H1.
    rewrite Qmult_comm. lra. }
  repeat apply conj; try assumption; try reflexivity.
Qed.

(** X3.  Every block of a loaded map is a square of side [blockWidth], a
    non-negative whole number of pixels, and lies inside the grid, which is
    centred on the 1920 x 1080 screen with a margin of at least 20 px on
    each side. *)
Theorem loadGeom_inside (md : MapData) (b : Block) :
  b ∈ blockList (loadGeom md) ->
  let m := loadGeom md in
  (exists n : Z, (0 <= n)%Z /\ blockWidth m = inject_Z n) /\
  b_width b = blockWidth m /\ b_height b = blockWidth m /\
  20 <= startX m /\ 20 <= startY m /\
  startX m <= b_x b /\ b_x b + b_width b <= 1920 - startX m /\
  startY m <= b_y b /\ b_y b + b_height b <= 1080 - startY m.
Proof.
  intros Hb. cbv zeta.
  apply loadGeom_block_cell in Hb.
  destruct Hb as (row & col & tile & Hr & Hc & _ & ->).
  destruct (loadGeom_sizes md ltac:(lia) ltac:(lia)) as (H0 & Hw & Hh & Ebh & Esx & Esy).
  unfold blockOfCell. cbn [b_x b_y b_width b_height]. rewrite Ebh.
  set (m := loadGeom md) in *.
  assert (Hrow0 : 0 <= inject_Z row).
  { change 0 with (inject_Z 0). rewrite <- Zle_Qle. lia. }
  assert (Hcol0 : 0 <= inject_Z col).
  { change 0 with (inject_Z 0). rewrite <- Zle_Qle. lia. }
  assert (Hrow1 : inject_Z row + 1 <= inject_Z (mapRows m)).
  { change 1 with (inject_Z 1). rewrite <- inject_Z_plus, <- Zle_Qle. lia. }
  assert (Hcol1 : inject_Z col + 1 <= inject_Z (mapCols m)).
  { change 1 with (inject_Z 1). rewrite <- inject_Z_plus, <- Zle_Qle. lia. }
  assert (Pr0 : 0 <= inject_Z row * blockWidth m) by (apply Qmult_le_0_compat; assumption).
  assert (Pc0 : 0 <= inject_Z col * blockWidth m) by (apply Qmult_le_0_compat; assumption).
  assert (Pr1 : (inject_Z row + 1) * blockWidth m <= inject_Z (mapRows m) * blockWidth m)
    by (apply Qmult_le_compat_r; assumption).
  assert (Pc1 : (inject_Z col + 1) * blockWidth m <= inject_Z (mapCols m) * blockWidth m)
    by (apply Qmult_le_compat_r; assumption).
  assert (Er : (inject_Z row + 1) * blockWidth m
               == inject_Z row * blockWidth m + blockWidth m) by ring.
  assert (Ec : (inject_Z col + 1) * blockWidth m
               == inject_Z col * blockWidth m + blockWidth m) by ring.
  assert (Cr : inject_Z (mapRows m) * blockWidth m
               == blockWidth m * inject_Z (mapRows m)) by ring.
  assert (Cc : inject_Z (mapCols m) * blockWidth m
               == blockWidth m * inject_Z (mapCols m)) by ring.
  rewrite Er, Cr in Pr1. rewrite Ec, Cc in Pc1.
  set (W := blockWidth m * inject_Z (mapCols m)) in *.
  set (H := blockWidth m * inject_Z (mapRows m)) in *.
  set (R := inject_Z row * blockWidth m) in *.
  set (C := inject_Z col * blockWidth m) in *.
  split.
  { unfold m, loadGeom. cbn [blockWidth]. eexists. split; [|reflexivity].
    assert (Hz : 0 <= blockWidth m) by exact H0.
    unfold m, loadGeom in Hz. cbn [blockWidth] in Hz.
    change 0 with (inject_Z 0) in Hz. rewrite <- Zle_Qle in Hz. exact Hz. }
  clearbody W H R C.
  repeat apply conj; try reflexivity; try lra.
Qed.

Lemma loadGeom_inside_witness :
  let b := blockOfCell demoGeom 20 30 9 in
  20 <= startX demoGeom /\ startX demoGeom <= b_x b /\
  b_x b + b_width b <= 1920 - startX demoGeom.
Proof.
  cbv zeta.
  destruct (loadGeom_inside demoMap (blockOfCell demoGeom 20 30 9))
    as (_ & _ & _ & H1 & _ & H2 & H3 & _).
  { apply loadGeom_block_cell. exists 20%Z, 30%Z, 9%Z.
    repeat split; try reflexivity; vm_compute; congruence. }
  repeat split; assumption.
Defined.

(** ** Limits of the player state *)

Lemma stageEffect_refl p : stageEffect p p.
Proof. unfold stageEffect. auto 10. Qed.

Lemma stageEffect_limits p p' :
  stageEffect p p' -> withinLimits p -> withinLimits p'.
Proof.
  unfold stageEffect, withinLimits, JUMP_PAD_BOUNCE, MAX_FALL_SPEED, JUMP_POWER, MAX_JUMPS.
  intros (_ & _ & _ & Hv & Hj) (H1 & H2 & H3).
  repeat apply conj.
  - destruct Hv as [->| [->| [->| ->]]]; lra.
  - destruct Hv as [->| [->| [->| ->]]]; lra.
  - destruct Hj as [->| [->| [->| [-> ?]]]]; lia.
Qed.

Lemma stageEffect_identity p p' :
  stageEffect p p' ->
  p_playerId p' = p_playerId p /\ p_team p' = p_team p /\ p_hasBomb p' = p_hasBomb p.
Proof. unfold stageEffect. tauto. Qed.

Ltac stage_cases :=
  repeat match goal with
         | |- context [match ?c with _ => _ end] => destruct c
         end;
  unfold stageEffect; cbn; auto 10.

Lemma groundCheck_effect m p : stageEffect p (groundCheck m p).
Proof. unfold groundCheck. stage_cases. Qed.

Lemma applyMovement_effect m dt i p : stageEffect p (applyMovement m dt i p).
Proof.
  unfold applyMovement. cbv zeta.
  destruct (negb (Qeqb _ 0)); [|apply stageEffect_refl].
  destruct (negb (existsb _ _)); [|unfold stageEffect; cbn; auto 10].
  destruct (negb (collided _)); [unfold stageEffect; cbn; auto 10|].
  destruct (firstSome _ _); [|unfold stageEffect; cbn; auto 10].
  destruct (Qgtb _ _); unfold stageEffect; cbn; auto 10.
Qed.

Lemma processJumpInput_effect m i p : stageEffect p (processJumpInput m i p).1.
Proof.
  unfold processJumpInput. cbv zeta.
  destruct (i_w i && negb (i_wasPressingW i)); [|apply stageEffect_refl].
  destruct (isOnJumpPad m (p_x p) (p_y p) || checkJumpPadCollision m (p_x p) (p_y p));
    [apply stageEffect_refl|].
  destruct (p_onGround p); [unfold stageEffect; cbn; auto 10|].
  destruct (isTouchingBlock m (p_x p) (p_y p)); [unfold stageEffect; cbn; auto 10|].
  destruct (Nat.ltb (p_jumpsUsed p) MAX_JUMPS && Qgtb (p_velocityY p) 0) eqn:E;
    [|apply stageEffect_refl].
  apply andb_true_iff in E. destruct E as [E _]. apply Nat.ltb_lt in E.
  unfold stageEffect; cbn. repeat apply conj; auto 10.
Qed.

Lemma applyInputState_effect m dt inp p : stageEffect p (applyInputState m dt inp p).1.
Proof.
  unfold applyInputState. destruct inp as [i|]; cbn [fst]; [|apply stageEffect_refl].
  pose proof (applyMovement_effect m dt i p) as H1.
  pose proof (processJumpInput_effect m i (applyMovement m dt i p)) as H2.
  unfold stageEffect in *.
  destruct H1 as (A1 & A2 & A3 & A4 & A5).
  destruct H2 as (B1 & B2 & B3 & B4 & B5).
  assert (Ev : p_velocityY (applyMovement m dt i p) = p_velocityY p).
  { unfold applyMovement. cbv zeta.
    repeat match goal with
           | |- context [match ?c with _ => _ end] => destruct c
           end; reflexivity. }
  assert (Ej : p_jumpsUsed (applyMovement m dt i p) = p_jumpsUsed p).
  { unfold applyMovement. cbv zeta.
    repeat match goal with
           | |- context [match ?c with _ => _ end] => destruct c
           end; reflexivity. }
  rewrite Ev, Ej in *.
  repeat apply conj; try congruence; assumption.
Qed.

Lemma applyGravity_limits dt p :
  0 <= dt -> withinLimits p -> withinLimits (applyGravity dt p).
Proof.
  unfold withinLimits, applyGravity, JUMP_PAD_BOUNCE, MAX_FALL_SPEED, GRAVITY, MAX_JUMPS.
  intros Hdt (H1 & H2 & H3). cbv zeta.
  assert (Hg : 0 <= 1500 * dt) by (apply Qmult_le_0_compat; lra).
  destruct (Qgtb _ _) eqn:E; cbn; qbool; repeat apply conj; try lra; lia.
Qed.

Lemma applyGravity_identity dt p :
  p_playerId (applyGravity dt p) = p_playerId p /\
  p_team (applyGravity dt p) = p_team p /\
  p_hasBomb (applyGravity dt p) = p_hasBomb p.
Proof. unfold applyGravity. cbv zeta. destruct (Qgtb _ _); cbn; auto. Qed.

Lemma verticalMove_effect m dt p : stageEffect p (verticalMove m dt p).
Proof. unfold verticalMove. cbv zeta. stage_cases. Qed.

Lemma finalGroundCheck_effect m p : stageEffect p (finalGroundCheck m p).
Proof. unfold finalGroundCheck. cbv zeta. stage_cases. Qed.

Lemma updateJumpPadState_effect m p : stageEffect p (updateJumpPadState m p).
Proof. unfold updateJumpPadState. cbv zeta. stage_cases. Qed.

Lemma safetyCheck_effect m si p : stageEffect p (safetyCheck m si p).1.
Proof. unfold safetyCheck, respawnAtSpawn. cbv zeta. stage_cases. Qed.

Lemma boundaryCheck_effect m p : stageEffect p (boundaryCheck m p).
Proof. unfold boundaryCheck. stage_cases. Qed.

Lemma fallCheck_effect m si p : stageEffect p (fallCheck m si p).1.
Proof. unfold fallCheck, respawnAtSpawn. cbv zeta. stage_cases. Qed.

Lemma stepPlayer_identity m dt s :
  let p' := st_player (stepPlayer m dt s) in
  p_playerId p' = p_playerId (st_player s) /\ p_team p' = p_team (st_player s) /\
  p_hasBomb p' = p_hasBomb (st_player s).
Proof.
  cbv zeta. unfold stepPlayer. cbn [st_player].
  repeat match goal with
         | |- context [fallCheck ?m ?si ?p] =>
             let H := fresh in
             pose proof (stageEffect_identity _ _ (fallCheck_effect m si p)) as H;
             destruct H as (-> & -> & ->)
         | |- context [boundaryCheck ?m ?p] =>
             let H := fresh in
             pose proof (stageEffect_identity _ _ (boundaryCheck_effect m p)) as H;
             destruct H as (-> & -> & ->)
         | |- context [safetyCheck ?m ?si ?p] =>
             let H := fresh in
             pose proof (stageEffect_identity _ _ (safetyCheck_effect m si p)) as H;
             destruct H as (-> & -> & ->)
         | |- context [updateJumpPadState ?m ?p] =>
             let H := fresh in
             pose proof (stageEffect_identity _ _ (updateJumpPadState_effect m p)) as H;
             destruct H as (-> & -> & ->)
         | |- context [finalGroundCheck ?m ?p] =>
             let H := fresh in
             pose proof (stageEffect_identity _ _ (finalGroundCheck_effect m p)) as H;
             destruct H as (-> & -> & ->)
         | |- context [verticalMove ?m ?dt ?p] =>
             let H := fresh in
             pose proof (stageEffect_identity _ _ (verticalMove_effect m dt p)) as H;
             destruct H as (-> & -> & ->)
         | |- context [applyGravity ?dt ?p] =>
             let H := fresh in
             pose proof (applyGravity_identity dt p) as H;
             destruct H as (-> & -> & ->)
         | |- context [applyInputState ?m ?dt ?i ?p] =>
             let H := fresh in
             pose proof (stageEffect_identity _ _ (applyInputState_effect m dt i p)) as H;
             destruct H as (-> & -> & ->)
         | |- context [groundCheck ?m ?p] =>
             let H := fresh in
             pose proof (stageEffect_identity _ _ (groundCheck_effect m p)) as H;
             destruct H as (-> & -> & ->)
         end.
  auto.
Qed.

Lemma stepPlayer_limits m dt s :
  0 <= dt -> withinLimits (st_player s) ->
  withinLimits (st_player (stepPlayer m dt s)).
Proof.
  intros Hdt H. unfold stepPlayer. cbn [st_player].
  eapply stageEffect_limits; [apply fallCheck_effect|].
  eapply stageEffect_limits; [apply boundaryCheck_effect|].
  eapply stageEffect_limits; [apply safetyCheck_effect|].
  eapply stageEffect_limits; [apply updateJumpPadState_effect|].
  eapply stageEffect_limits; [apply finalGroundCheck_effect|].
  eapply stageEffect_limits; [apply verticalMove_effect|].
  apply applyGravity_limits; [exact Hdt|].
  eapply stageEffect_limits; [apply applyInputState_effect|].
  eapply stageEffect_limits; [apply groundCheck_effect|].
  exact H.
Qed.

(** ** Determinism of the player step and respawns *)

Lemma getSpawnPoint_selected m si t :
  getSpawnPoint m si t
  = (selectedSpawn m si t,
     if Nat.eqb (length (spawnsOf m t)) 0 then si else bumpIndex si t).
Proof.
  unfold getSpawnPoint, selectedSpawn.
  destruct (Nat.eqb (length (spawnsOf m t)) 0) eqn:E.
  - apply Nat.eqb_eq in E. destruct (spawnsOf m t); [reflexivity|discriminate].
  - destruct (_ !! _); reflexivity.
Qed.

Lemma respawnAtSpawn_spec m si p :
  let r := respawnAtSpawn m si p in
  (p_x r.1, p_y r.1) = selectedSpawn m si (p_team p) /\
  p_velocityY r.1 = 0 /\ p_onGround r.1 = true /\
  r.2 = (if Nat.eqb (length (spawnsOf m (p_team p))) 0 then si
         else bumpIndex si (p_team p)).
Proof.
  cbv zeta. unfold respawnAtSpawn. cbv zeta. rewrite getSpawnPoint_selected.
  cbn [fst snd p_x p_y p_velocityY p_onGround setOnGround setVelocityY setY setX].
  destruct (selectedSpawn m si (p_team p)). auto.
Qed.

Lemma safetyCheck_cases m si p :
  let r := safetyCheck m si p in
  r.2 = si \/
  (r.2 = bumpIndex si (p_team p) /\ length (spawnsOf m (p_team p)) <> 0%nat /\
   (p_x r.1, p_y r.1) = selectedSpawn m si (p_team p) /\
   p_velocityY r.1 = 0 /\ p_onGround r.1 = true).
Proof.
  cbv zeta. unfold safetyCheck. cbv zeta.
  destruct (negb _); [|auto].
  destruct (collided _); [|auto].
  destruct (getGroundY _ _ _); [auto|].
  destruct (respawnAtSpawn_spec m si p) as (H1 & H2 & H3 & H4). cbv zeta in H1, H2, H3, H4.
  rewrite H4. destruct (Nat.eqb _ 0) eqn:E; [auto|].
  apply Nat.eqb_neq in E. right. auto.
Qed.

Lemma fallCheck_cases m si q :
  let r := fallCheck m si q in
  (r.2 = bumpIndex si (p_team q) /\ length (spawnsOf m (p_team q)) <> 0%nat /\
   (p_x r.1, p_y r.1) = selectedSpawn m si (p_team q) /\
   p_velocityY r.1 = 0 /\ p_onGround r.1 = true) \/
  (r.2 = si /\
   (length (spawnsOf m (p_team q)) <> 0%nat ->
    p_x r.1 = p_x q /\
    (r.1 = q \/
     (GAME_HEIGHT < p_y q /\ getGroundY m (p_x q) GAME_HEIGHT = Some (p_y r.1) /\
      p_velocityY r.1 = 0 /\ p_onGround r.1 = true)))).
Proof.
  cbv zeta. unfold fallCheck.
  destruct (Qgtb (p_y q) GAME_HEIGHT) eqn:E; [|right; cbn [fst snd]; auto].
  destruct (getGroundY m (p_x q) GAME_HEIGHT) as [g|] eqn:Eg.
  - right. cbn [fst snd p_x p_y p_velocityY p_onGround setOnGround setVelocityY setY].
    split; [reflexivity|]. intros _. split; [reflexivity|]. right.
    unfold Qgtb in E. apply Qltb_spec in E. auto.
  - destruct (respawnAtSpawn_spec m si q) as (H1 & H2 & H3 & H4).
    cbv zeta in H1, H2, H3, H4.
    rewrite H4. destruct (Nat.eqb _ 0) eqn:E0.
    + right. split; [reflexivity|]. apply Nat.eqb_eq in E0. intros Hn. contradiction.
    + left. apply Nat.eqb_neq in E0. auto.
Qed.

Lemma safetyCheck_team m si p : p_team (safetyCheck m si p).1 = p_team p.
Proof. apply (stageEffect_identity _ _ (safetyCheck_effect m si p)). Qed.

Lemma beforeSafety_team m dt inp p :
  p_team (updateJumpPadState m
            (finalGroundCheck m
               (verticalMove m dt
                  (applyGravity dt (applyInputState m dt inp (groundCheck m p)).1))))
  = p_team p.
Proof.
  destruct (stageEffect_identity _ _ (updateJumpPadState_effect m
              (finalGroundCheck m
                 (verticalMove m dt
                    (applyGravity dt (applyInputState m dt inp (groundCheck m p)).1)))))
    as (_ & -> & _).
  destruct (stageEffect_identity _ _ (finalGroundCheck_effect m
              (verticalMove m dt
                 (applyGravity dt (applyInputState m dt inp (groundCheck m p)).1))))
    as (_ & -> & _).
  destruct (stageEffect_identity _ _ (verticalMove_effect m dt
              (applyGravity dt (applyInputState m dt inp (groundCheck m p)).1)))
    as (_ & -> & _).
  destruct (applyGravity_identity dt (applyInputState m dt inp (groundCheck m p)).1)
    as (_ & -> & _).
  destruct (stageEffect_identity _ _ (applyInputState_effect m dt inp (groundCheck m p)))
    as (_ & -> & _).
  destruct (stageEffect_identity _ _ (groundCheck_effect m p)) as (_ & -> & _).
  reflexivity.
Qed.

(** C1 (amended).  The step is a function of the player, its input state,
    the map, [dt] and the spawn counters.  A run that leaves the counters as
    they were gives the same player and the same input state whatever the
    counters are, and the input state never depends on them.  A run that
    moves the counters has respawned the player, which is then at rest and
    flagged on the ground, in one of three places: fallen below the map with
    no ground found, at the spawn point the counter selects; stuck in a
    block with no ground found, at that spawn point with [x] clamped into
    the map (and put on the ground found under the map if the spawn point
    lies below it); both in turn, at the spawn point the counter selects
    after one increment. *)
Theorem step_deterministic (m : MapGeom) (deltaTime : Q) (p : Player)
    (inp : option InputState) (si1 si2 : SpawnIndices) :
  let s1 := stepPlayer m deltaTime (mkStep p inp si1) in
  let p' := st_player s1 in
  let team := p_team p in
  (st_spawnIndices s1 = si1 ->
     stepPlayer m deltaTime (mkStep p inp si2)
     = mkStep (st_player s1) (st_input s1) si2) /\
  st_input (stepPlayer m deltaTime (mkStep p inp si2)) = st_input s1 /\
  (st_spawnIndices s1 <> si1 ->
     p_velocityY p' = 0 /\ p_onGround p' = true /\ p_team p' = team /\
     ((st_spawnIndices s1 = bumpIndex si1 team /\
       (p_x p', p_y p') = selectedSpawn m si1 team) \/
      (st_spawnIndices s1 = bumpIndex si1 team /\
       p_x p' = clampX m (selectedSpawn m si1 team).1 /\
       (p_y p' = (selectedSpawn m si1 team).2 \/
        (GAME_HEIGHT < (selectedSpawn m si1 team).2 /\
         getGroundY m (p_x p') GAME_HEIGHT = Some (p_y p')))) \/
      (st_spawnIndices s1 = bumpIndex (bumpIndex si1 team) team /\
       (p_x p', p_y p') = selectedSpawn m (bumpIndex si1 team) team))).
Proof.
  cbv zeta. unfold stepPlayer. cbn [st_player st_input st_spawnIndices].
  pose proof (beforeSafety_team m deltaTime inp p) as T7.
  revert T7.
  generalize (updateJumpPadState m
                (finalGroundCheck m
                   (verticalMove m deltaTime
                      (applyGravity deltaTime
                         (applyInputState m deltaTime inp (groundCheck m p)).1)))).
  intros p7 T7.
  split; [|split; [reflexivity|]].
  - intros E.
    assert (E8 : (safetyCheck m si1 p7).2 = si1).
    { eapply idxLe_antisym; [apply safetyCheck_le| |exact E]. apply fallCheck_le. }
    rewrite (safetyCheck_indep m si1 p7 E8 si2). cbn [fst snd].
    rewrite E8 in E |- *.
    rewrite (fallCheck_indep m si1 _ E si2). reflexivity.
  - pose proof (safetyCheck_team m si1 p7) as T8. rewrite T7 in T8.
    destruct (safetyCheck_cases m si1 p7) as [E8|(E8 & L8 & P8 & V8 & G8)];
      cbv zeta in *; revert T8 E8; try revert P8 V8 G8;
      generalize (safetyCheck m si1 p7); intros [q8 s8]; cbn [fst snd].
    + intros T8 ->.
      assert (T9 : p_team (boundaryCheck m q8) = p_team p) by exact T8.
      destruct (fallCheck_cases m si1 (boundaryCheck m q8))
        as [(E & _ & P & V & G)|(E & _)]; cbv zeta in *.
      * rewrite T9 in E, P. intros _.
        split; [exact V|]. split; [exact G|].
        split; [rewrite (proj1 (proj2 (stageEffect_identity _ _
                   (fallCheck_effect m si1 (boundaryCheck m q8))))); exact T9|].
        left. auto.
      * intros H. contradiction.
    + intros P8 V8 G8 T8 ->. rewrite T7 in *.
      assert (T9 : p_team (boundaryCheck m q8) = p_team p) by exact T8.
      assert (X9 : p_x (boundaryCheck m q8) = clampX m (selectedSpawn m si1 (p_team p)).1).
      { rewrite <- P8. reflexivity. }
      assert (Y9 : p_y (boundaryCheck m q8) = (selectedSpawn m si1 (p_team p)).2).
      { rewrite <- P8. reflexivity. }
      intros _.
      split; [|split; [|split]].
      * destruct (fallCheck_cases m (bumpIndex si1 (p_team p)) (boundaryCheck m q8))
          as [(E & _ & P & V & G)|(E & K)]; cbv zeta in *; [exact V|].
        rewrite T9 in K. destruct (K L8) as (_ & [->|(_ & _ & V & _)]); [exact V8|exact V].
      * destruct (fallCheck_cases m (bumpIndex si1 (p_team p)) (boundaryCheck m q8))
          as [(E & _ & P & V & G)|(E & K)]; cbv zeta in *; [exact G|].
        rewrite T9 in K. destruct (K L8) as (_ & [->|(_ & _ & _ & G)]); [exact G8|exact G].
      * rewrite (proj1 (proj2 (stageEffect_identity _ _
                   (fallCheck_effect m _ (boundaryCheck m q8))))). exact T9.
      * destruct (fallCheck_cases m (bumpIndex si1 (p_team p)) (boundaryCheck m q8))
          as [(E & _ & P & V & G)|(E & K)]; cbv zeta in *.
        -- rewrite T9 in E, P. right. right. auto.
        -- rewrite T9 in K. destruct (K L8) as (KX & KY).
           right. left. split; [exact E|]. split; [congruence|].
           destruct KY as [->|(KH & KG & _)]; [left; exact Y9|].
           right. rewrite Y9 in KH. rewrite KX. auto.
Qed.

Lemma step_deterministic_witness :
  st_spawnIndices (stepPlayer demoGeom fixedTimestep
                     (mkStep playerOnBlock (Some jumpPressed) (mkIdx 0 0)))
  = mkIdx 0 0 /\
  stepPlayer demoGeom fixedTimestep (mkStep playerOnBlock (Some jumpPressed) (mkIdx 3 5))
  = mkStep (st_player (stepPlayer demoGeom fixedTimestep
                         (mkStep playerOnBlock (Some jumpPressed) (mkIdx 0 0))))
           (st_input (stepPlayer demoGeom fixedTimestep
                        (mkStep playerOnBlock (Some jumpPressed) (mkIdx 0 0))))
           (mkIdx 3 5) /\
  st_spawnIndices (stepPlayer demoGeom fixedTimestep (mkStep playerBelowMap None (mkIdx 1 0)))
  = mkIdx 2 0 /\
  p_x (st_player (stepPlayer demoGeom fixedTimestep (mkStep playerBelowMap None (mkIdx 1 0))))
  = (selectedSpawn demoGeom (mkIdx 1 0) red).1 /\
  selectedSpawn demoGeom (mkIdx 1 0) red <> selectedSpawn demoGeom (mkIdx 0 0) red.
Proof.
  split; [vm_compute; reflexivity|]. split.
  - apply (step_deterministic demoGeom fixedTimestep playerOnBlock (Some jumpPressed)
             (mkIdx 0 0) (mkIdx 3 5)).
    vm_compute. reflexivity.
  - split; [vm_compute; reflexivity|]. split; [|vm_compute; discriminate].
    destruct (step_deterministic demoGeom fixedTimestep playerBelowMap None
                (mkIdx 1 0) (mkIdx 1 0)) as (_ & _ & H).
    destruct H as (_ & _ & _ & [(_ & H)|[(_ & H & _)|(E & _)]]).
    + vm_compute. discriminate.
    + exact (f_equal fst H).
    + rewrite H. vm_compute. reflexivity.
    + vm_compute in E. discriminate.
Defined.

Lemma stepPlayers_Forall2 m dt (R : string * Player -> string * Player -> Prop) :
  (forall pid p inp si,
     R (pid, p) (pid, st_player (stepPlayer m dt (mkStep p inp si)))) ->
  forall ps inputs si, Forall2 R ps (stepPlayers m dt ps inputs si).1.1.
Proof.
  intros HR. induction ps as [|[pid p] ps IH]; intros inputs si; cbn [stepPlayers fst snd].
  - constructor.
  - constructor; [apply HR|apply IH].
Qed.

Lemma pickUp_Forall2 m (R : string * Player -> string * Player -> Prop) :
  (forall e, R e e) -> (forall pid p, R (pid, p) (pid, setHasBomb true p)) ->
  forall ps b, Forall2 R ps (pickUp m b ps).2.
Proof.
  intros Hr Hs. induction ps as [|[pid p] ps IH]; intros b; cbn [pickUp].
  - constructor.
  - destruct (negb (p_hasBomb p) && checkBombCollision m p b); cbn [snd];
      constructor; auto.
Qed.

Lemma updateBombs_Forall2 m dt (R : string * Player -> string * Player -> Prop) :
  (forall e, R e e) -> (forall pid p, R (pid, p) (pid, setHasBomb true p)) ->
  (forall a b c, R a b -> R b c -> R a c) ->
  forall bs ps, Forall2 R ps (updateBombs m dt bs ps).2.
Proof.
  intros Hr Hs Ht. induction bs as [|b bs IH]; intros ps; cbn [updateBombs snd].
  - induction ps; constructor; auto.
  - set (r1 := if negb (bm_collected (tickRespawn dt b))
               then pickUp m (tickRespawn dt b) ps else (tickRespawn dt b, ps)).
    assert (H1 : Forall2 R ps r1.2).
    { unfold r1. destruct (negb _); [apply pickUp_Forall2; assumption|].
      cbn [snd]. clear -Hr. induction ps; constructor; auto. }
    specialize (IH r1.2). revert H1 IH. generalize (updateBombs m dt bs r1.2).2.
    generalize r1.2. clear -Ht.
    intros l1 l2 H1. revert l2. induction H1; intros l2 H2; inversion H2; subst;
      constructor; eauto.
Qed.

Lemma updateGame_players dt g :
  exists ps1,
    ps1 = (stepPlayers (geom g) (Qmin dt (1 / 30)) (players g) (playerInputs g)
             (spawnIndices g)).1.1 /\
    exists bs, players (updateGame dt g)
               = (updateBombs (geom g) (Qmin dt (1 / 30)) bs ps1).2.
Proof.
  eexists. split; [reflexivity|]. eexists.
  unfold updateGame. cbv zeta. cbn [players setPlayers].
  match goal with
  | |- context [players (fold_left ?f ?ts ?g0)] =>
      let E := fresh "E" in
      destruct (paint_fold_frame ts g0) as (_ & _ & _ & E & _); cbv zeta in E; rewrite E
  end.
  reflexivity.
Qed.

(** X4.  A tick keeps every player within the limits of the simulation: for
    a time step that is not negative, if every player has a vertical velocity
    between the jump-pad bounce (-900) and the maximum fall speed (1200) and
    has used at most two jumps, the same holds after [updateGame]. *)
Theorem updateGame_limits (dt : Q) (g : GameServer) :
  0 <= dt ->
  Forall (fun e : string * Player => withinLimits e.2) (players g) ->
  Forall (fun e : string * Player => withinLimits e.2) (players (updateGame dt g)).
Proof.
  intros Hdt H.
  destruct (updateGame_players dt g) as (ps1 & E1 & bs & ->).
  assert (Hd : 0 <= Qmin dt (1 / 30))
    by (apply Q.min_glb; [exact Hdt|vm_compute; discriminate]).
  set (R := fun a b : string * Player => withinLimits a.2 -> withinLimits b.2).
  assert (H1 : Forall2 R (players g) ps1).
  { subst ps1. apply stepPlayers_Forall2. intros pid p inp si. unfold R. cbn [snd].
    apply (stepPlayer_limits (geom g) _ (mkStep p inp si) Hd). }
  assert (H2 : Forall2 R ps1 (updateBombs (geom g) (Qmin dt (1 / 30)) bs ps1).2).
  { apply updateBombs_Forall2; unfold R; auto. }
  revert H H1 H2. generalize (updateBombs (geom g) (Qmin dt (1 / 30)) bs ps1).2.
  generalize ps1. generalize (players g). clear. unfold R.
  intros l1 l2 l3 H H1. revert l3. induction H1; intros l3 H2; inversion H2; subst.
  - constructor.
  - inversion H; subst. constructor; auto.
Qed.

Lemma updateGame_limits_witness :
  Forall (fun e : string * Player => withinLimits e.2)
         (players (updateGame fixedTimestep demoResting)).
Proof.
  apply updateGame_limits.
  - unfold fixedTimestep. lra.
  - constructor; [|constructor]. unfold withinLimits. cbn.
    unfold JUMP_PAD_BOUNCE, MAX_FALL_SPEED, MAX_JUMPS. repeat apply conj; try lra; lia.
Defined.

Lemma setBlockColor_keeps row col color g :
  let g' := setBlockColor row col color g in
  thrownBombs g' = thrownBombs g /\ playerInputs g' = playerInputs g /\
  lastProcessedSequence g' = lastProcessedSequence g /\
  spawnIndices g' = spawnIndices g /\ mapData g' = mapData g.
Proof.
  cbv zeta. unfold setBlockColor.
  repeat match goal with
         | |- context [match ?c with _ => _ end] => destruct c
         end; cbn; auto.
Qed.

Lemma paint_fold_keeps (ts : list ((nat * nat) * (Team * string))) g :
  let g' := fold_left (fun g' (t : (nat * nat) * (Team * string)) =>
                         setBlockColor (Z.of_nat t.1.1) (Z.of_nat t.1.2) (painted t.2.1) g')
                      ts g in
  thrownBombs g' = thrownBombs g /\ playerInputs g' = playerInputs g /\
  lastProcessedSequence g' = lastProcessedSequence g /\
  spawnIndices g' = spawnIndices g /\ mapData g' = mapData g.
Proof.
  cbv zeta. revert g. induction ts as [|t ts IH]; intros g; cbn [fold_left]; [auto|].
  destruct (IH (setBlockColor (Z.of_nat t.1.1) (Z.of_nat t.1.2) (painted t.2.1) g))
    as (-> & -> & -> & -> & ->).
  apply setBlockColor_keeps.
Qed.

Lemma samePlayer_refl e : samePlayer e e.
Proof. unfold samePlayer. auto. Qed.

Lemma samePlayer_trans a b c : samePlayer a b -> samePlayer b c -> samePlayer a c.
Proof.
  unfold samePlayer. intros (A1 & A2 & A3 & A4) (B1 & B2 & B3 & B4).
  repeat apply conj; try congruence. auto.
Qed.

Lemma Forall2_chain {A : Type} (R : A -> A -> Prop) :
  (forall a b c, R a b -> R b c -> R a c) ->
  forall l1 l2 l3, Forall2 R l1 l2 -> Forall2 R l2 l3 -> Forall2 R l1 l3.
Proof.
  intros Ht l1 l2 l3 H1. revert l3.
  induction H1; intros l3 H2; inversion H2; subst; constructor; eauto.
Qed.

Lemma pickUp_ids m b ps : bm_id (pickUp m b ps).1 = bm_id b.
Proof.
  revert b. induction ps as [|[pid p] ps IH]; intros b; cbn [pickUp]; [reflexivity|].
  destruct (negb (p_hasBomb p) && checkBombCollision m p b); cbn [fst]; rewrite IH;
    reflexivity.
Qed.

Lemma tickRespawn_id dt b : bm_id (tickRespawn dt b) = bm_id b.
Proof.
  unfold tickRespawn. cbv zeta.
  repeat match goal with
         | |- context [match ?c with _ => _ end] => destruct c
         end; reflexivity.
Qed.

Lemma updateBombs_ids m dt bs ps : map bm_id (updateBombs m dt bs ps).1 = map bm_id bs.
Proof.
  revert ps. induction bs as [|b bs IH]; intros ps; cbn [updateBombs fst map];
    [reflexivity|].
  rewrite IH. f_equal.
  destruct (negb (bm_collected (tickRespawn dt b))); cbn [fst].
  - rewrite pickUp_ids. apply tickRespawn_id.
  - apply tickRespawn_id.
Qed.

Lemma stepPlayers_inputs m dt ps inputs si pid :
  is_Some ((stepPlayers m dt ps inputs si).1.2 !! pid) <-> is_Some (inputs !! pid).
Proof.
  revert inputs si. induction ps as [|[pid' p] ps IH]; intros inputs si;
    cbn [stepPlayers fst snd]; [reflexivity|].
  rewrite IH.
  unfold stepPlayer. cbn [st_input st_player st_spawnIndices].
  unfold applyInputState.
  destruct (inputs !! pid') as [i|] eqn:E; cbn [snd]; [|reflexivity].
  destruct (decide (pid' = pid)) as [->|Hne].
  - rewrite lookup_insert_eq, E. split; intros _; eauto.
  - rewrite lookup_insert_ne by exact Hne. reflexivity.
Qed.

(** X5.  A tick never adds, removes or reorders players, never changes a
    player's identity or team and never takes a bomb from a player.  It
    never adds or removes a pickup bomb, never adds a thrown bomb, and gives
    an input state to no player that had none (nor removes one). *)
Theorem updateGame_roster (dt : Q) (g : GameServer) :
  Forall2 samePlayer (players g) (players (updateGame dt g)) /\
  map bm_id (bombs (updateGame dt g)) = map bm_id (bombs g) /\
  (length (thrownBombs (updateGame dt g)) <= length (thrownBombs g))%nat /\
  (forall pid, is_Some (playerInputs (updateGame dt g) !! pid)
               <-> is_Some (playerInputs g !! pid)) /\
  lastProcessedSequence (updateGame dt g) = lastProcessedSequence g.
Proof.
  repeat apply conj.
  - destruct (updateGame_players dt g) as (ps1 & E1 & bs & ->).
    apply (Forall2_chain samePlayer samePlayer_trans _ ps1).
    + subst ps1. apply stepPlayers_Forall2. intros pid p inp si.
      destruct (stepPlayer_identity (geom g) (Qmin dt (1 / 30)) (mkStep p inp si))
        as (E1 & E2 & E3).
      unfold samePlayer. cbn [fst snd st_player] in *. rewrite E1, E2, E3. auto.
    + apply updateBombs_Forall2.
      * apply samePlayer_refl.
      * intros pid p. unfold samePlayer. cbn. auto.
      * apply samePlayer_trans.
  - unfold updateGame. cbv zeta. cbn [bombs setBombs setPlayers].
    rewrite updateBombs_ids.
    match goal with
    | |- context [bombs (fold_left ?f ?ts ?g0)] =>
        let E := fresh "E" in
        destruct (paint_fold_frame ts g0) as (_ & _ & _ & _ & E); cbv zeta in E; rewrite E
    end.
    reflexivity.
  - unfold updateGame. cbv zeta. cbn [thrownBombs setBombs setPlayers].
    match goal with
    | |- context [thrownBombs (fold_left ?f ?ts ?g0)] =>
        let E := fresh "E" in
        destruct (paint_fold_keeps ts g0) as (E & _); cbv zeta in E; rewrite E
    end.
    cbn [thrownBombs setThrownBombs setSpawnIndices setPlayerInputs setPlayers].
    etransitivity; [apply filter_length_le|]. rewrite length_map. lia.
  - intros pid. unfold updateGame. cbv zeta. cbn [playerInputs setBombs setPlayers].
    match goal with
    | |- context [playerInputs (fold_left ?f ?ts ?g0)] =>
        let E := fresh "E" in
        destruct (paint_fold_keeps ts g0) as (_ & E & _); cbv zeta in E; rewrite E
    end.
    cbn [playerInputs setThrownBombs setSpawnIndices setPlayerInputs setPlayers].
    apply stepPlayers_inputs.
  - unfold updateGame. cbv zeta. cbn [lastProcessedSequence setBombs setPlayers].
    match goal with
    | |- context [lastProcessedSequence (fold_left ?f ?ts ?g0)] =>
        let E := fresh "E" in
        destruct (paint_fold_keeps ts g0) as (_ & _ & E & _); cbv zeta in E; rewrite E
    end.
    reflexivity.
Qed.

(** ** The jump key is edge-triggered *)

Lemma applyMovement_keys m dt i i' p :
  i_a i' = i_a i -> i_d i' = i_d i -> applyMovement m dt i' p = applyMovement m dt i p.
Proof. intros Ea Ed. unfold applyMovement. rewrite Ea, Ed. reflexivity. Qed.

Lemma processJumpInput_latch m i p :
  (processJumpInput m i p).2 = setWasPressingW (i_w i) i.
Proof.
  unfold processJumpInput. cbv zeta.
  repeat match goal with
         | |- context [match ?c with _ => _ end] => destruct c
         end; reflexivity.
Qed.

Lemma processJumpInput_held m i p :
  i_w i = false \/ i_wasPressingW i = true -> (processJumpInput m i p).1 = p.
Proof.
  intros H. unfold processJumpInput. cbv zeta.
  destruct H as [-> | ->]; [reflexivity|].
  rewrite andb_false_r. reflexivity.
Qed.

Lemma stepPlayer_not_pressed m dt p i si :
  i_w i = false \/ i_wasPressingW i = true ->
  st_player (stepPlayer m dt (mkStep p (Some i) si))
  = st_player (stepPlayer m dt (mkStep p (Some (releaseW i)) si)) /\
  st_spawnIndices (stepPlayer m dt (mkStep p (Some i) si))
  = st_spawnIndices (stepPlayer m dt (mkStep p (Some (releaseW i)) si)).
Proof.
  intros H.
  assert (E : (applyInputState m dt (Some i) (groundCheck m p)).1
              = (applyInputState m dt (Some (releaseW i)) (groundCheck m p)).1).
  { unfold applyInputState. cbn [fst].
    rewrite (applyMovement_keys m dt i (releaseW i)) by reflexivity.
    rewrite !processJumpInput_held; [reflexivity| |].
    - left. reflexivity.
    - exact H. }
  unfold stepPlayer. cbn [st_player st_input st_spawnIndices].
  rewrite E. split; reflexivity.
Qed.

Lemma stepPlayer_latch m dt p i si :
  st_input (stepPlayer m dt (mkStep p (Some i) si)) = Some (setWasPressingW (i_w i) i).
Proof.
  unfold stepPlayer. cbn [st_input]. unfold applyInputState. cbn [snd].
  rewrite processJumpInput_latch. reflexivity.
Qed.

(** X6.  Jumping is edge-triggered.  Every tick, whatever the input state,
    leaves the key as it is and the latch equal to the key.  A tick in which
    the jump key is not freshly pressed (released, or held with the latch
    set) changes the player and the spawn counters as if the key were
    released.  So the tick that follows any tick -- also the one in which
    the key was freshly pressed and the player jumped -- treats a key still
    held as released, from whatever player state, and leaves the input
    state as it is.  A repeated key-down event on a held jump key sets the
    latch, so neither holding the key nor keyboard auto-repeat makes the
    player jump again. *)
Theorem held_jump_key_ignored (m : MapGeom) (dt dt2 : Q) (p p2 : Player) (i : InputState)
    (si si2 : SpawnIndices) :
  let s' := stepPlayer m dt (mkStep p (Some i) si) in
  let s0 := stepPlayer m dt (mkStep p (Some (releaseW i)) si) in
  let i' := mkInput (i_a i) (i_d i) (i_w i) (i_s i) (i_w i) (i_wasPressingS i) in
  st_input s' = Some i' /\
  (i_w i = false \/ i_wasPressingW i = true ->
     st_player s' = st_player s0 /\ st_spawnIndices s' = st_spawnIndices s0) /\
  (let t' := stepPlayer m dt2 (mkStep p2 (Some i') si2) in
   let t0 := stepPlayer m dt2 (mkStep p2 (Some (releaseW i')) si2) in
   st_player t' = st_player t0 /\ st_spawnIndices t' = st_spawnIndices t0 /\
   st_input t' = Some i') /\
  (i_w i = true ->
   forall k, toLowerCase k = "w"%string ->
     exists i2, applyEvent i (mkEvent (KeyString k) true) = Returned i2 /\
                i_w i2 = true /\ i_wasPressingW i2 = true).
Proof.
  cbv zeta. split; [apply stepPlayer_latch|]. split; [apply stepPlayer_not_pressed|].
  split.
  - set (i' := mkInput (i_a i) (i_d i) (i_w i) (i_s i) (i_w i) (i_wasPressingS i)).
    assert (H : i_w i' = false \/ i_wasPressingW i' = true).
    { unfold i'. cbn. destruct (i_w i); auto. }
    destruct (stepPlayer_not_pressed m dt2 p2 i' si2 H) as [H1 H2].
    split; [exact H1|]. split; [exact H2|]. apply stepPlayer_latch.
  - intros Hw k Hk. unfold applyEvent. cbn [ev_key ev_pressed]. rewrite Hk.
    cbn. eexists. split; [reflexivity|]. cbn. rewrite Hw. auto.
Qed.

Lemma held_jump_key_ignored_witness :
  let s1 := stepPlayer demoGeom fixedTimestep
              (mkStep playerOnBlock (Some jumpPressed) (mkIdx 0 0)) in
  st_player (stepPlayer demoGeom fixedTimestep (mkStep playerOnBlock (Some jumpHeld) (mkIdx 0 0)))
  = st_player (stepPlayer demoGeom fixedTimestep
                 (mkStep playerOnBlock (Some (releaseW jumpHeld)) (mkIdx 0 0))) /\
  st_input s1 = Some jumpHeld /\
  st_player (stepPlayer demoGeom fixedTimestep
               (mkStep (st_player s1) (Some jumpHeld) (st_spawnIndices s1)))
  = st_player (stepPlayer demoGeom fixedTimestep
                 (mkStep (st_player s1) (Some (releaseW jumpHeld)) (st_spawnIndices s1))) /\
  p_velocityY (st_player s1) < 0.
Proof.
  cbv zeta.
  destruct (held_jump_key_ignored demoGeom fixedTimestep fixedTimestep playerOnBlock
              playerOnBlock jumpHeld (mkIdx 0 0) (mkIdx 0 0)) as (_ & H1 & _).
  destruct (held_jump_key_ignored demoGeom fixedTimestep fixedTimestep playerOnBlock
              (st_player (stepPlayer demoGeom fixedTimestep
                            (mkStep playerOnBlock (Some jumpPressed) (mkIdx 0 0))))
              jumpPressed (mkIdx 0 0)
              (st_spawnIndices (stepPlayer demoGeom fixedTimestep
                                  (mkStep playerOnBlock (Some jumpPressed) (mkIdx 0 0)))))
    as (H2 & _ & (H3 & _) & _).
  split; [apply H1; right; reflexivity|]. split; [exact H2|]. split; [exact H3|].
  vm_compute. reflexivity.
Defined.

(** ** Batches of input events *)

Lemma applyEvent_keys st e st' :
  applyEvent st e = Returned st' ->
  i_a st' = (if keyIs "a" e then ev_pressed e else i_a st) /\
  i_d st' = (if keyIs "d" e then ev_pressed e else i_d st) /\
  i_w st' = (if keyIs "w" e then ev_pressed e else i_w st) /\
  i_s st' = (if keyIs "s" e then ev_pressed e else i_s st).
Proof.
  unfold applyEvent, keyIs. destruct (ev_key e) as [k|]; [|discriminate].
  cbv zeta. generalize (toLowerCase k). intros key.
  destruct (String.eqb key "a") eqn:Ea.
  { apply String.eqb_eq in Ea. subst key. intros [= <-]. cbn. auto. }
  destruct (String.eqb key "d") eqn:Ed.
  { apply String.eqb_eq in Ed. subst key. intros [= <-]. cbn. auto. }
  destruct (String.eqb key "w") eqn:Ew.
  { apply String.eqb_eq in Ew. subst key. intros [= <-]. cbn. auto. }
  destruct (String.eqb key "s") eqn:Es.
  { apply String.eqb_eq in Es. subst key. intros [= <-]. cbn. auto. }
  intros [= <-]. auto.
Qed.

Lemma applyEvent_wellFormed st e :
  wellFormed e -> exists st', applyEvent st e = Returned st'.
Proof.
  unfold wellFormed, applyEvent. destruct (ev_key e) as [k|]; [|congruence].
  intros _. cbv zeta.
  repeat match goal with
         | |- context [if ?c then _ else _] => destruct c
         end; eauto.
Qed.

Lemma applyEvents_app evs1 evs2 st st1 :
  applyEvents evs1 st = Returned st1 ->
  applyEvents (evs1 ++ evs2) st = applyEvents evs2 st1.
Proof.
  revert st. induction evs1 as [|e evs1 IH]; intros st; cbn [applyEvents app].
  - intros [= ->]. reflexivity.
  - destruct (applyEvent st e); [apply IH|discriminate].
Qed.

Lemma applyEvents_wellFormed evs st :
  Forall wellFormed evs -> exists st', applyEvents evs st = Returned st'.
Proof.
  intros H. revert st. induction H as [|e evs He _ IH]; intros st; cbn [applyEvents].
  - eauto.
  - destruct (applyEvent_wellFormed st e He) as (st1 & ->). apply IH.
Qed.

(** X7.  In a batch of well-formed events the last event for a key wins:
    after [applyInputs], each of the keys a, d, w and s is in the state given
    by the last event of the batch that names it (in either case), and in
    its former state when no event names it.  The call returns normally. *)
Theorem applyInputs_last_event_wins (playerId : string) (evs : list InputEvent)
    (clientTime : Q) (sequence : option Z) (g : GameServer) (p : Player)
    (st : InputState) :
  omGet playerId (players g) = Some p ->
  playerInputs g !! playerId = Some st ->
  Forall wellFormed evs ->
  exists g' st',
    applyInputs playerId evs clientTime sequence g = Returned g' /\
    playerInputs g' !! playerId = Some st' /\
    i_a st' = lastPressed "a" evs (i_a st) /\
    i_d st' = lastPressed "d" evs (i_d st) /\
    i_w st' = lastPressed "w" evs (i_w st) /\
    i_s st' = lastPressed "s" evs (i_s st).
Proof.
  intros Hp Hst Hwf. unfold applyInputs. rewrite Hp, Hst. cbv zeta.
  assert (H : exists st', applyEvents evs st = Returned st' /\
                i_a st' = lastPressed "a" evs (i_a st) /\
                i_d st' = lastPressed "d" evs (i_d st) /\
                i_w st' = lastPressed "w" evs (i_w st) /\
                i_s st' = lastPressed "s" evs (i_s st)).
  { clear Hst. revert st. induction Hwf as [|e evs He _ IH]; intros st.
    - exists st. cbn. auto.
    - destruct (applyEvent_wellFormed st e He) as (st1 & E1).
      destruct (applyEvent_keys st e st1 E1) as (Ka & Kd & Kw & Ks).
      destruct (IH st1) as (st' & E' & Ha & Hd & Hw & Hs).
      exists st'. cbn [applyEvents]. rewrite E1.
      unfold lastPressed in *. cbn [fold_left].
      rewrite <- Ka, <- Kd, <- Kw, <- Ks. auto. }
  destruct H as (st' & -> & Ha & Hd & Hw & Hs).
  eexists. exists st'. split; [reflexivity|].
  cbn [playerInputs setLastProcessedSequence setPlayerInputs].
  rewrite lookup_insert_eq. auto.
Qed.

Lemma applyInputs_last_event_wins_witness :
  exists g' st',
    applyInputs "p1" [mkEvent (KeyString "A") true; mkEvent (KeyString "d") true;
                      mkEvent (KeyString "a") false] 0 None demoServer1 = Returned g' /\
    playerInputs g' !! "p1" = Some st' /\
    i_a st' = false /\ i_d st' = true.
Proof.
  destruct (applyInputs_last_event_wins "p1"
              [mkEvent (KeyString "A") true; mkEvent (KeyString "d") true;
               mkEvent (KeyString "a") false] 0 None demoServer1
              (mkPlayer "p1" red (startX demoGeom + 10 * blockWidth demoGeom
                                  + blockWidth demoGeom / 2)
                        (startY demoGeom + 19 * blockHeight demoGeom)
                        0 false false 0 false)
              defaultInput)
    as (g' & st' & E & El & Ha & Hd & _).
  - reflexivity.
  - reflexivity.
  - repeat constructor; discriminate.
  - exists g', st'. repeat split; assumption.
Defined.

(** X8.  A malformed event cuts the batch: when the events before it are
    well formed, [applyInputs] ends by the exception in the state the call
    with those events alone would return -- they are applied, the sequence
    number is recorded, and the events after the malformed one are lost. *)
Theorem applyInputs_cut_at_malformed (playerId : string) (evs rest : list InputEvent)
    (pressed : bool) (clientTime : Q) (sequence : option Z) (g : GameServer) :
  Forall wellFormed evs ->
  is_Some (omGet playerId (players g)) ->
  exists g',
    applyInputs playerId evs clientTime sequence g = Returned g' /\
    applyInputs playerId (evs ++ mkEvent KeyOther pressed :: rest) clientTime sequence g
    = Thrown g'.
Proof.
  intros Hwf [p Hp]. unfold applyInputs. rewrite Hp. cbv zeta.
  set (st := match playerInputs g !! playerId with Some st => st | None => defaultInput end).
  destruct (applyEvents_wellFormed evs st Hwf) as (st1 & E1).
  rewrite (applyEvents_app evs _ st st1 E1). rewrite E1.
  cbn [applyEvents]. unfold applyEvent at 1. cbn [ev_key].
  eexists. split; reflexivity.
Qed.

Lemma applyInputs_cut_at_malformed_witness :
  exists g',
    applyInputs "p1" [mkEvent (KeyString "d") true] 0 (Some 4%Z) demoServer1 = Returned g' /\
    applyInputs "p1" ([mkEvent (KeyString "d") true]
                      ++ mkEvent KeyOther true :: [mkEvent (KeyString "w") true])
                0 (Some 4%Z) demoServer1 = Thrown g'.
Proof.
  apply applyInputs_cut_at_malformed.
  - repeat constructor; discriminate.
  - eexists. reflexivity.
Defined.

(** ** Thrown bombs *)

Lemma setBlockColor_thrown row col color v g :
  setBlockColor row col color (setThrownBombs v g)
  = setThrownBombs v (setBlockColor row col color g).
Proof.
  unfold setBlockColor. cbn [geom setThrownBombs].
  destruct (_ || _); [reflexivity|].
  destruct (blockAt _ _ _); [|reflexivity].
  unfold colorAt. cbn [blockColors setThrownBombs].
  destruct (bool_decide _); [reflexivity|].
  destruct (isAtSpawn _ _ _); reflexivity.
Qed.

Lemma paint_fold_thrown (ts : list ((nat * nat) * (Team * string))) v g :
  fold_left (fun g' (t : (nat * nat) * (Team * string)) =>
               setBlockColor (Z.of_nat t.1.1) (Z.of_nat t.1.2) (painted t.2.1) g')
            ts (setThrownBombs v g)
  = setThrownBombs v
      (fold_left (fun g' (t : (nat * nat) * (Team * string)) =>
                    setBlockColor (Z.of_nat t.1.1) (Z.of_nat t.1.2) (painted t.2.1) g')
                 ts g).
Proof.
  revert g. induction ts as [|t ts IH]; intros g; cbn [fold_left]; [reflexivity|].
  rewrite setBlockColor_thrown. apply IH.
Qed.

Lemma updateGame_thrown dt g :
  updateGame dt g
  = setThrownBombs
      (List.filter thrownKept (map (advanceThrown (Qmin dt (1 / 30))) (thrownBombs g)))
      (updateGame dt (setThrownBombs [] g)).
Proof.
  unfold updateGame. cbv zeta.
  change (geom (setThrownBombs [] g)) with (geom g).
  change (players (setThrownBombs [] g)) with (players g).
  change (playerInputs (setThrownBombs [] g)) with (playerInputs g).
  change (spawnIndices (setThrownBombs [] g)) with (spawnIndices g).
  set (r := stepPlayers (geom g) (Qmin dt (1 / 30)) (players g) (playerInputs g)
              (spawnIndices g)).
  change (setSpawnIndices r.2 (setPlayerInputs r.1.2 (setPlayers r.1.1 (setThrownBombs [] g))))
    with (setThrownBombs [] (setSpawnIndices r.2 (setPlayerInputs r.1.2 (setPlayers r.1.1 g)))).
  set (G1 := setSpawnIndices r.2 (setPlayerInputs r.1.2 (setPlayers r.1.1 g))).
  change (thrownBombs (setThrownBombs [] G1)) with (@nil ThrownBomb).
  change (thrownBombs G1) with (thrownBombs g).
  cbn [map List.filter].
  change (players (setThrownBombs ?v G1)) with (players G1).
  rewrite !paint_fold_thrown.
  reflexivity.
Qed.

Lemma setThrownBombs_twice v1 v2 g :
  setThrownBombs v1 (setThrownBombs v2 g) = setThrownBombs v1 g.
Proof. reflexivity. Qed.

Lemma setThrownBombs_id g : setThrownBombs (thrownBombs g) g = g.
Proof. destruct g. reflexivity. Qed.

Lemma updateGame_thrownBombs dt g :
  thrownBombs (updateGame dt g)
  = List.filter thrownKept (map (advanceThrown (Qmin dt (1 / 30))) (thrownBombs g)).
Proof. rewrite updateGame_thrown. reflexivity. Qed.

Lemma thrown_timers dt g n :
  0 <= Qmin dt (1 / 30) ->
  Forall (fun b => 0 <= tb_timer b) (thrownBombs g) ->
  Forall (fun b => inject_Z (Z.of_nat n) * Qmin dt (1 / 30) <= tb_timer b)
         (thrownBombs (Nat.iter n (updateGame dt) g)).
Proof.
  intros Hd H0. induction n as [|n IH].
  - cbn [Nat.iter]. eapply Forall_impl; [exact H0|].
    intros b Hb. cbn beta in Hb. change (inject_Z (Z.of_nat 0)) with 0. lra.
  - change (Nat.iter (S n) (updateGame dt) g)
      with (updateGame dt (Nat.iter n (updateGame dt) g)).
    rewrite updateGame_thrownBombs.
    apply Forall_forall. intros b Hb.
    apply list_elem_of_In, filter_In in Hb. destruct Hb as [Hb _].
    apply in_map_iff in Hb. destruct Hb as (b0 & <- & Hb0).
    rewrite Forall_forall in IH. specialize (IH b0 (proj2 (list_elem_of_In _ _) Hb0)).
    cbn beta in IH. unfold advanceThrown. cbn [tb_timer].
    rewrite inject_nat_succ. set (d := Qmin dt (1 / 30)) in *. clearbody d.
    set (k := inject_Z (Z.of_nat n)) in *. clearbody k.
    assert (E : (k + 1) * d == k * d + d) by ring. rewrite E. lra.
Qed.

(** X9.  Thrown bombs are inert and short-lived on the server.  Apart from
    the list of thrown bombs itself, a tick does the same whether or not
    bombs are in flight: they paint nothing, hit nothing and are never marked
    exploded.  Each one is dropped once its timer exceeds 2 s (or it falls
    below y = 1200), so after [n] ticks with [n * min(dt, 1/30) > 2] none of
    the bombs in flight is left. *)
Theorem thrown_bombs_inert (dt : Q) (g : GameServer) (n : nat) :
  0 <= dt ->
  Forall (fun b => 0 <= tb_timer b) (thrownBombs g) ->
  2 < inject_Z (Z.of_nat n) * Qmin dt (1 / 30) ->
  setThrownBombs [] (updateGame dt g) = updateGame dt (setThrownBombs [] g) /\
  Forall (fun b => exists b0, b0 ∈ thrownBombs g /\ tb_exploded b = tb_exploded b0 /\
                              tb_team b = tb_team b0 /\ tb_playerId b = tb_playerId b0)
         (thrownBombs (updateGame dt g)) /\
  thrownBombs (Nat.iter n (updateGame dt) g) = [].
Proof.
  intros Hdt H0 Hn. repeat apply conj.
  - rewrite (updateGame_thrown dt g).
    assert (E : thrownBombs (updateGame dt (setThrownBombs [] g)) = [])
      by (rewrite updateGame_thrownBombs; reflexivity).
    revert E. generalize (updateGame dt (setThrownBombs [] g)). intros U E.
    rewrite setThrownBombs_twice, <- E. apply setThrownBombs_id.
  - rewrite updateGame_thrownBombs. apply Forall_forall. intros b Hb.
    apply list_elem_of_In, filter_In in Hb. destruct Hb as [Hb _].
    apply in_map_iff in Hb. destruct Hb as (b0 & <- & Hb0).
    exists b0. split; [apply list_elem_of_In; exact Hb0|]. cbn. auto.
  - assert (Hd : 0 <= Qmin dt (1 / 30))
      by (apply Q.min_glb; [exact Hdt|vm_compute; discriminate]).
    destruct n as [|n].
    { exfalso. change (inject_Z (Z.of_nat 0)) with 0 in Hn. lra. }
    change (Nat.iter (S n) (updateGame dt) g)
      with (updateGame dt (Nat.iter n (updateGame dt) g)).
    rewrite updateGame_thrownBombs.
    pose proof (thrown_timers dt g n Hd H0) as Ht.
    rewrite inject_nat_succ in Hn.
    revert Ht. generalize (thrownBombs (Nat.iter n (updateGame dt) g)).
    intros l Hl. induction Hl as [|b l Hb _ IH]; [reflexivity|].
    cbn [map List.filter].
    assert (Ek : thrownKept (advanceThrown (Qmin dt (1 / 30)) b) = false).
    { unfold thrownKept. apply negb_false_iff. apply orb_true_iff. left.
      apply orb_true_iff. right. apply Qgtb_spec.
      unfold advanceThrown. cbn [tb_timer].
      set (d := Qmin dt (1 / 30)) in *. clearbody d.
      set (k := inject_Z (Z.of_nat n)) in *. clearbody k.
      assert (E : (k + 1) * d == k * d + d) by ring. rewrite E in Hn. lra. }
    rewrite Ek. exact IH.
Qed.

Lemma thrown_bombs_inert_witness :
  thrownBombs
    (Nat.iter 121 (updateGame fixedTimestep) (throwBomb "p1" 960 400 red 1 demoServer1))
  = [].
Proof.
  apply (thrown_bombs_inert fixedTimestep (throwBomb "p1" 960 400 red 1 demoServer1) 121).
  - unfold fixedTimestep. lra.
  - unfold throwBomb. cbn [thrownBombs setPlayers setThrownBombs].
    change (thrownBombs demoServer1) with (@nil ThrownBomb).
    repeat constructor. cbn [tb_timer]. lra.
  - vm_compute. reflexivity.
Defined.

(** ** Pickup bombs *)

Lemma pickUp_spec m b ps :
  (pickUp m b ps).2
  = map (fun e : string * Player =>
           (e.1, if takesBomb m b e.2 then setHasBomb true e.2 else e.2)) ps /\
  (pickUp m b ps).1
  = (if existsb (fun e : string * Player => takesBomb m b e.2) ps
     then setCollected true 0 b else b).
Proof.
  revert b. induction ps as [|[pid p] ps IH]; intros b; cbn [pickUp map existsb fst snd].
  - auto.
  - change (negb (p_hasBomb p) && checkBombCollision m p b) with (takesBomb m b p).
    destruct (takesBomb m b p); cbn [fst snd orb].
    + destruct (IH (setCollected true 0 b)) as (E2 & E1). rewrite E2, E1.
      split; [reflexivity|].
      destruct (existsb _ ps); reflexivity.
    + destruct (IH b) as (E2 & E1). rewrite E2, E1. auto.
Qed.

(** X10.  An available pickup bomb is taken by every player without a bomb
    that overlaps it in the tick, not only by the first: each of them gets
    [hasBomb], players that hold a bomb or do not overlap are unchanged, and
    the bomb is marked collected with its respawn timer at 0 exactly when
    some player took it. *)
Theorem bomb_taken_by_all (m : MapGeom) (b : Bomb) (ps : list (string * Player)) :
  (pickUp m b ps).2
  = map (fun e : string * Player =>
           (e.1, if takesBomb m b e.2 then setHasBomb true e.2 else e.2)) ps /\
  (pickUp m b ps).1
  = (if existsb (fun e : string * Player => takesBomb m b e.2) ps
     then setCollected true 0 b else b) /\
  (forall pid p, (pid, p) ∈ ps -> takesBomb m b p = true ->
     (pid, setHasBomb true p) ∈ (pickUp m b ps).2 /\
     bm_collected (pickUp m b ps).1 = true /\ bm_respawnTimer (pickUp m b ps).1 = 0).
Proof.
  destruct (pickUp_spec m b ps) as (E2 & E1). repeat apply conj; [exact E2|exact E1|].
  intros pid p Hin Ht. rewrite E2, E1. repeat apply conj.
  - apply list_elem_of_fmap. exists (pid, p). cbn [fst snd]. rewrite Ht. auto.
  - assert (Ex : existsb (fun e : string * Player => takesBomb m b e.2) ps = true).
    { apply existsb_exists. exists (pid, p). split; [apply list_elem_of_In; exact Hin|exact Ht]. }
    rewrite Ex. reflexivity.
  - assert (Ex : existsb (fun e : string * Player => takesBomb m b e.2) ps = true).
    { apply existsb_exists. exists (pid, p). split; [apply list_elem_of_In; exact Hin|exact Ht]. }
    rewrite Ex. reflexivity.
Qed.




(** ** Writing a block colour *)

Lemma setAdd_idem {K : Type} `{EqDecision K} (k : K) (l : list K) :
  setAdd k (setAdd k l) = setAdd k l.
Proof.
  unfold setAdd at 1.
  rewrite bool_decide_eq_true_2 by (apply setAdd_spec; auto). reflexivity.
Qed.

Lemma setAdd_NoDup {K : Type} `{EqDecision K} (k : K) (l : list K) :
  NoDup l -> NoDup (setAdd k l).
Proof.
  intros H. unfold setAdd. destruct (bool_decide (k ∈ l)) eqn:E; [exact H|].
  apply bool_decide_eq_false in E.
  apply NoDup_app. repeat apply conj.
  - exact H.
  - intros x Hx Hx'. apply list_elem_of_singleton in Hx'. subst. contradiction.
  - apply NoDup_singleton.
Qed.

Lemma writeColor_unallocated r c color cs :
  colorIn cs r c = None -> writeColor r c color cs = cs.
Proof.
  unfold writeColor, colorIn. destruct (cs !! r) as [line|] eqn:E; [|reflexivity].
  intros Hc. apply lookup_ge_None in Hc.
  rewrite (list_insert_ge line c color Hc). apply list_insert_id. exact E.
Qed.

Lemma writeColor_twice r c color cs :
  writeColor r c color (writeColor r c color cs) = writeColor r c color cs.
Proof.
  destruct (colorIn cs r c) as [x|] eqn:Hc.
  - unfold writeColor at 2. unfold colorIn in Hc.
    destruct (cs !! r) as [line|] eqn:E; [|discriminate].
    unfold writeColor. rewrite E.
    rewrite list_lookup_insert_eq by (eapply lookup_lt_Some; eauto).
    rewrite list_insert_insert_eq. f_equal. apply list_insert_insert_eq.
  - rewrite (writeColor_unallocated r c color cs Hc).
    apply writeColor_unallocated. exact Hc.
Qed.

Lemma writeColor_shape r c color cs r' c' :
  is_Some (colorIn (writeColor r c color cs) r' c') <-> is_Some (colorIn cs r' c').
Proof.
  destruct (decide ((r, c) = (r', c'))) as [[= <- <-]|Hne].
  - destruct (colorIn cs r c) as [x|] eqn:Hc.
    + rewrite writeColor_same by (rewrite Hc; eauto). split; eauto.
    + rewrite writeColor_unallocated by exact Hc. rewrite Hc. reflexivity.
  - rewrite writeColor_other by exact Hne. reflexivity.
Qed.

Lemma hasBlock_dec m row col : hasBlock m row col \/ ~ hasBlock m row col.
Proof.
  unfold hasBlock.
  destruct (decide (0 <= row < mapRows m)%Z); [|right; tauto].
  destruct (decide (0 <= col < mapCols m)%Z); [|right; tauto].
  destruct (blockAt m (Z.to_nat row) (Z.to_nat col)) as [b|].
  - left. eauto.
  - right. intros (_ & _ & [? ?]). discriminate.
Qed.

Lemma setBlockColor_outside row col color g :
  ~ hasBlock (geom g) row col -> setBlockColor row col color g = g.
Proof.
  intros Hn. unfold setBlockColor.
  destruct (Z.ltb row 0 || Z.geb row (mapRows (geom g)) ||
            Z.ltb col 0 || Z.geb col (mapCols (geom g))) eqn:Er; [reflexivity|].
  destruct (blockAt (geom g) (Z.to_nat row) (Z.to_nat col)) eqn:Eb; [|reflexivity].
  exfalso. apply Hn. unfold hasBlock. rewrite Eb.
  repeat (apply orb_false_iff in Er; destruct Er as [Er ?]).
  repeat apply conj; try lia; eauto.
Qed.

Lemma setBlockColor_inside row col color g :
  hasBlock (geom g) row col ->
  setBlockColor row col color g
  = (if bool_decide (colorAt g (Z.to_nat row) (Z.to_nat col) <> Some color) then
       setChangedBlocks (setAdd (row, col) (changedBlocks g))
         (setBlockColors (writeColor (Z.to_nat row) (Z.to_nat col) color (blockColors g)) g)
     else if isAtSpawn (geom g) row col then
       setChangedBlocks (setAdd (row, col) (changedBlocks g)) g
     else g).
Proof.
  intros (Hr & Hc & [b Hb]). unfold setBlockColor.
  assert (Er : Z.ltb row 0 || Z.geb row (mapRows (geom g)) ||
               Z.ltb col 0 || Z.geb col (mapCols (geom g)) = false).
  { repeat (apply orb_false_iff; split); lia. }
  rewrite Er, Hb. reflexivity.
Qed.

(** X12.  [setBlockColor] writes one cell and only where there is a block:
    on a block of the grid the cell takes the colour and every other cell
    keeps its own; anywhere else (outside the grid, or on an empty cell) the
    call changes nothing at all.  Calling it twice in a row is the same as
    calling it once. *)
Theorem setBlockColor_writes_one_cell (row col : Z) (color : Color) (g : GameServer) :
  let g' := setBlockColor row col color g in
  (hasBlock (geom g) row col ->
   is_Some (colorAt g (Z.to_nat row) (Z.to_nat col)) ->
   colorAt g' (Z.to_nat row) (Z.to_nat col) = Some color) /\
  (forall r c, (r, c) <> (Z.to_nat row, Z.to_nat col) -> colorAt g' r c = colorAt g r c) /\
  (~ hasBlock (geom g) row col -> g' = g) /\
  setBlockColor row col color g' = g'.
Proof.
  cbv zeta.
  destruct (hasBlock_dec (geom g) row col) as [Hb|Hn].
  2:{ rewrite (setBlockColor_outside row col color g Hn).
      repeat apply conj; try reflexivity; try contradiction.
      apply setBlockColor_outside. exact Hn. }
  assert (Hb' : hasBlock (geom (setBlockColor row col color g)) row col)
    by (rewrite setBlockColor_geom; exact Hb).
  rewrite (setBlockColor_inside row col color (setBlockColor row col color g) Hb').
  rewrite (setBlockColor_inside row col color g Hb).
  destruct (bool_decide (colorAt g (Z.to_nat row) (Z.to_nat col) <> Some color)) eqn:Eo.
  - apply bool_decide_eq_true in Eo.
    unfold colorAt in *. cbn [blockColors geom changedBlocks setChangedBlocks setBlockColors].
    repeat apply conj.
    + intros _ Hs. apply writeColor_same. exact Hs.
    + intros r c Hne. apply writeColor_other. congruence.
    + contradiction.
    + destruct (colorIn (blockColors g) (Z.to_nat row) (Z.to_nat col)) as [x|] eqn:Hc.
      * rewrite writeColor_same by (rewrite Hc; eauto).
        rewrite bool_decide_eq_false_2 by (intros H; apply H; reflexivity).
        rewrite setAdd_idem.
        destruct (isAtSpawn (geom g) row col); reflexivity.
      * rewrite !(writeColor_unallocated _ _ color _ Hc). rewrite Hc.
        rewrite bool_decide_eq_true_2 by discriminate.
        rewrite setAdd_idem. reflexivity.
  - destruct (isAtSpawn (geom g) row col) eqn:Es.
    + cbn [geom setChangedBlocks]. unfold colorAt in *.
      cbn [blockColors changedBlocks setChangedBlocks]. rewrite Eo, Es.
      apply bool_decide_eq_false in Eo.
      repeat apply conj.
      * intros _ _. destruct (decide (colorIn (blockColors g) (Z.to_nat row) (Z.to_nat col)
                                      = Some color)); [assumption|contradiction].
      * reflexivity.
      * contradiction.
      * rewrite setAdd_idem. reflexivity.
    + rewrite Eo, Es. apply bool_decide_eq_false in Eo.
      repeat apply conj.
      * intros _ _. destruct (decide (colorAt g (Z.to_nat row) (Z.to_nat col)
                                      = Some color)); [assumption|contradiction].
      * reflexivity.
      * contradiction.
      * reflexivity.
Qed.

(** ** The dirty set lists a cell once *)

Lemma setBlockColor_NoDup row col color g :
  NoDup (changedBlocks g) -> NoDup (changedBlocks (setBlockColor row col color g)).
Proof.
  intros H. unfold setBlockColor.
  repeat match goal with
         | |- context [match ?c with _ => _ end] => destruct c
         end; cbn [changedBlocks setChangedBlocks setBlockColors];
    try exact H; apply setAdd_NoDup; exact H.
Qed.

Lemma paint_fold_NoDup (ts : list ((nat * nat) * (Team * string))) g :
  NoDup (changedBlocks g) ->
  NoDup (changedBlocks
           (fold_left (fun g' (t : (nat * nat) * (Team * string)) =>
                         setBlockColor (Z.of_nat t.1.1) (Z.of_nat t.1.2) (painted t.2.1) g')
                      ts g)).
Proof.
  revert g. induction ts as [|t ts IH]; intros g H; cbn [fold_left]; [exact H|].
  apply IH. apply setBlockColor_NoDup. exact H.
Qed.

Lemma resetFold_NoDup es g :
  NoDup (changedBlocks g) -> NoDup (changedBlocks (fold_left resetBlock es g)).
Proof.
  revert g. induction es as [|e es IH]; intros g H; cbn [fold_left]; [exact H|].
  apply IH. unfold resetBlock. cbn [changedBlocks setChangedBlocks].
  apply setAdd_NoDup. exact H.
Qed.

Lemma pushFold_cells g keys acc :
  map changeCell (fold_left (pushChange g) keys acc)
  = map changeCell acc
    ++ List.filter (fun key : Z * Z =>
                      Z.geb key.1 0 && Z.ltb key.1 (mapRows (geom g)) &&
                      Z.geb key.2 0 && Z.ltb key.2 (mapCols (geom g))) keys.
Proof.
  revert acc. induction keys as [|[row col] keys IH]; intros acc; cbn [fold_left List.filter].
  - rewrite app_nil_r. reflexivity.
  - rewrite IH. unfold pushChange. cbn [fst snd].
    destruct (Z.geb row 0 && Z.ltb row (mapRows (geom g)) &&
              Z.geb col 0 && Z.ltb col (mapCols (geom g))).
    + rewrite map_app. cbn [map]. unfold changeCell at 2. cbn [bc_row bc_col].
      rewrite <- app_assoc. reflexivity.
    + reflexivity.
Qed.

(** X13.  The dirty set holds a cell at most once, whatever writes to it:
    [setBlockColor], [resetAllBlocks] and the tick keep it free of
    duplicates, so a snapshot lists every changed cell once. *)
Theorem changed_cell_listed_once (g : GameServer) (row col : Z) (color : Color)
    (dt : Q) (t : Z) :
  NoDup (changedBlocks g) ->
  NoDup (changedBlocks (setBlockColor row col color g)) /\
  NoDup (changedBlocks (resetAllBlocks g)) /\
  NoDup (changedBlocks (updateGame dt g)) /\
  NoDup (map changeCell (snap_blockChanges (getSnapshot t g).1)).
Proof.
  intros H. repeat apply conj.
  - apply setBlockColor_NoDup. exact H.
  - apply resetFold_NoDup. exact H.
  - unfold updateGame. cbv zeta. cbn [changedBlocks setPlayers setBombs].
    apply paint_fold_NoDup. exact H.
  - unfold getSnapshot. cbv zeta. cbn [fst snap_blockChanges].
    rewrite pushFold_cells. cbn [map app].
    apply NoDup_ListNoDup. apply List.NoDup_filter. apply NoDup_ListNoDup. exact H.
Qed.

Lemma changed_cell_listed_once_witness :
  NoDup (map changeCell
           (snap_blockChanges (getSnapshot 0 (setBlockColor 20 30 (painted red) demoServer)).1)).
Proof.
  destruct (changed_cell_listed_once demoServer 20 30 (painted red) 0 0) as (H1 & _).
  { change (changedBlocks demoServer) with (@nil (Z * Z)). constructor. }
  destruct (changed_cell_listed_once (setBlockColor 20 30 (painted red) demoServer)
              0 0 white 0 0 H1) as (_ & _ & _ & H4).
  exact H4.
Defined.

(** ** The score *)

Lemma count_fold g es a :
  fold_left (fun acc (e : nat * nat * Block) =>
               match colorAt g e.1.1 e.1.2 with
               | Some (painted red) => (S acc.1, acc.2)
               | Some (painted blue) => (acc.1, S acc.2)
               | _ => acc
               end) es a
  = ((a.1 + length (List.filter (fun e : nat * nat * Block =>
                       bool_decide (colorAt g e.1.1 e.1.2 = Some (painted red))) es))%nat,
     (a.2 + length (List.filter (fun e : nat * nat * Block =>
                       bool_decide (colorAt g e.1.1 e.1.2 = Some (painted blue))) es))%nat).
Proof.
  revert a. induction es as [|e es IH]; intros [a1 a2]; cbn [fold_left List.filter length fst snd].
  - rewrite !Nat.add_0_r. reflexivity.
  - rewrite IH.
    destruct (colorAt g e.1.1 e.1.2) as [[|[|]]|]; cbn [fst snd];
      repeat case_bool_decide; try congruence; cbn [length]; f_equal; lia.
Qed.

Lemma resetFold_not_painted es g row col t :
  (exists e, e ∈ es /\ (e.1.1, e.1.2) = (row, col)) ->
  colorAt (fold_left resetBlock es g) row col <> Some (painted t).
Proof.
  intros He.
  destruct (colorAt g row col) as [x|] eqn:Hc.
  - rewrite resetFold_white; [discriminate|].
    right. split; [exact He|]. rewrite Hc. eauto.
  - assert (Hn : colorAt (fold_left resetBlock es g) row col = None).
    { clear He. revert g Hc. induction es as [|e es IH]; intros g Hc; cbn [fold_left];
        [exact Hc|].
      apply IH. unfold resetBlock, colorAt.
      cbn [blockColors setChangedBlocks setBlockColors].
      apply eq_None_not_Some. rewrite writeColor_shape.
      unfold colorAt in Hc. rewrite Hc. intros [? ?]. discriminate. }
    rewrite Hn. discriminate.
Qed.

(** X14.  The score of a team is the number of blocks of its colour; the two
    scores together never exceed the number of blocks, and after
    [resetAllBlocks] both are 0. *)
Theorem score_counts_painted_blocks (g : GameServer) :
  countBlocksByTeam g = (length (blocksOf red g), length (blocksOf blue g)) /\
  ((countBlocksByTeam g).1 + (countBlocksByTeam g).2
   <= length (blockEntries (geom g)))%nat /\
  countBlocksByTeam (resetAllBlocks g) = (0%nat, 0%nat).
Proof.
  assert (E : forall g, countBlocksByTeam g
                        = (length (blocksOf red g), length (blocksOf blue g))).
  { intros g0. unfold countBlocksByTeam. rewrite count_fold. reflexivity. }
  repeat apply conj.
  - apply E.
  - rewrite E. cbn [fst snd]. unfold blocksOf.
    generalize (blockEntries (geom g)). intros es.
    induction es as [|e es IH]; cbn [List.filter length]; [lia|].
    destruct (colorAt g e.1.1 e.1.2) as [[|[|]]|];
      repeat case_bool_decide; try congruence; cbn [length]; lia.
  - rewrite E.
    assert (Z : forall t, blocksOf t (resetAllBlocks g) = []).
    { intros t. unfold blocksOf.
      destruct (resetAllBlocks_frame g) as (-> & _).
      assert (H : forall e, e ∈ blockEntries (geom g) ->
                    bool_decide (colorAt (resetAllBlocks g) e.1.1 e.1.2
                                 = Some (painted t)) = false).
      { intros e He. apply bool_decide_eq_false.
        apply resetFold_not_painted. exists e. split; [exact He|reflexivity]. }
      revert H. generalize (blockEntries (geom g)). intros es H.
      induction es as [|e es IH]; cbn [List.filter]; [reflexivity|].
      rewrite H by (apply elem_of_cons; auto).
      apply IH. intros e' He'. apply H. apply elem_of_cons. auto. }
    rewrite !Z. reflexivity.
Qed.

(** ** The last player to touch a block paints it *)

Lemma entries_functional m row col b b' :
  (row, col, b) ∈ blockEntries m -> (row, col, b') ∈ blockEntries m -> b = b'.
Proof.
  intros H H'. apply blockEntries_spec in H, H'.
  destruct H as (_ & _ & E), H' as (_ & _ & E'). congruence.
Qed.

Lemma omGet_absent {K V : Type} `{EqDecision K} (k : K) (l : list (K * V)) :
  ~ In k (map fst l) -> omGet k l = None.
Proof.
  induction l as [|[k' v'] l IH]; cbn [omGet map fst In]; [reflexivity|].
  intros Hn. destruct (decide (k = k')) as [->|Hne]; [exfalso; auto|].
  apply IH. auto.
Qed.

Lemma omSet_keys {K V : Type} `{EqDecision K} (k k' : K) (v : V) (l : list (K * V)) :
  In k' (map fst (omSet k v l)) <-> k' = k \/ In k' (map fst l).
Proof.
  induction l as [|[k0 v0] l IH]; cbn [omSet map fst In].
  - intuition congruence.
  - destruct (decide (k = k0)) as [->|Hne]; cbn [map fst In].
    + intuition congruence.
    + rewrite IH. tauto.
Qed.

Lemma omSet_NoDup {K V : Type} `{EqDecision K} (k : K) (v : V) (l : list (K * V)) :
  List.NoDup (map fst l) -> List.NoDup (map fst (omSet k v l)).
Proof.
  induction l as [|[k0 v0] l IH]; cbn [omSet map fst]; intros H.
  - constructor; [intros []|constructor].
  - destruct (decide (k = k0)) as [->|Hne]; cbn [map fst]; [exact H|].
    inversion H as [|? ? Hn Hl]; subst. constructor; [|apply IH; exact Hl].
    rewrite omSet_keys. intros [E|E]; [congruence|contradiction].
Qed.

Lemma collect_lookup m p k es touches :
  omGet k (fold_left (fun touches (e : nat * nat * Block) =>
                        if paintTouches m p e.2
                        then omSet (e.1.1, e.1.2) (p_team p, p_playerId p) touches
                        else touches) es touches)
  = (if existsb (fun e : nat * nat * Block =>
                   bool_decide ((e.1.1, e.1.2) = k) && paintTouches m p e.2) es
     then Some (p_team p, p_playerId p) else omGet k touches).
Proof.
  revert touches. induction es as [|e es IH]; intros touches; cbn [fold_left existsb];
    [reflexivity|].
  rewrite IH. destruct (existsb _ es); [rewrite orb_true_r; reflexivity|].
  rewrite orb_false_r.
  destruct (paintTouches m p e.2); [|rewrite andb_false_r; reflexivity].
  rewrite andb_true_r. case_bool_decide as E.
  - rewrite E. apply omGet_omSet_eq.
  - apply omGet_omSet_ne. exact E.
Qed.

Lemma collect_NoDup m p es touches :
  List.NoDup (map fst touches) ->
  List.NoDup (map fst
    (fold_left (fun touches (e : nat * nat * Block) =>
                  if paintTouches m p e.2
                  then omSet (e.1.1, e.1.2) (p_team p, p_playerId p) touches
                  else touches) es touches)).
Proof.
  revert touches. induction es as [|e es IH]; intros touches H; cbn [fold_left];
    [exact H|].
  apply IH. destruct (paintTouches m p e.2); [apply omSet_NoDup|]; exact H.
Qed.

Lemma collectBlockTouches_lookup m p row col b touches :
  (row, col, b) ∈ blockEntries m ->
  omGet (row, col) (collectBlockTouches m p touches)
  = (if paintTouches m p b then Some (p_team p, p_playerId p)
     else omGet (row, col) touches).
Proof.
  intros Hb. unfold collectBlockTouches. rewrite collect_lookup.
  assert (E : existsb (fun e : nat * nat * Block =>
                         bool_decide ((e.1.1, e.1.2) = (row, col)) && paintTouches m p e.2)
                      (blockEntries m)
              = paintTouches m p b).
  { apply eq_true_iff_eq. rewrite existsb_exists. split.
    - intros ([[r c] b'] & Hin & Ht). cbn [fst snd] in Ht.
      apply andb_true_iff in Ht. destruct Ht as [Hk Ht].
      apply bool_decide_eq_true in Hk. injection Hk as -> ->.
      apply list_elem_of_In in Hin.
      rewrite (entries_functional m row col b b' Hb Hin). exact Ht.
    - intros Ht. exists (row, col, b). split; [apply list_elem_of_In; exact Hb|].
      cbn [fst snd]. rewrite Ht, andb_true_r. apply bool_decide_eq_true. reflexivity. }
  rewrite E. reflexivity.
Qed.

Lemma touches_lookup m row col b ps touches :
  (row, col, b) ∈ blockEntries m ->
  omGet (row, col)
    (fold_left (fun touches (e : string * Player) => collectBlockTouches m e.2 touches)
               ps touches)
  = lastToucherFrom m b ps (omGet (row, col) touches).
Proof.
  intros Hb. revert touches. unfold lastToucherFrom.
  induction ps as [|e ps IH]; intros touches; cbn [fold_left]; [reflexivity|].
  rewrite IH. rewrite (collectBlockTouches_lookup m e.2 row col b touches Hb). reflexivity.
Qed.

Lemma touches_NoDup m ps touches :
  List.NoDup (map fst touches) ->
  List.NoDup (map fst
    (fold_left (fun touches (e : string * Player) => collectBlockTouches m e.2 touches)
               ps touches)).
Proof.
  revert touches. induction ps as [|e ps IH]; intros touches H; cbn [fold_left];
    [exact H|].
  apply IH. apply collect_NoDup. exact H.
Qed.

Lemma setBlockColor_here row col color g :
  hasBlock (geom g) row col ->
  is_Some (colorAt g (Z.to_nat row) (Z.to_nat col)) ->
  colorAt (setBlockColor row col color g) (Z.to_nat row) (Z.to_nat col) = Some color.
Proof.
  intros Hb Hs. rewrite (setBlockColor_inside row col color g Hb).
  case_bool_decide as E.
  - unfold colorAt in *. cbn [blockColors setChangedBlocks setBlockColors].
    apply writeColor_same. exact Hs.
  - destruct (decide (colorAt g (Z.to_nat row) (Z.to_nat col) = Some color)) as [E'|E'];
      [|contradiction].
    destruct (isAtSpawn (geom g) row col); exact E'.
Qed.

Lemma setBlockColor_elsewhere row col color g r c :
  (Z.of_nat r, Z.of_nat c) <> (row, col) ->
  colorAt (setBlockColor row col color g) r c = colorAt g r c.
Proof.
  intros Hne.
  destruct (decide (colorAt (setBlockColor row col color g) r c = colorAt g r c))
    as [E|E]; [exact E|].
  apply setBlockColor_color in E. cbn [marks] in E.
  destruct E as (-> & -> & _). contradiction.
Qed.

Lemma paint_fold_color (ts : list ((nat * nat) * (Team * string))) g r c :
  List.NoDup (map fst ts) ->
  hasBlock (geom g) (Z.of_nat r) (Z.of_nat c) ->
  is_Some (colorAt g r c) ->
  colorAt (fold_left (fun g' (t : (nat * nat) * (Team * string)) =>
                        setBlockColor (Z.of_nat t.1.1) (Z.of_nat t.1.2) (painted t.2.1) g')
                     ts g) r c
  = match omGet (r, c) ts with
    | Some v => Some (painted v.1)
    | None => colorAt g r c
    end.
Proof.
  revert g. induction ts as [|[[r' c'] [t pid]] ts IH]; intros g Hnd Hb Hs;
    cbn [fold_left omGet map fst snd]; [reflexivity|].
  cbn [map fst] in Hnd. inversion Hnd as [|? ? Hn Hl]; subst.
  destruct (decide ((r, c) = (r', c'))) as [[= <- <-]|Hne].
  - assert (Hc : colorAt (setBlockColor (Z.of_nat r) (Z.of_nat c) (painted t) g) r c
                 = Some (painted t)).
    { pose proof (setBlockColor_here (Z.of_nat r) (Z.of_nat c) (painted t) g) as H.
      rewrite !Nat2Z.id in H. apply H; assumption. }
    rewrite IH.
    + rewrite (omGet_absent (r, c) ts Hn). exact Hc.
    + exact Hl.
    + rewrite setBlockColor_geom. exact Hb.
    + rewrite Hc. eauto.
  - assert (Hc : colorAt (setBlockColor (Z.of_nat r') (Z.of_nat c') (painted t) g) r c
                 = colorAt g r c).
    { apply setBlockColor_elsewhere. intros [= E1 E2].
      apply Nat2Z.inj in E1, E2. congruence. }
    rewrite IH.
    + rewrite Hc. reflexivity.
    + exact Hl.
    + rewrite setBlockColor_geom. exact Hb.
    + rewrite Hc. exact Hs.
Qed.

Lemma lastToucherFrom_samePlace m b ps ps' acc :
  Forall2 samePlace ps ps' ->
  lastToucherFrom m b ps' acc = lastToucherFrom m b ps acc.
Proof.
  intros H. revert acc. unfold lastToucherFrom.
  induction H as [|e e' ps ps' He _ IH]; intros acc; cbn [fold_left]; [reflexivity|].
  rewrite IH. destruct He as (_ & Ex & Ey & Et & Ei).
  unfold paintTouches. rewrite Ex, Ey, Et, Ei. reflexivity.
Qed.

Lemma samePlace_refl e : samePlace e e.
Proof. unfold samePlace. auto. Qed.

Lemma samePlace_trans a b c : samePlace a b -> samePlace b c -> samePlace a c.
Proof.
  unfold samePlace. intros (A1 & A2 & A3 & A4 & A5) (B1 & B2 & B3 & B4 & B5).
  repeat apply conj; congruence.
Qed.

(** X15.  The last player to touch a block paints it.  After a tick, a block
    that some player touches at its new position has the colour of the team
    of the last such player in the order in which the players were added; a
    block that no player touches keeps its colour. *)
Theorem last_toucher_paints (dt : Q) (g : GameServer) (row col : nat) (b : Block) :
  (row, col, b) ∈ blockEntries (geom g) ->
  is_Some (colorAt g row col) ->
  colorAt (updateGame dt g) row col
  = match lastToucher (geom g) b (players (updateGame dt g)) with
    | Some v => Some (painted v.1)
    | None => colorAt g row col
    end.
Proof.
  intros Hb Hs.
  destruct (updateGame_players dt g) as (ps1 & E1 & bs & Ep).
  unfold lastToucher. rewrite Ep.
  rewrite (lastToucherFrom_samePlace (geom g) b ps1).
  2:{ apply updateBombs_Forall2.
      - apply samePlace_refl.
      - intros pid p. unfold samePlace. cbn. auto.
      - apply samePlace_trans. }
  unfold updateGame. cbv zeta.
  unfold colorAt at 1. cbn [blockColors setPlayers setBombs].
  match goal with
  | |- colorIn (blockColors (fold_left ?f ?ts ?g0)) row col = ?rhs =>
      change (colorAt (fold_left f ts g0) row col = rhs);
      rewrite (paint_fold_color ts g0 row col)
  end.
  - cbn [players setThrownBombs setSpawnIndices setPlayerInputs setPlayers].
    rewrite <- E1.
    rewrite (touches_lookup (geom g) row col b ps1 [] Hb). cbn [omGet]. reflexivity.
  - apply touches_NoDup. constructor.
  - cbn [geom setThrownBombs setSpawnIndices setPlayerInputs setPlayers].
    apply entries_hasBlock. exists (row, col, b). split; [exact Hb|reflexivity].
  - exact Hs.
Qed.

Lemma last_toucher_paints_witness :
  colorAt (updateGame fixedTimestep demoTwoOnBlock) 20 10 = Some (painted blue).
Proof.
  rewrite (last_toucher_paints fixedTimestep demoTwoOnBlock 20 10
             (blockOfCell demoGeom 20 10 0)).
  - vm_compute. reflexivity.
  - apply blockEntries_spec. repeat split; vm_compute; try lia.
  - vm_compute. eauto.
Defined.

(** ** The end of a round *)

Lemma resetFold_shape es g :
  fold_left resetBlock es g
  = setChangedBlocks (changedBlocks (fold_left resetBlock es g))
      (setBlockColors (blockColors (fold_left resetBlock es g)) g).
Proof.
  revert g. induction es as [|e es IH]; intros g; cbn [fold_left].
  - destruct g. reflexivity.
  - rewrite IH at 1. reflexivity.
Qed.

Lemma resetAllBlocks_shape g :
  resetAllBlocks g
  = setChangedBlocks (changedBlocks (resetAllBlocks g))
      (setBlockColors (blockColors (resetAllBlocks g)) g).
Proof. apply resetFold_shape. Qed.

Lemma initializeBombs_shape g :
  initializeBombs g = setBombs (bombs (initializeBombs g)) g.
Proof.
  unfold initializeBombs. destruct (mapData g) as [md|]; [|destruct g; reflexivity].
  destruct (md_bombSpawns md); destruct g; reflexivity.
Qed.

Lemma assignTeams_shape ps k g :
  (assignTeams k ps g).2
  = setPlayers (players (assignTeams k ps g).2)
      (setPlayerInputs (playerInputs (assignTeams k ps g).2)
         (setSpawnIndices (spawnIndices (assignTeams k ps g).2) g)).
Proof.
  revert k g. induction ps as [|[pid info] ps IH]; intros k g; cbn [assignTeams snd].
  - destruct g. reflexivity.
  - rewrite IH at 1. reflexivity.
Qed.

Lemma removeQueued_empty g ps : players g = [] -> removeQueued g ps = g.
Proof.
  intros H. unfold removeQueued. induction ps as [|e ps IH]; cbn [fold_left]; [reflexivity|].
  rewrite H. cbn [omGet]. exact IH.
Qed.

Lemma winner_rule (rd bl : nat) :
  let w := if Nat.ltb bl rd then WinTeam red
           else if Nat.ltb rd bl then WinTeam blue else WinTie in
  (w = WinTeam red <-> (bl < rd)%nat) /\
  (w = WinTeam blue <-> (rd < bl)%nat) /\
  (w = WinTie <-> rd = bl).
Proof.
  cbv zeta. destruct (Nat.ltb bl rd) eqn:E1.
  { apply Nat.ltb_lt in E1. split; [|split]; split; intros; try discriminate; try lia.
    reflexivity. }
  apply Nat.ltb_ge in E1. destruct (Nat.ltb rd bl) eqn:E2.
  { apply Nat.ltb_lt in E2. split; [|split]; split; intros; try discriminate; try lia.
    reflexivity. }
  apply Nat.ltb_ge in E2. split; [|split]; split; intros; try discriminate; try lia.
  reflexivity.
Qed.

(** X16.  The end of a round.  [endGame] reports the two scores and the
    winner (the team with strictly more blocks, a tie otherwise), empties
    the game of players, bombs and thrown bombs, broadcasts that empty
    state and empties the queue.  The painted board, and the input states
    and acknowledged sequence numbers of the players that were in the game,
    stay on the game server: [removePlayer] is not reached for any of
    them. *)
Theorem endGame_leaves_inputs (serverTime : Z) (mg : Manager) :
  let r := endGame serverTime mg in
  let g := gameServer mg in
  let g' := gameServer r.2 in
  (ge_redBlocks r.1.1, ge_blueBlocks r.1.1) = countBlocksByTeam g /\
  (ge_winner r.1.1 = WinTeam red <-> (ge_blueBlocks r.1.1 < ge_redBlocks r.1.1)%nat) /\
  (ge_winner r.1.1 = WinTeam blue <-> (ge_redBlocks r.1.1 < ge_blueBlocks r.1.1)%nat) /\
  (ge_winner r.1.1 = WinTie <-> ge_redBlocks r.1.1 = ge_blueBlocks r.1.1) /\
  gameState r.2 = ENDED /\ queued r.2 = [] /\
  players g' = [] /\ bombs g' = [] /\ thrownBombs g' = [] /\
  snap_players r.1.2 = [] /\ snap_bombs r.1.2 = [] /\ snap_thrownBombs r.1.2 = [] /\
  blockColors g' = blockColors g /\
  playerInputs g' = playerInputs g /\
  lastProcessedSequence g' = lastProcessedSequence g /\
  snap_lastProcessedSequences r.1.2 = lastProcessedSequence g.
Proof.
  cbv zeta. unfold endGame. cbv zeta. cbn [fst snd].
  rewrite removeQueued_empty by reflexivity.
  cbn [ge_redBlocks ge_blueBlocks ge_winner gameState queued gameServer
       setQueued setGameState setGameServer].
  destruct (winner_rule (countBlocksByTeam (gameServer mg)).1
                        (countBlocksByTeam (gameServer mg)).2) as (W1 & W2 & W3).
  split; [destruct (countBlocksByTeam (gameServer mg)); reflexivity|].
  split; [exact W1|]. split; [exact W2|]. split; [exact W3|].
  repeat apply conj; try reflexivity.
  rewrite getSnapshot_sequences. reflexivity.
Qed.

Lemma endGame_after serverTime mg :
  queued (endGame serverTime mg).2 = [] /\
  lastProcessedSequence (gameServer (endGame serverTime mg).2)
  = lastProcessedSequence (gameServer mg).
Proof.
  unfold endGame. cbv zeta. cbn [snd queued gameServer setQueued setGameState setGameServer].
  rewrite removeQueued_empty by reflexivity.
  cbn [getSnapshot snd lastProcessedSequence setChangedBlocks setThrownBombs setBombs
       setPlayers].
  auto.
Qed.

Lemma startQueueCountdown_after now serverTime mg :
  queued (startQueueCountdown now serverTime mg).2 = queued mg /\
  lastProcessedSequence (gameServer (startQueueCountdown now serverTime mg).2)
  = lastProcessedSequence (gameServer mg).
Proof.
  unfold startQueueCountdown. cbv zeta. cbn [snd queued gameServer].
  split; [reflexivity|].
  cbn [getSnapshot snd lastProcessedSequence setChangedBlocks setPlayers].
  rewrite initializeBombs_shape.
  cbn [lastProcessedSequence setBombs setThrownBombs setGameTime].
  rewrite resetAllBlocks_shape. reflexivity.
Qed.

Lemma handlePlayerJoin_after serverTime socketId playerId mg :
  omGet playerId (queued mg) = None ->
  queued (handlePlayerJoin serverTime socketId playerId mg).2
  = omSet playerId (mkInfo socketId None None) (queued mg) /\
  lastProcessedSequence (gameServer (handlePlayerJoin serverTime socketId playerId mg).2)
  = lastProcessedSequence (gameServer mg).
Proof.
  intros H. unfold handlePlayerJoin, joinQueue. rewrite H.
  cbn [snd broadcastSnapshot queued gameServer setGameServer setQueued getSnapshot
       lastProcessedSequence setChangedBlocks].
  auto.
Qed.

Lemma startGame_sequences now serverTime mg :
  lastProcessedSequence (gameServer (startGame now serverTime mg).2)
  = lastProcessedSequence (gameServer mg).
Proof.
  rewrite startGame_server. cbn [lastProcessedSequence setChangedBlocks].
  rewrite assignTeams_shape.
  cbn [lastProcessedSequence setPlayers setPlayerInputs setSpawnIndices].
  rewrite initializeBombs_shape. cbn [lastProcessedSequence setBombs setGameTime].
  rewrite resetAllBlocks_shape. reflexivity.
Qed.

Lemma omGet_present {K V : Type} `{EqDecision K} (k : K) (l : list (K * V)) :
  is_Some (omGet k l) -> In k (map fst l).
Proof.
  induction l as [|[k' v'] l IH]; cbn [omGet map fst In].
  - intros [v H]. discriminate.
  - destruct (decide (k = k')) as [->|Hne]; [auto|]. intros H. right. apply IH, H.
Qed.

Lemma handlePlayerJoin_queue serverTime socketId playerId mg :
  let mg' := (handlePlayerJoin serverTime socketId playerId mg).2 in
  lastProcessedSequence (gameServer mg') = lastProcessedSequence (gameServer mg) /\
  gameState mg' = gameState mg /\
  forall k, In k (map fst (queued mg')) <-> In k (map fst (queued mg)) \/ k = playerId.
Proof.
  cbv zeta. unfold handlePlayerJoin, joinQueue.
  destruct (omGet playerId (queued mg)) as [info|] eqn:E.
  - cbn [snd]. split; [reflexivity|]. split; [reflexivity|].
    intros k. split; [auto|]. intros [H| ->]; [exact H|].
    apply omGet_present. rewrite E. eauto.
  - cbn [snd broadcastSnapshot queued gameServer gameState setGameServer setQueued
         getSnapshot lastProcessedSequence setChangedBlocks].
    split; [reflexivity|]. split; [reflexivity|].
    intros k. rewrite omSet_keys. tauto.
Qed.

Lemma updateTimers_queue now mg :
  gameState mg = QUEUE ->
  gameServer (updateTimers now mg).1 = gameServer mg /\
  queued (updateTimers now mg).1 = queued mg /\
  gameState (updateTimers now mg).1 = QUEUE.
Proof.
  intros H. unfold updateTimers. rewrite H. cbv zeta.
  destruct (Qleb _ 0); [cbn; auto|].
  destruct (negb _); cbn; auto.
Qed.

Lemma queueStep_after mg ev :
  gameState mg = QUEUE ->
  lastProcessedSequence (gameServer (queueStep mg ev))
  = lastProcessedSequence (gameServer mg) /\
  gameState (queueStep mg ev) = QUEUE /\
  forall k, In k (map fst (queued (queueStep mg ev)))
            <-> In k (map fst (queued mg)) \/ joiner ev = Some k.
Proof.
  intros Hq. destruct ev as [t sock pid|t|t|now]; cbn [queueStep joiner].
  - destruct (handlePlayerJoin_queue t sock pid mg) as (J1 & J2 & J3).
    cbv zeta in J1, J2, J3. split; [exact J1|]. split; [congruence|].
    intros k. rewrite J3. split; intros [H|H]; auto; right; congruence.
  - unfold handleSpectatorJoin, broadcastSnapshot. cbv zeta.
    cbn [snd gameServer gameState queued setGameServer getSnapshot
         lastProcessedSequence setChangedBlocks].
    split; [reflexivity|]. split; [exact Hq|]. intros k. split; [auto|].
    intros [H|H]; [exact H|discriminate].
  - unfold broadcastSnapshot. cbv zeta.
    cbn [snd gameServer gameState queued setGameServer getSnapshot
         lastProcessedSequence setChangedBlocks].
    split; [reflexivity|]. split; [exact Hq|]. intros k. split; [auto|].
    intros [H|H]; [exact H|discriminate].
  - destruct (updateTimers_queue now mg Hq) as (U1 & U2 & U3).
    rewrite U1, U2. split; [reflexivity|]. split; [exact U3|].
    intros k. split; [auto|]. intros [H|H]; [exact H|discriminate].
Qed.

Lemma queuePhase_after evs mg :
  gameState mg = QUEUE ->
  lastProcessedSequence (gameServer (queuePhase evs mg))
  = lastProcessedSequence (gameServer mg) /\
  gameState (queuePhase evs mg) = QUEUE /\
  forall k, In k (map fst (queued (queuePhase evs mg)))
            <-> In k (map fst (queued mg)) \/ In k (omap joiner evs).
Proof.
  unfold queuePhase. revert mg.
  induction evs as [|ev evs IH]; intros mg Hq; cbn [fold_left].
  - split; [reflexivity|]. split; [exact Hq|]. intros k.
    change (omap joiner []) with (@nil string). cbn [In]. tauto.
  - destruct (queueStep_after mg ev Hq) as (J1 & J2 & J3).
    destruct (IH (queueStep mg ev) J2) as (I1 & I2 & I3).
    split; [congruence|]. split; [exact I2|].
    intros k. rewrite I3, J3.
    change (omap joiner (ev :: evs))
      with (match joiner ev with
            | Some p => p :: omap joiner evs
            | None => omap joiner evs
            end).
    destruct (joiner ev) as [p|]; cbn [In].
    + split.
      * intros [[H|H]|H]; auto. inversion H. auto.
      * intros [H|[H|H]]; auto. left. right. congruence.
    + split.
      * intros [[H|H]|H]; auto. discriminate.
      * intros [H|H]; auto.
Qed.

Lemma assignTeams_keeps ps k g pid :
  is_Some (omGet pid (players g)) ->
  is_Some (omGet pid (players (assignTeams k ps g).2)).
Proof.
  revert k g. induction ps as [|[pid' info] ps IH]; intros k g H; cbn [assignTeams snd].
  - exact H.
  - apply IH. unfold addPlayer. cbv zeta. cbn [snd players setPlayers].
    destruct (decide (pid' = pid)) as [->|Hne].
    + rewrite omGet_omSet_eq. eauto.
    + rewrite omGet_omSet_ne by exact Hne. exact H.
Qed.

Lemma assignTeams_present ps k g pid :
  In pid (map fst ps) -> is_Some (omGet pid (players (assignTeams k ps g).2)).
Proof.
  revert k g. induction ps as [|[pid' info] ps IH]; intros k g; cbn [map fst In];
    [intros []|].
  intros [->|H]; cbn [assignTeams snd].
  - apply assignTeams_keeps. unfold addPlayer. cbv zeta. cbn [snd players setPlayers].
    rewrite omGet_omSet_eq. eauto.
  - apply IH. exact H.
Qed.

Lemma assignTeams_inputs_other ps k g pid :
  ~ In pid (map fst ps) ->
  playerInputs (assignTeams k ps g).2 !! pid = playerInputs g !! pid.
Proof.
  revert k g. induction ps as [|[pid' info] ps IH]; intros k g; cbn [map fst In];
    cbn [assignTeams snd]; [reflexivity|].
  intros Hn. rewrite IH by tauto.
  unfold addPlayer. cbv zeta. cbn [snd playerInputs setPlayers setPlayerInputs].
  apply lookup_insert_ne. intros ->. tauto.
Qed.

Lemma assignTeams_inputs ps k g pid :
  In pid (map fst ps) -> playerInputs (assignTeams k ps g).2 !! pid = Some defaultInput.
Proof.
  revert k g. induction ps as [|[pid' info] ps IH]; intros k g; cbn [map fst In];
    [intros []|].
  intros H. cbn [assignTeams snd].
  destruct (in_dec string_dec pid (map fst ps)) as [Hin|Hout].
  - apply IH. exact Hin.
  - destruct H as [->|H]; [|contradiction].
    rewrite assignTeams_inputs_other by exact Hout.
    unfold addPlayer. cbv zeta. cbn [snd playerInputs setPlayers setPlayerInputs].
    apply lookup_insert_eq.
Qed.

(** X17.  Acknowledged sequence numbers outlive the round.  Through the end
    of a round, the return to the queue, the queue phase -- players and
    spectators joining, snapshots, timers, in any number and order -- and
    the start of the next round, [lastProcessedSequence] is never written.
    At the end of the queue phase the state is still [QUEUE] and the queue
    holds the players that joined, a player joining twice counting once.
    When the countdown check then resolves with the game not paused: with
    fewer than two players queued no round starts; with two or more the
    round starts, every player that joined is in the game with the default
    input state, and the snapshot that [startGame] broadcasts, like the ones
    after it, reports the sequence numbers of the round before -- a player
    that plays again is reported its old number until its first input. *)
Theorem sequences_survive_rounds (t1 t2 t4 t5 : Z) (now now' : Q)
    (evs : list QueueEvent) (mg : Manager) :
  let mg1 := (endGame t1 mg).2 in
  let mg2 := (startQueueCountdown now t2 mg1).2 in
  let mg3 := queuePhase evs mg2 in
  let r4 := onPausedChecked now' t4 false mg3 in
  let seqs := lastProcessedSequence (gameServer mg) in
  lastProcessedSequence (gameServer mg1) = seqs /\
  lastProcessedSequence (gameServer mg2) = seqs /\
  lastProcessedSequence (gameServer mg3) = seqs /\
  lastProcessedSequence (gameServer r4.2) = seqs /\
  gameState mg3 = QUEUE /\
  (forall playerId, In playerId (map fst (queued mg3)) <-> In playerId (omap joiner evs)) /\
  ((length (queued mg3) < 2)%nat -> r4.1 = None /\ gameState r4.2 = QUEUE) /\
  ((2 <= length (queued mg3))%nat ->
     gameState r4.2 = PLAYING /\
     map fst (queued r4.2) = map fst (queued mg3) /\
     (forall playerId, In playerId (omap joiner evs) ->
        is_Some (omGet playerId (players (gameServer r4.2))) /\
        playerInputs (gameServer r4.2) !! playerId = Some defaultInput) /\
     (exists s, r4.1 = Some s /\ snap_lastProcessedSequences s = seqs) /\
     snap_lastProcessedSequences (broadcastSnapshot t5 r4.2).1 = seqs).
Proof.
  cbv zeta.
  destruct (endGame_after t1 mg) as (Q1 & S1).
  revert Q1 S1. generalize (endGame t1 mg).2. intros mg1 Q1 S1.
  destruct (startQueueCountdown_after now t2 mg1) as (Q2 & S2).
  rewrite Q1 in Q2. rewrite S1 in S2.
  assert (G2 : gameState (startQueueCountdown now t2 mg1).2 = QUEUE) by reflexivity.
  revert Q2 S2 G2. generalize (startQueueCountdown now t2 mg1).2. intros mg2 Q2 S2 G2.
  destruct (queuePhase_after evs mg2 G2) as (S3 & G3 & K3).
  rewrite S2 in S3. rewrite Q2 in K3.
  revert S3 G3 K3. generalize (queuePhase evs mg2). intros mg3 S3 G3 K3.
  assert (K : forall playerId,
            In playerId (map fst (queued mg3)) <-> In playerId (omap joiner evs)).
  { intros playerId. rewrite K3. cbn [map In]. tauto. }
  pose proof (startGame_sequences now' t4 mg3) as S4. rewrite S3 in S4.
  unfold onPausedChecked.
  destruct (Nat.leb 2 (length (queued mg3))) eqn:El.
  - cbn [fst snd]. split; [exact S1|]. split; [exact S2|]. split; [exact S3|].
    split; [exact S4|]. split; [exact G3|]. split; [exact K|]. split.
    { apply Nat.leb_le in El. intros Hlt. lia. }
    intros _.
    destruct (startGame_fields now' t4 mg3) as (F1 & _ & _ & _ & _ & _ & F7 & F8).
    cbv zeta in F1, F7, F8.
    split; [exact F1|]. split; [rewrite F7; apply assignTeams_keys|]. split; [|split].
    + intros playerId Hin. apply K in Hin. rewrite startGame_server.
      cbn [players playerInputs setChangedBlocks].
      split; [apply assignTeams_present; exact Hin|apply assignTeams_inputs; exact Hin].
    + eexists. split; [reflexivity|]. rewrite F8, getSnapshot_sequences.
      rewrite <- S4, startGame_server. reflexivity.
    + unfold broadcastSnapshot. cbv zeta. cbn [fst].
      rewrite getSnapshot_sequences. exact S4.
  - cbn [fst snd gameServer gameState setQueueCountdown].
    split; [exact S1|]. split; [exact S2|]. split; [exact S3|].
    split; [exact S3|]. split; [exact G3|]. split; [exact K|]. split.
    { intros _. split; [reflexivity|exact G3]. }
    apply Nat.leb_gt in El. intros Hge. lia.
Qed.

Lemma sequences_survive_rounds_witness :
  let evs := [PlayerJoins 3 "s1" "p1"; TimersRun 30000; PlayerJoins 4 "s2" "p2";
              SnapshotSent 5; PlayerJoins 6 "s1" "p1"; TimersRun 62000]%Z%string in
  let mg3 := queuePhase evs (startQueueCountdown 2000 2 (endGame 1 demoAcked).2).2 in
  let r4 := onPausedChecked 62050 7 false mg3 in
  map fst (queued mg3) = ["p1"; "p2"]%string /\
  gameState r4.2 = PLAYING /\
  is_Some (omGet "p1"%string (players (gameServer r4.2))) /\
  exists s, r4.1 = Some s /\ snap_lastProcessedSequences s !! "p1"%string = Some 7%Z.
Proof.
  cbv zeta.
  destruct (sequences_survive_rounds 1 2 7 8 2000 62050
              [PlayerJoins 3 "s1" "p1"; TimersRun 30000; PlayerJoins 4 "s2" "p2";
               SnapshotSent 5; PlayerJoins 6 "s1" "p1"; TimersRun 62000]%Z%string
              demoAcked)
    as (_ & _ & _ & _ & _ & _ & _ & H).
  destruct H as (H1 & _ & H3 & (s & H4 & H5) & _).
  { vm_compute. lia. }
  split; [vm_compute; reflexivity|]. split; [exact H1|].
  split; [apply H3; cbn; auto|].
  exists s. split; [exact H4|]. rewrite H5. reflexivity.
Defined.

(** ** Snapshots sent to one socket *)

(** X18.  A join takes the delta.  The snapshot sent to a joining player or
    spectator alone is made by [getSnapshot] like the broadcast ones, so it
    empties the dirty set: it carries the block changes that no broadcast
    has carried yet, and the next broadcast snapshot, if no block is written
    in between, carries none. *)
Theorem join_takes_the_delta (t1 t2 : Z) (socketId playerId : string) (mg : Manager) :
  omGet playerId (queued mg) = None ->
  let r := handlePlayerJoin t1 socketId playerId mg in
  let s := handleSpectatorJoin t1 mg in
  (exists snap, r.1 = Some snap /\
     snap_blockChanges snap = snap_blockChanges (broadcastSnapshot t1 mg).1) /\
  snap_blockChanges (broadcastSnapshot t2 r.2).1 = [] /\
  snap_blockChanges s.1 = snap_blockChanges (broadcastSnapshot t1 mg).1 /\
  snap_blockChanges (broadcastSnapshot t2 s.2).1 = [] /\
  blockColors (gameServer r.2) = blockColors (gameServer mg) /\
  gameServer s.2 = setChangedBlocks [] (gameServer mg).
Proof.
  intros Hq. cbv zeta. unfold handlePlayerJoin, handleSpectatorJoin, joinQueue.
  rewrite Hq. cbn [fst snd]. repeat apply conj; try reflexivity.
  eexists. split; reflexivity.
Qed.

Lemma join_takes_the_delta_witness :
  snap_blockChanges
    (broadcastSnapshot 2
       (handlePlayerJoin 1 "s9" "p9"
          (setGameServer (setBlockColor 20 30 (painted red) demoServer) demoManager)).2).1
  = [].
Proof.
  apply (join_takes_the_delta 1 2 "s9" "p9"
           (setGameServer (setBlockColor 20 30 (painted red) demoServer) demoManager)).
  reflexivity.
Defined.

(** ** Leaving *)

Lemma omGet_omDelete_ne {K V : Type} `{EqDecision K} (k k' : K) (l : list (K * V)) :
  k <> k' -> omGet k' (omDelete k l) = omGet k' l.
Proof.
  intros Hne. induction l as [|[k0 v0] l IH]; cbn [omDelete omGet]; [reflexivity|].
  destruct (decide (k = k0)) as [->|H0].
  - destruct (decide (k' = k0)) as [->|H1]; [congruence|reflexivity].
  - cbn [omGet]. rewrite IH. reflexivity.
Qed.

Lemma omGet_omDelete_eq {K V : Type} `{EqDecision K} (k : K) (l : list (K * V)) :
  List.NoDup (map fst l) -> omGet k (omDelete k l) = None.
Proof.
  induction l as [|[k0 v0] l IH]; cbn [omDelete omGet map fst]; [reflexivity|].
  intros H. inversion H as [|? ? Hn Hl]; subst.
  destruct (decide (k = k0)) as [->|H0].
  - apply omGet_absent. exact Hn.
  - cbn [omGet]. destruct (decide (k = k0)); [contradiction|]. apply IH. exact Hl.
Qed.

Lemma omDelete_keys {K V : Type} `{EqDecision K} (k : K) (l : list (K * V)) :
  List.NoDup (map fst l) ->
  map fst (omDelete k l) = List.filter (fun k' => negb (bool_decide (k' = k))) (map fst l).
Proof.
  induction l as [|[k0 v0] l IH]; cbn [omDelete map fst List.filter]; [reflexivity|].
  intros H. inversion H as [|? ? Hn Hl]; subst.
  destruct (decide (k = k0)) as [->|H0].
  - rewrite bool_decide_eq_true_2 by reflexivity. cbn [negb].
    symmetry. clear -Hn. induction (map fst l) as [|k1 ks IH]; cbn [List.filter];
      [reflexivity|].
    rewrite bool_decide_eq_false_2 by (intros ->; apply Hn; left; reflexivity).
    cbn [negb]. f_equal. apply IH. intros Hin. apply Hn. right. exact Hin.
  - rewrite bool_decide_eq_false_2 by congruence. cbn [negb map fst].
    f_equal. apply IH. exact Hl.
Qed.

(** X19.  A player that disconnects is gone: it leaves the queue and, when
    it was in the game, the game server drops its character, its input
    state and its acknowledged sequence number.  The other players keep
    their place in the queue, their character, their input state and their
    sequence number. *)
Theorem disconnect_removes_player (playerId : string) (mg : Manager) :
  List.NoDup (map fst (queued mg)) ->
  List.NoDup (map fst (players (gameServer mg))) ->
  is_Some (omGet playerId (queued mg)) ->
  let mg' := handleDisconnect playerId mg in
  omGet playerId (queued mg') = None /\
  omGet playerId (players (gameServer mg')) = None /\
  (is_Some (omGet playerId (players (gameServer mg))) ->
     playerInputs (gameServer mg') !! playerId = None /\
     lastProcessedSequence (gameServer mg') !! playerId = None) /\
  map fst (queued mg')
  = List.filter (fun k => negb (bool_decide (k = playerId))) (map fst (queued mg)) /\
  (forall other, other <> playerId ->
     omGet other (queued mg') = omGet other (queued mg) /\
     omGet other (players (gameServer mg')) = omGet other (players (gameServer mg)) /\
     playerInputs (gameServer mg') !! other = playerInputs (gameServer mg) !! other /\
     lastProcessedSequence (gameServer mg') !! other
     = lastProcessedSequence (gameServer mg) !! other).
Proof.
  intros Hq Hp [info Hi]. cbv zeta. unfold handleDisconnect. rewrite Hi.
  cbn [queued gameServer setQueued setGameServer].
  destruct (omGet playerId (players (gameServer mg))) as [p|] eqn:Eg.
  - unfold removePlayer.
    cbn [players playerInputs lastProcessedSequence
         setLastProcessedSequence setPlayerInputs setPlayers].
    repeat apply conj.
    + apply omGet_omDelete_eq. exact Hq.
    + apply omGet_omDelete_eq. exact Hp.
    + intros _. split; apply lookup_delete_eq.
    + apply omDelete_keys. exact Hq.
    + intros other Hne. repeat apply conj.
      * apply omGet_omDelete_ne. congruence.
      * apply omGet_omDelete_ne. congruence.
      * apply lookup_delete_ne. congruence.
      * apply lookup_delete_ne. congruence.
  - repeat apply conj.
    + apply omGet_omDelete_eq. exact Hq.
    + exact Eg.
    + intros [? ?]. discriminate.
    + apply omDelete_keys. exact Hq.
    + intros other Hne. repeat apply conj; try reflexivity.
      apply omGet_omDelete_ne. congruence.
Qed.

Lemma disconnect_removes_player_witness :
  let mg := (startGame 0 0 demoManager).2 in
  omGet "p2" (queued (handleDisconnect "p2" mg)) = None /\
  omGet "p2" (players (gameServer (handleDisconnect "p2" mg))) = None /\
  map fst (queued (handleDisconnect "p2" mg)) = ["p1"%string; "p3"%string].
Proof.
  cbv zeta.
  destruct (disconnect_removes_player "p2" (startGame 0 0 demoManager).2)
    as (H1 & H2 & _ & H4 & _).
  - vm_compute. repeat constructor; cbn [In]; intuition discriminate.
  - vm_compute. repeat constructor; cbn [In]; intuition discriminate.
  - vm_compute. eauto.
  - repeat apply conj; [exact H1|exact H2|]. rewrite H4. vm_compute. reflexivity.
Defined.

(** ** Back to the queue *)

(** X20.  The return to the queue resets the game.  [startQueueCountdown]
    puts the manager in [QUEUE] with 60 s on the clock and the queue as it
    was; the game server has no player and no thrown bomb, its clock is 0,
    its bombs are those of a new game (one for each bomb spawn of the map in
    the grid, in order, numbered from 0, at the top centre of its block or
    cell, 20 x 20, available, timer 0, delay 10 s), every block is white, and
    the snapshot it broadcasts lists every block, so that the clients repaint
    the whole board. *)
Theorem queue_restart_resets (now : Q) (serverTime : Z) (mg : Manager) :
  colorsAllocated (gameServer mg) ->
  let r := startQueueCountdown now serverTime mg in
  let g' := gameServer r.2 in
  gameState r.2 = QUEUE /\ queueCountdown r.2 = 60 /\ lastQueueUpdate r.2 = now /\
  queued r.2 = queued mg /\ roundNumber r.2 = roundNumber mg /\
  players g' = [] /\ thrownBombs g' = [] /\ gameTime g' = dzero /\
  Forall freshBomb (bombs g') /\ bombsReset (gameServer mg) (bombs g') /\
  changedBlocks g' = [] /\
  snap_players r.1 = [] /\ snap_thrownBombs r.1 = [] /\
  forall row col b, (row, col, b) ∈ blockEntries (geom (gameServer mg)) ->
    colorAt g' row col = Some white /\
    listed r.1 (Z.of_nat row) (Z.of_nat col) = true.
Proof.
  intros Hok. cbv zeta. unfold startQueueCountdown. cbv zeta.
  cbn [fst snd gameState queueCountdown lastQueueUpdate queued roundNumber gameServer].
  set (g := gameServer mg) in *.
  set (g3 := initializeBombs (setThrownBombs [] (setBombs [] (setGameTime dzero (resetAllBlocks g))))).
  assert (S3 : exists B, g3 = setBombs B
                             (setThrownBombs [] (setGameTime dzero (resetAllBlocks g))) /\
                         Forall freshBomb B /\ bombsReset g B).
  { assert (Hc : bombsConsistent
                   (setThrownBombs [] (setBombs [] (setGameTime dzero (resetAllBlocks g))))).
    { unfold bombsConsistent.
      cbn [mapData bombs setThrownBombs setBombs setGameTime].
      destruct (mapData (resetAllBlocks g)) as [md|]; [|reflexivity].
      destruct (md_bombSpawns md); [exact I|reflexivity]. }
    exists (bombs g3). split; [|split].
    - unfold g3. rewrite initializeBombs_shape at 1. reflexivity.
    - unfold g3. apply initializeBombs_fresh. exact Hc.
    - destruct (resetAllBlocks_frame g) as (R1 & R2 & _).
      apply (bombsReset_ext g (resetAllBlocks g) _ R1 R2).
      unfold g3.
      apply (bombsReset_ext (resetAllBlocks g)
               (setThrownBombs [] (setBombs [] (setGameTime dzero (resetAllBlocks g))))
               _ eq_refl eq_refl).
      apply initializeBombs_reset. exact Hc. }
  clearbody g3. destruct S3 as (B & -> & F3 & F4).
  split; [reflexivity|]. split; [reflexivity|]. split; [reflexivity|].
  split; [reflexivity|]. split; [reflexivity|]. split; [reflexivity|].
  split; [reflexivity|]. split; [reflexivity|]. split; [exact F3|].
  split; [exact F4|]. split; [reflexivity|]. split; [reflexivity|].
  split; [reflexivity|].
  - intros row col b Hb. split.
    + unfold colorAt. cbn [getSnapshot snd blockColors setChangedBlocks setPlayers
                           setBombs setThrownBombs setGameTime].
      apply (resetAllBlocks_white g row col b Hok Hb).
    + apply getSnapshot_listed.
      cbn [changedBlocks geom setPlayers setBombs setThrownBombs setGameTime].
      destruct (resetAllBlocks_frame g) as (-> & _).
      pose proof (proj1 (blockEntries_spec _ _ _ _) Hb) as (Hr & Hc & _).
      split; [|lia].
      apply resetFold_changed. right. exists (row, col, b). split; [exact Hb|reflexivity].
Qed.

Lemma queue_restart_resets_witness :
  let r := startQueueCountdown 5000 5 demoManager in
  gameState r.2 = QUEUE /\ players (gameServer r.2) = [] /\
  listed r.1 20 30 = true.
Proof.
  cbv zeta.
  destruct (queue_restart_resets 5000 5 demoManager
              (proj1 (newGameServer_serverOK demoMap)))
    as (H1 & _ & _ & _ & _ & H2 & _ & _ & _ & _ & _ & _ & _ & H3).
  repeat apply conj; [exact H1|exact H2|].
  apply (H3 20%nat 30%nat (blockOfCell demoGeom 20 30 9)).
  apply blockEntries_spec. repeat split; vm_compute; try lia.
Defined.

(** ** Collisions *)

Lemma firstSome_found {A B : Type} (f : A -> option B) (l : list A) (r : B) :
  firstSome f l = Some r -> exists a, a ∈ l /\ f a = Some r.
Proof.
  induction l as [|a l IH]; cbn [firstSome]; [discriminate|].
  destruct (f a) as [r'|] eqn:E.
  - intros [= <-]. exists a. split; [apply elem_of_cons; auto|exact E].
  - intros H. destruct (IH H) as (a' & Ha & Ea). exists a'.
    split; [apply elem_of_cons; auto|exact Ea].
Qed.

Lemma firstSome_none {A B : Type} (f : A -> option B) (l : list A) :
  firstSome f l = None <-> forall a, a ∈ l -> f a = None.
Proof.
  induction l as [|a l IH]; cbn [firstSome].
  - split; [intros _ a Ha; inversion Ha|reflexivity].
  - destruct (f a) as [r'|] eqn:E.
    + split; [discriminate|]. intros H. rewrite <- E. apply H. apply elem_of_cons. auto.
    + rewrite IH. split.
      * intros H a' Ha'. apply elem_of_cons in Ha'. destruct Ha' as [->|Ha']; auto.
      * intros H a' Ha'. apply H. apply elem_of_cons. auto.
Qed.

Lemma checkCollisionBlock_some m x y v prev b r :
  checkCollisionBlock m x y v prev b = Some r ->
  collided r = true /\ insideBlock m x y b = true /\
  (0 <= v -> blockBottom r = None /\ (isJumpPad b = true -> jumpPadLetsThrough m y v b = false)) /\
  (v < 0 -> blockBottom r = Some (b_y b + b_height b) /\ isJumpPad b = false).
Proof.
  unfold checkCollisionBlock. cbv zeta.
  change (Qltb (x - CHAR_WIDTH m / 2) (b_x b + effWidth b - 0) &&
          Qgtb (x + CHAR_WIDTH m / 2) (b_x b + 0) &&
          Qltb (y - CHAR_HEIGHT m) (b_y b + b_height b - (1 # 2)) &&
          Qgtb y (b_y b + (1 # 2))) with (insideBlock m x y b).
  destruct (insideBlock m x y b); [|discriminate].
  destruct (isJumpPad b && jumpPadLetsThrough m y v b) eqn:Ej; [discriminate|].
  destruct (Qltb v 0) eqn:Ev.
  - apply Qltb_spec in Ev.
    destruct (Qltb (x - CHAR_WIDTH m / 2) (b_x b + effWidth b) &&
              Qgtb (x + CHAR_WIDTH m / 2) (b_x b)); [|discriminate].
    destruct (Qleb (y - CHAR_HEIGHT m) (b_y b + b_height b)); [|discriminate].
    assert (Hj : isJumpPad b = false).
    { destruct (isJumpPad b); [|reflexivity]. cbn [andb] in Ej.
      unfold jumpPadLetsThrough in Ej. cbv zeta in Ej.
      rewrite (proj2 (Qltb_spec v 0) Ev) in Ej. discriminate. }
    destruct prev; intros [= <-]; cbn [collided blockBottom];
      (repeat apply conj; [reflexivity|reflexivity|intros; lra|intros _; auto]).
  - apply Qltb_false in Ev. intros [= <-]. cbn [collided blockBottom].
    repeat apply conj; try reflexivity.
    + intros _. split; [reflexivity|]. intros Hp. rewrite Hp in Ej. exact Ej.
    + intros; lra.
Qed.

Lemma insideBlock_overlaps m x y b : insideBlock m x y b = true -> overlaps m x y b = true.
Proof.
  unfold insideBlock, overlaps. cbv zeta. intros H. qbool.
  repeat (apply andb_true_iff; split);
    first [apply Qltb_spec | apply Qgtb_spec]; lra.
Qed.

(** X21.  What a collision means.  When [checkCollision] reports a
    collision, the character box overlaps some block of the grid (by more
    than half a pixel vertically), and [checkHorizontalCollision] reports one
    at the same place.  For a character that is not moving up the converse
    holds for regular blocks: overlapping one that way is always a collision,
    and no ceiling is reported.  A ceiling is reported exactly for
    collisions found while moving up, and never that of a jump pad. *)
Theorem collision_means_overlap (m : MapGeom) (x y velocityY : Q) (prevY : option Q) :
  let r := checkCollision m x y velocityY prevY in
  (collided r = true ->
     (exists b, b ∈ blockList m /\ insideBlock m x y b = true /\
                overlaps m x y b = true /\
                (velocityY < 0 ->
                   isJumpPad b = false /\ blockBottom r = Some (b_y b + b_height b))) /\
     h_collided (checkHorizontalCollision m x y) = true) /\
  (0 <= velocityY ->
     blockBottom r = None /\
     forall b, b ∈ blockList m -> insideBlock m x y b = true -> isJumpPad b = false ->
               collided r = true) /\
  (collided r = false -> blockBottom r = None).
Proof.
  cbv zeta. unfold checkCollision, collisionAmong.
  destruct (firstSome (checkCollisionBlock m x y velocityY prevY) (blockList m))
    as [r|] eqn:E.
  - destruct (firstSome_found _ _ _ E) as (b & Hb & Eb).
    destruct (checkCollisionBlock_some m x y velocityY prevY b r Eb)
      as (Hc & Hi & Hdown & Hup).
    split; [|split].
    + intros _. split.
      * exists b. split; [exact Hb|]. split; [exact Hi|].
        split; [apply insideBlock_overlaps; exact Hi|].
        intros Hv. destruct (Hup Hv) as (A & B). split; assumption.
      * unfold checkHorizontalCollision.
        destruct (List.find (overlaps m x y) (blockList m)) eqn:Ef; [reflexivity|].
        exfalso.
        pose proof (find_none _ _ Ef b (proj1 (list_elem_of_In _ _) Hb)) as Hf.
        cbn beta in Hf. rewrite (insideBlock_overlaps _ _ _ _ Hi) in Hf. discriminate.
    + intros Hv. split; [apply Hdown; exact Hv|]. intros b' _ _ _. exact Hc.
    + intros Hf. congruence.
  - rewrite firstSome_none in E. split; [|split].
    + cbn. discriminate.
    + intros Hv. split; [reflexivity|]. intros b Hb Hi Hj. exfalso.
      specialize (E b Hb).
      unfold checkCollisionBlock in E. cbv zeta in E.
      change (Qltb (x - CHAR_WIDTH m / 2) (b_x b + effWidth b - 0) &&
              Qgtb (x + CHAR_WIDTH m / 2) (b_x b + 0) &&
              Qltb (y - CHAR_HEIGHT m) (b_y b + b_height b - (1 # 2)) &&
              Qgtb y (b_y b + (1 # 2))) with (insideBlock m x y b) in E.
      rewrite Hi, Hj in E. cbn [andb] in E.
      rewrite (proj2 (Qltb_false velocityY 0) Hv) in E. discriminate.
    + intros _. reflexivity.
Qed.

(** ** The closest ground *)

(** X22.  [getGroundY] finds the closest ground: it answers exactly when
    some block lies under the character's footprint with its top between
    3 px above and 50 px below the character's bottom, and the answer is the
    top of the highest such block. *)
Theorem closest_ground (m : MapGeom) (x y : Q) :
  (getGroundY m x y = None <->
   forall b, b ∈ blockList m -> groundCandidate m x y b = false) /\
  (forall g, getGroundY m x y = Some g ->
     (exists b, b ∈ blockList m /\ groundCandidate m x y b = true /\ b_y b = g) /\
     (forall b, b ∈ blockList m -> groundCandidate m x y b = true -> g <= b_y b) /\
     y - 3 <= g /\ g <= y + 50).
Proof.
  split.
  - split.
    + intros Hn b Hb. destruct (groundCandidate m x y b) eqn:E; [|reflexivity].
      destruct (getGroundY_some m x y b Hb E) as [g Hg]. congruence.
    + intros H. destruct (getGroundY m x y) as [g|] eqn:E; [|reflexivity].
      destruct (getGroundY_spec m x y g E) as ((b & Hb & Hc & _) & _).
      rewrite (H b Hb) in Hc. discriminate.
  - intros g E. destruct (getGroundY_spec m x y g E) as ((b & Hb & Hc & Hy) & Hmin).
    split; [exists b; auto|]. split; [exact Hmin|].
    unfold groundCandidate in Hc. cbv zeta in Hc. qbool. rewrite <- Hy. split; lra.
Qed.

(** ** The bombs of a map *)

Lemma addBomb_loaded md bs rc :
  addBomb (loadGeom md) bs rc
  = (if inGrid (mapRows (loadGeom md)) (mapCols (loadGeom md)) rc.1 rc.2
     then bs ++ [bombOfCell (loadGeom md) (length bs) rc.1 rc.2] else bs).
Proof.
  unfold addBomb. cbv zeta.
  destruct (inGrid _ _ _ _) eqn:Eg; [|reflexivity].
  unfold inGrid in Eg.
  apply andb_true_iff in Eg. destruct Eg as [Eg E4].
  apply andb_true_iff in Eg. destruct Eg as [Eg E3].
  apply andb_true_iff in Eg. destruct Eg as [E1 E2].
  destruct (loadGeom_cells md) as [Hin _]. cbv zeta in Hin.
  rewrite (Hin rc.1 rc.2) by lia.
  destruct (lastTile (md_blocks md) rc.1 rc.2); reflexivity.
Qed.

Lemma addBomb_fold md spawns bs :
  fold_left (addBomb (loadGeom md)) spawns bs
  = bs ++ bombsFrom (loadGeom md) (length bs)
            (List.filter (fun rc : Z * Z =>
                            inGrid (mapRows (loadGeom md)) (mapCols (loadGeom md)) rc.1 rc.2)
                         spawns).
Proof.
  revert bs. induction spawns as [|rc spawns IH]; intros bs; cbn [fold_left List.filter].
  - cbn [bombsFrom]. rewrite app_nil_r. reflexivity.
  - rewrite IH, addBomb_loaded.
    destruct (inGrid _ _ _ _); [|reflexivity].
    rewrite length_app, <- app_assoc. cbn [length bombsFrom app].
    rewrite Nat.add_1_r. reflexivity.
Qed.

Lemma bombsFrom_ids m n cells : map bm_id (bombsFrom m n cells) = seq n (length cells).
Proof.
  revert n. induction cells as [|rc cells IH]; intros n; cbn [bombsFrom map length seq];
    [reflexivity|].
  rewrite IH. reflexivity.
Qed.

Lemma bombsFrom_cells m n cells :
  map (fun b => (bm_spawnRow b, bm_spawnCol b)) (bombsFrom m n cells) = cells.
Proof.
  revert n. induction cells as [|[r c] cells IH]; intros n; cbn [bombsFrom map];
    [reflexivity|].
  rewrite IH. reflexivity.
Qed.

(** X23.  The bombs of a new game: one bomb for each bomb spawn of the map
    that lies in the grid, in the order of the map file and numbered from 0,
    each available, at the top centre of its cell whether or not the cell
    holds a block; spawns outside the grid are skipped.  Initialising the
    bombs again gives the same bombs. *)
Theorem bombs_of_new_game (md : MapData) :
  let g := newGameServer md in
  bombs g = bombsFrom (loadGeom md) 0 (bombCells md) /\
  map bm_id (bombs g) = seq 0 (length (bombCells md)) /\
  map (fun b => (bm_spawnRow b, bm_spawnCol b)) (bombs g) = bombCells md /\
  initializeBombs g = g.
Proof.
  cbv zeta.
  assert (E : bombs (newGameServer md) = bombsFrom (loadGeom md) 0 (bombCells md)).
  { unfold newGameServer, initializeBombs, bombCells. cbv zeta. cbn [mapData geom].
    destruct (md_bombSpawns md) as [spawns|]; [|reflexivity].
    cbn [bombs setBombs]. rewrite addBomb_fold. reflexivity. }
  split; [exact E|]. split; [rewrite E; apply bombsFrom_ids|].
  split; [rewrite E; apply bombsFrom_cells|].
  unfold newGameServer, initializeBombs. cbv zeta. cbn [mapData geom].
  destruct (md_bombSpawns md) as [spawns|] eqn:Es; cbn [mapData setBombs]; rewrite Es;
    reflexivity.
Qed.

(** ** Adding and removing a player *)




(** ** Opposite keys *)

(** X25.  Opposite direction keys cancel: with a and d both held,
    [applyMovement] leaves the player where it is, for any time step.  The
    snapshot nevertheless reports the full speed to the right,
    [velocityX = 180], for such a player. *)
Theorem opposite_keys_cancel (m : MapGeom) (dt : Q) (i : InputState) (p : Player)
    (g : GameServer) :
  i_a i = true -> i_d i = true ->
  applyMovement m dt i p = p /\
  (playerInputs g !! p_playerId p = Some i -> sn_velocityX (snapPlayer g p) = SPEED).
Proof.
  intros Ha Hd. split.
  - unfold applyMovement. cbv zeta. rewrite Ha, Hd.
    assert (E : Qeqb (0 - SPEED * dt + SPEED * dt) 0 = true) by (apply Qeqb_spec; ring).
    rewrite E. reflexivity.
  - intros Hi. unfold snapPlayer. cbv zeta. rewrite Hi, Ha, Hd. reflexivity.
Qed.

Lemma opposite_keys_cancel_witness :
  applyMovement demoGeom fixedTimestep bothHeld playerOnBlock = playerOnBlock /\
  sn_velocityX (snapPlayer (setPlayerInputs (<["p1"%string := bothHeld]> ∅) demoServer1)
                           playerOnBlock) = SPEED.
Proof.
  destruct (opposite_keys_cancel demoGeom fixedTimestep bothHeld playerOnBlock
              (setPlayerInputs (<["p1"%string := bothHeld]> ∅) demoServer1)
              eq_refl eq_refl) as (H1 & H2).
  split; [exact H1|]. apply H2. reflexivity.
Defined.

(** ** Painting and touching *)

Lemma touch_distances m :
  0 <= blockWidth m -> touchDistance m <= ceilingTouchDistance m.
Proof.
  intros H. unfold touchDistance, ceilingTouchDistance.
  apply Q.max_lub.
  - eapply Qle_trans; [|apply Q.le_max_l]. lra.
  - eapply Qle_trans; [|apply Q.le_max_r].
    assert (E1 : 5 / 20 * blockWidth m == (1 # 4) * blockWidth m) by field.
    assert (E2 : 8 / 20 * blockWidth m == (2 # 5) * blockWidth m) by field.
    rewrite E1, E2. lra.
Qed.

(** X26.  A player paints only blocks it touches in the sense of the wall
    jump: on a map whose block width is not negative, every block within
    painting reach of the player passes the proximity test of
    [isTouchingBlock], so a player that paints a block of the grid can jump
    off it. *)
Theorem painted_block_is_touched (m : MapGeom) (p : Player) (b : Block) :
  0 <= blockWidth m ->
  paintTouches m p b = true ->
  touchesBlock m (p_x p) (p_y p) b = true /\
  (b ∈ blockList m -> isTouchingBlock m (p_x p) (p_y p) = true).
Proof.
  intros Hw Hp.
  assert (Ht : touchesBlock m (p_x p) (p_y p) b = true).
  { pose proof (touch_distances m Hw) as Hd.
    unfold paintTouches in Hp. unfold touchesBlock. cbv zeta in *.
    set (td := touchDistance m) in *. set (ctd := ceilingTouchDistance m) in *.
    clearbody td ctd.
    destruct (Qgeb (p_x p + CHAR_WIDTH m / 2) (b_x b - td) &&
              Qleb (p_x p + CHAR_WIDTH m / 2) (b_x b + td) &&
              Qltb (p_y p - CHAR_HEIGHT m) (b_y b + b_height b) &&
              Qgtb (p_y p) (b_y b)) eqn:E1; [reflexivity|].
    destruct (Qleb (p_x p - CHAR_WIDTH m / 2) (b_x b + effWidth b + td) &&
              Qgeb (p_x p - CHAR_WIDTH m / 2) (b_x b + effWidth b - td) &&
              Qltb (p_y p - CHAR_HEIGHT m) (b_y b + b_height b) &&
              Qgtb (p_y p) (b_y b)) eqn:E2; [reflexivity|].
    cbn [orb].
    destruct (Qgeb (p_y p) (b_y b - td) && Qleb (p_y p) (b_y b + td) &&
              Qltb (p_x p - CHAR_WIDTH m / 2) (b_x b + effWidth b) &&
              Qgtb (p_x p + CHAR_WIDTH m / 2) (b_x b)) eqn:E3.
    { clear E1 E2. qbool.
      assert (G : Qgeb (p_y p) (b_y b - ctd) && Qleb (p_y p) (b_y b + ctd) &&
                  Qltb (p_x p - CHAR_WIDTH m / 2) (b_x b + effWidth b) &&
                  Qgtb (p_x p + CHAR_WIDTH m / 2) (b_x b) = true).
      { repeat (apply andb_true_iff; split);
          first [apply Qgeb_spec | apply Qleb_spec | apply Qltb_spec | apply Qgtb_spec];
          lra. }
      rewrite G. reflexivity. }
    destruct (Qleb (p_y p - CHAR_HEIGHT m) (b_y b + b_height b + td) &&
              Qgeb (p_y p - CHAR_HEIGHT m) (b_y b + b_height b - td) &&
              Qltb (p_x p - CHAR_WIDTH m / 2) (b_x b + effWidth b) &&
              Qgtb (p_x p + CHAR_WIDTH m / 2) (b_x b)) eqn:E4;
      [apply orb_true_r|discriminate]. }
  split; [exact Ht|].
  intros Hb. unfold isTouchingBlock. apply existsb_exists.
  exists b. split; [apply list_elem_of_In; exact Hb|exact Ht].
Qed.

Lemma painted_block_is_touched_witness :
  touchesBlock demoGeom (p_x playerOnBlock) (p_y playerOnBlock) (blockOfCell demoGeom 20 10 0)
  = true.
Proof.
  destruct (painted_block_is_touched demoGeom playerOnBlock (blockOfCell demoGeom 20 10 0))
    as [H _].
  - vm_compute. discriminate.
  - vm_compute. reflexivity.
  - exact H.
Defined.

(** ** Players stay in the map *)

Lemma clampX_inside m x :
  mapLeft m <= mapRight m -> mapLeft m <= clampX m x /\ clampX m x <= mapRight m.
Proof.
  intros H. unfold clampX. split.
  - apply Q.le_max_l.
  - apply Q.max_lub; [exact H|apply Q.le_min_l].
Qed.

Lemma stepPlayer_contained m dt s :
  mapLeft m <= mapRight m ->
  let p' := st_player (stepPlayer m dt s) in
  insideMap m p' \/ atSpawn m p'.
Proof.
  intros H. cbv zeta. unfold stepPlayer. cbn [st_player].
  set (r8 := safetyCheck m (st_spawnIndices s) _).
  set (p9 := boundaryCheck m r8.1).
  assert (H9 : insideMap m p9).
  { unfold p9, boundaryCheck, insideMap. cbn [p_x setX]. apply clampX_inside. exact H. }
  assert (T9 : forall q, p_team (fallCheck m r8.2 q).1 = p_team q).
  { intros q. apply (stageEffect_identity _ _ (fallCheck_effect m r8.2 q)). }
  clearbody p9. unfold fallCheck in *.
  destruct (Qgtb (p_y p9) GAME_HEIGHT); [|left; exact H9].
  destruct (getGroundY m (p_x p9) GAME_HEIGHT); [left; exact H9|].
  right. unfold atSpawn, respawnAtSpawn. cbn [fst p_x p_y p_team setOnGround setVelocityY
                                                   setY setX].
  exists r8.2. destruct (getSpawnPoint m r8.2 (p_team p9)) as [[sx sy] si]. reflexivity.
Qed.

Lemma loadGeom_edges md :
  (0 < mapCols (loadGeom md))%Z -> (0 < mapRows (loadGeom md))%Z ->
  mapLeft (loadGeom md) <= mapRight (loadGeom md) /\
  20 <= mapLeft (loadGeom md) - CHAR_WIDTH (loadGeom md) / 2 /\
  mapRight (loadGeom md) + CHAR_WIDTH (loadGeom md) / 2 <= 1900.
Proof.
  intros Hc Hr.
  destruct (loadGeom_sizes md Hc Hr) as (H0 & Hw & Hh & Ebh & Esx & Esy).
  unfold mapLeft, mapRight.
  assert (Ecw : CHAR_WIDTH (loadGeom md) = blockWidth (loadGeom md)) by reflexivity.
  rewrite Ecw.
  assert (Hc1 : 1 <= inject_Z (mapCols (loadGeom md))).
  { change 1 with (inject_Z 1). rewrite <- Zle_Qle. lia. }
  assert (Hm : 1 * blockWidth (loadGeom md)
               <= inject_Z (mapCols (loadGeom md)) * blockWidth (loadGeom md))
    by (apply Qmult_le_compat_r; assumption).
  assert (Cc : inject_Z (mapCols (loadGeom md)) * blockWidth (loadGeom md)
               == blockWidth (loadGeom md) * inject_Z (mapCols (loadGeom md))) by ring.
  assert (Eh : blockWidth (loadGeom md) / 2 == blockWidth (loadGeom md) * (1 # 2)) by field.
  rewrite Eh.
  set (W := blockWidth (loadGeom md) * inject_Z (mapCols (loadGeom md))) in *.
  set (P := inject_Z (mapCols (loadGeom md)) * blockWidth (loadGeom md)) in *.
  set (B := blockWidth (loadGeom md)) in *.
  set (X := startX (loadGeom md)) in *.
  clearbody W P B X.
  repeat apply conj; lra.
Qed.

(** X28.  Players stay in the map.  On a loaded map with at least one row
    and one column, after a tick every player is between the left and the
    right edge of the grid, its box inside the padded screen, or stands
    where [getSpawnPoint] puts a player of its team (a player that fell below
    the screen with no ground under it is respawned).  This holds wherever
    the players were before the tick. *)
Theorem players_stay_in_map (md : MapData) (dt : Q) (g : GameServer) :
  geom g = loadGeom md ->
  (0 < mapCols (geom g))%Z -> (0 < mapRows (geom g))%Z ->
  (20 <= mapLeft (geom g) - CHAR_WIDTH (geom g) / 2 /\
   mapRight (geom g) + CHAR_WIDTH (geom g) / 2 <= 1900) /\
  Forall (fun e : string * Player => insideMap (geom g) e.2 \/ atSpawn (geom g) e.2)
         (players (updateGame dt g)).
Proof.
  intros Eg Hc Hr. rewrite Eg in Hc, Hr.
  destruct (loadGeom_edges md Hc Hr) as (Hlr & Hl & Hrt).
  rewrite Eg. split; [split; assumption|].
  destruct (updateGame_players dt g) as (ps1 & E1 & bs & ->). rewrite Eg in *.
  set (Q := fun e : string * Player =>
              insideMap (loadGeom md) e.2 \/ atSpawn (loadGeom md) e.2).
  assert (H1 : Forall2 (fun _ b => Q b) (players g) ps1).
  { subst ps1. apply stepPlayers_Forall2. intros pid p inp si. unfold Q. cbn [snd].
    apply (stepPlayer_contained (loadGeom md) _ (mkStep p inp si) Hlr). }
  assert (H1' : Forall Q ps1).
  { clear -H1. induction H1; constructor; assumption. }
  assert (H2 : Forall2 (fun a b => Q a -> Q b) ps1
                 (updateBombs (loadGeom md) (Qmin dt (1 / 30)) bs ps1).2).
  { apply updateBombs_Forall2; unfold Q; auto. }
  revert H1' H2. generalize (updateBombs (loadGeom md) (Qmin dt (1 / 30)) bs ps1).2.
  clear. intros l H1 H2. induction H2; inversion H1; subst; constructor; auto.
Qed.

Lemma players_stay_in_map_witness :
  Forall (fun e : string * Player => insideMap (geom demoResting) e.2 \/
                                     atSpawn (geom demoResting) e.2)
         (players (updateGame fixedTimestep demoResting)).
Proof.
  apply (players_stay_in_map demoMap fixedTimestep demoResting).
  - reflexivity.
  - reflexivity.
  - reflexivity.
Defined.

(** ** The guard of the pause check *)

Lemma startGame_queue now serverTime mg :
  length (queued (startGame now serverTime mg).2) = length (queued mg) /\
  gameState (startGame now serverTime mg).2 = PLAYING /\
  roundNumber (startGame now serverTime mg).2 = S (roundNumber mg) /\
  gameCountdown (startGame now serverTime mg).2 = 120 /\
  lastGameUpdate (startGame now serverTime mg).2 = now.
Proof.
  unfold startGame. cbv zeta.
  cbn [snd queued gameState roundNumber gameCountdown lastGameUpdate].
  repeat apply conj; try reflexivity.
  rewrite <- (length_map fst), assignTeams_keys, length_map. reflexivity.
Qed.

(** X29.  The guard of the pause check lasts 100 ms.  When the queue
    countdown runs out, [updateTimers] starts the asynchronous check of the
    paused flag and leaves 0.1 s on the clock; a call less than 100 ms later
    starts no other check, but a call 100 ms later or more starts a second
    one while the first may still be pending.  The continuation of the check
    does not look at the state of the game: when both run, with the game not
    paused and two players queued, [startGame] runs twice -- the round
    number goes up by two and the second run restarts the clock of the
    round. *)
Theorem pause_check_guard (now now' t3 t4 : Q) (s3 s4 : Z) (mg : Manager) :
  gameState mg = QUEUE ->
  queueCountdown mg - (now - lastQueueUpdate mg) / 1000 <= 0 ->
  let r1 := updateTimers now mg in
  let r2 := updateTimers now' r1.1 in
  r1.2 = PausedCheck /\
  (now' - now < 100 -> r2.2 <> PausedCheck) /\
  (100 <= now' - now ->
     r2.2 = PausedCheck /\ gameState r2.1 = QUEUE /\ queued r2.1 = queued mg /\
     ((2 <= length (queued mg))%nat ->
      let mg3 := (onPausedChecked t3 s3 false r2.1).2 in
      let mg4 := (onPausedChecked t4 s4 false mg3).2 in
      gameState mg3 = PLAYING /\ roundNumber mg3 = S (roundNumber mg) /\
      gameState mg4 = PLAYING /\ roundNumber mg4 = S (S (roundNumber mg)) /\
      gameCountdown mg4 = 120 /\ lastGameUpdate mg4 = t4)).
Proof.
  intros Hs He. cbv zeta.
  assert (E1 : updateTimers now mg
               = (mkManager (gameServer mg) (queued mg) QUEUE (1 # 10) (gameCountdown mg)
                            now (lastGameUpdate mg) (roundNumber mg)
                            (currentRoundStartTime mg), PausedCheck)).
  { unfold updateTimers. rewrite Hs. cbv zeta.
    rewrite (proj2 (Qleb_spec _ 0) He). unfold setQueueCountdown.
    cbn [gameServer queued gameState gameCountdown lastQueueUpdate lastGameUpdate
         roundNumber currentRoundStartTime]. reflexivity. }
  rewrite E1. cbn [fst snd]. split; [reflexivity|].
  unfold updateTimers. cbn [gameState queueCountdown lastQueueUpdate]. cbv zeta.
  assert (Ef : (1 # 10) - (now' - now) / 1000 == (100 - (now' - now)) * (1 # 1000)) by field.
  split.
  - intros Hlt.
    assert (Hf : Qleb ((1 # 10) - (now' - now) / 1000) 0 = false).
    { apply Qleb_false. rewrite Ef. lra. }
    rewrite Hf. destruct (negb _); cbn [snd]; discriminate.
  - intros Hge.
    assert (Ht : Qleb ((1 # 10) - (now' - now) / 1000) 0 = true).
    { apply Qleb_spec. rewrite Ef. lra. }
    rewrite Ht. cbn [fst snd]. unfold setQueueCountdown.
    cbn [gameServer queued gameState gameCountdown lastQueueUpdate lastGameUpdate
         roundNumber currentRoundStartTime].
    repeat apply conj; try reflexivity.
    intros Hq. cbv zeta.
    set (mg2 := mkManager (gameServer mg) (queued mg) QUEUE (1 # 10) (gameCountdown mg)
                          now' (lastGameUpdate mg) (roundNumber mg)
                          (currentRoundStartTime mg)).
    assert (E3 : (onPausedChecked t3 s3 false mg2).2 = (startGame t3 s3 mg2).2).
    { unfold onPausedChecked. cbn [queued mg2].
      rewrite (proj2 (Nat.leb_le _ _) Hq). reflexivity. }
    rewrite E3.
    destruct (startGame_queue t3 s3 mg2) as (L3 & S3 & R3 & _ & _).
    assert (E4 : (onPausedChecked t4 s4 false (startGame t3 s3 mg2).2).2
                 = (startGame t4 s4 (startGame t3 s3 mg2).2).2).
    { unfold onPausedChecked. rewrite L3. cbn [queued mg2].
      rewrite (proj2 (Nat.leb_le _ _) Hq). reflexivity. }
    rewrite E4.
    destruct (startGame_queue t4 s4 (startGame t3 s3 mg2).2) as (_ & S4 & R4 & C4 & U4).
    repeat apply conj; assumption.
Qed.

Lemma pause_check_guard_witness :
  (updateTimers 1000 demoManager).2 = PausedCheck /\
  (updateTimers 1100 (updateTimers 1000 demoManager).1).2 = PausedCheck /\
  roundNumber (onPausedChecked 1300 1300 false
                 (onPausedChecked 1200 1200 false
                    (updateTimers 1100 (updateTimers 1000 demoManager).1).1).2).2
  = 2%nat.
Proof.
  destruct (pause_check_guard 1000 1100 1200 1300 1200 1300 demoManager)
    as (H1 & _ & H3).
  - reflexivity.
  - vm_compute. discriminate.
  - destruct H3 as (H4 & _ & _ & H5); [lra|].
    destruct H5 as (_ & _ & _ & H6 & _).
    + cbn [queued demoManager length]. lia.
    + repeat apply conj; assumption.
Defined.

(** ** The chat history *)

Lemma trimStart_length s : (String.length (trimStart s) <= String.length s)%nat.
Proof.
  induction s as [|c s IH]; cbn [trimStart String.length]; [lia|].
  destruct (isSpace c); cbn [String.length]; lia.
Qed.

Lemma trimEnd_length s : (String.length (trimEnd s) <= String.length s)%nat.
Proof.
  induction s as [|c s IH]; cbn [trimEnd String.length]; [lia|].
  destruct (trimEnd s) as [|c' t].
  - destruct (isSpace c); cbn [String.length]; lia.
  - cbn [String.length] in *. lia.
Qed.

Lemma trim_length s : (String.length (trim s) <= String.length s)%nat.
Proof.
  unfold trim. etransitivity; [apply trimEnd_length|apply trimStart_length].
Qed.

Lemma pushChat_last msg (acc : list ChatMessage) :
  pushChat msg (drop (length acc - MAX_CHAT_MESSAGES) acc)
  = drop (length (acc ++ [msg]) - MAX_CHAT_MESSAGES) (acc ++ [msg]).
Proof.
  unfold pushChat, MAX_CHAT_MESSAGES. cbv zeta.
  rewrite !length_app, length_drop. cbn [length].
  destruct (Nat.ltb 100 (length acc - (length acc - 100) + 1)) eqn:E.
  - apply Nat.ltb_lt in E.
    replace (length acc + 1 - 100)%nat with (length acc - 100 + 1)%nat by lia.
    rewrite <- drop_app_le by lia. rewrite <- drop_drop.
    generalize (drop (length acc - 100) (acc ++ [msg])). intros l.
    destruct l; reflexivity.
  - apply Nat.ltb_ge in E.
    replace (length acc - 100)%nat with 0%nat by lia.
    replace (length acc + 1 - 100)%nat with 0%nat by lia.
    reflexivity.
Qed.

Lemma chatStep_sent h ev :
  chatStep h ev = match chatSent ev with Some m => pushChat m h | None => h end.
Proof.
  destruct ev as [id now message username stored|id now message];
    unfold chatStep, chatSent, onChatMessage, sendSystemMessage; [|reflexivity].
  destruct message as [s|b]; [|reflexivity].
  destruct (negb (truthy (JsString s)) || Nat.eqb (String.length (trim s)) 0);
    [reflexivity|].
  destruct (Nat.ltb 200 (String.length s)); reflexivity.
Qed.

Lemma onChatMessage_rule id now message username stored h :
  onChatMessage id now message username stored h
  = match message with
    | JsOther _ => (ChatIgnored, h)
    | JsString s =>
        if Nat.eqb (String.length (trim s)) 0 then (ChatIgnored, h)
        else if Nat.ltb 200 (String.length s) then (ChatTooLong, h)
        else (ChatBroadcast (mkChat id (displayName username stored) (trim s) now false),
              pushChat (mkChat id (displayName username stored) (trim s) now false) h)
    end.
Proof.
  unfold onChatMessage, displayName. destruct message as [s|b]; [|reflexivity].
  cbn [truthy]. destruct (String.eqb s "") eqn:E; [|reflexivity].
  apply String.eqb_eq in E. subst s. reflexivity.
Qed.

Lemma displayName_truthy username stored : truthy (displayName username stored) = true.
Proof.
  unfold displayName. destruct (truthy username) eqn:E1; [exact E1|].
  destruct (truthy stored) eqn:E2; [exact E2|reflexivity].
Qed.

Lemma chatSent_user id now message username stored m :
  chatSent (UserChat id now message username stored) = Some m <->
  exists s, message = JsString s /\
            (0 < String.length (trim s))%nat /\ (String.length s <= 200)%nat /\
            m = mkChat id (displayName username stored) (trim s) now false.
Proof.
  unfold chatSent. rewrite onChatMessage_rule.
  destruct message as [s|b].
  - destruct (Nat.eqb (String.length (trim s)) 0) eqn:E1.
    + apply Nat.eqb_eq in E1. cbn [fst]. split; [discriminate|].
      intros (s' & [= <-] & H & _). lia.
    + apply Nat.eqb_neq in E1.
      destruct (Nat.ltb 200 (String.length s)) eqn:E2.
      * apply Nat.ltb_lt in E2. cbn [fst]. split; [discriminate|].
        intros (s' & [= <-] & _ & H & _). lia.
      * apply Nat.ltb_ge in E2. cbn [fst]. split.
        -- intros [= <-]. exists s. repeat apply conj; try reflexivity; lia.
        -- intros (s' & [= <-] & _ & _ & ->). reflexivity.
  - cbn [fst]. split; [discriminate|]. intros (s' & H & _). discriminate.
Qed.

Lemma chatSent_valid ev m :
  chatSent ev = Some m ->
  if cm_isSystem m
  then cm_username m = JsString "System"
  else truthy (cm_username m) = true /\
       exists s, cm_message m = trim s /\
                 (0 < String.length (trim s))%nat /\ (String.length s <= 200)%nat.
Proof.
  destruct ev as [id now message username stored|id now message].
  - intros H. apply chatSent_user in H. destruct H as (s & _ & H1 & H2 & ->).
    cbn [cm_isSystem cm_username cm_message]. split; [apply displayName_truthy|].
    exists s. auto.
  - unfold chatSent, sendSystemMessage. cbn [fst]. intros [= <-]. reflexivity.
Qed.

Lemma chatAfter_last evs :
  chatAfter evs
  = drop (length (omap chatSent evs) - MAX_CHAT_MESSAGES) (omap chatSent evs).
Proof.
  unfold chatAfter.
  assert (G : forall acc,
            fold_left chatStep evs (drop (length acc - MAX_CHAT_MESSAGES) acc)
            = drop (length (acc ++ omap chatSent evs) - MAX_CHAT_MESSAGES)
                   (acc ++ omap chatSent evs)).
  { induction evs as [|ev evs IH]; intros acc; cbn [fold_left].
    - change (omap chatSent []) with (@nil ChatMessage).
      rewrite app_nil_r. reflexivity.
    - rewrite chatStep_sent.
      change (omap chatSent (ev :: evs))
        with (match chatSent ev with
              | Some m => m :: omap chatSent evs
              | None => omap chatSent evs
              end).
      destruct (chatSent ev) as [m|].
      + rewrite pushChat_last, IH, <- app_assoc. reflexivity.
      + apply IH. }
  apply (G []).
Qed.

(** X30.  The chat history holds the last 100 messages.  From an empty
    history, after any sequence of user and system messages the history is
    the list of the messages that were accepted, in order, cut to its last
    100.  A user message is accepted exactly when it is a string that is not
    blank and that has, as received, at most 200 characters: a longer one is
    answered with an error even if it trims to less, and a value that is not
    a string, or a blank string, is ignored.  An accepted message is stored
    trimmed, under the name given if it is truthy, else under the stored
    name if that is truthy, else under "Anonymous"; the name is whatever
    truthy value was given, not always a string.  A system message is always
    accepted, as it is, under the name "System".  Whatever is not accepted
    leaves the history as it was. *)
Theorem chat_keeps_last_100 (evs : list ChatEvent) :
  chatAfter evs
  = drop (length (omap chatSent evs) - MAX_CHAT_MESSAGES) (omap chatSent evs) /\
  (length (chatAfter evs) <= MAX_CHAT_MESSAGES)%nat /\
  (forall id now message username stored m,
     chatSent (UserChat id now message username stored) = Some m <->
     exists s, message = JsString s /\
               (0 < String.length (trim s))%nat /\ (String.length s <= 200)%nat /\
               m = mkChat id
                     (if truthy username then username
                      else if truthy stored then stored else JsString "Anonymous")
                     (trim s) now false) /\
  (forall id now s username stored h,
     (0 < String.length (trim s))%nat -> (200 < String.length s)%nat ->
     onChatMessage id now (JsString s) username stored h = (ChatTooLong, h)) /\
  (forall id now message username stored h,
     match message with
     | JsString s => String.length (trim s) = 0%nat
     | JsOther _ => True
     end ->
     onChatMessage id now message username stored h = (ChatIgnored, h)) /\
  (forall id now message,
     chatSent (SystemChat id now message)
     = Some (mkChat id (JsString "System") message now true)) /\
  Forall (fun m =>
            if cm_isSystem m
            then cm_username m = JsString "System"
            else truthy (cm_username m) = true /\
                 exists s, cm_message m = trim s /\
                           (0 < String.length (trim s))%nat /\
                           (String.length s <= 200)%nat)
         (chatAfter evs) /\
  (forall ev, chatSent ev = None -> chatAfter (evs ++ [ev]) = chatAfter evs).
Proof.
  pose proof (chatAfter_last evs) as E.
  split; [exact E|]. split; [|split; [|split; [|split; [|split; [|split]]]]].
  - rewrite E, length_drop. unfold MAX_CHAT_MESSAGES. lia.
  - intros id now message username stored m. apply chatSent_user.
  - intros id now s username stored h H1 H2. rewrite onChatMessage_rule.
    destruct (Nat.eqb (String.length (trim s)) 0) eqn:E1;
      [apply Nat.eqb_eq in E1; lia|].
    destruct (Nat.ltb 200 (String.length s)) eqn:E2; [reflexivity|].
    apply Nat.ltb_ge in E2. lia.
  - intros id now message username stored h H. rewrite onChatMessage_rule.
    destruct message as [s|b]; [|reflexivity].
    rewrite H. reflexivity.
  - reflexivity.
  - rewrite E. apply Forall_forall. intros m Hm.
    assert (Hin : m ∈ omap chatSent evs).
    { revert Hm. generalize (length (omap chatSent evs) - MAX_CHAT_MESSAGES)%nat.
      intros k Hm. apply list_elem_of_lookup in Hm. destruct Hm as (i & Hi).
      rewrite lookup_drop in Hi. eapply list_elem_of_lookup_2. exact Hi. }
    apply list_elem_of_omap in Hin. destruct Hin as (ev & _ & Hev).
    apply (chatSent_valid ev m Hev).
  - intros ev Hn. unfold chatAfter. rewrite fold_left_app. cbn [fold_left].
    rewrite chatStep_sent, Hn. reflexivity.
Qed.

Lemma chat_keeps_last_100_witness :
  String.length paddedHi = 201%nat /\ trim paddedHi = "hi"%string /\
  chatAfter [UserChat "1" 5 (JsString paddedHi) (JsString "ann") (JsOther false);
             UserChat "2" 6 (JsString "  hi ") (JsOther true) (JsOther false);
             UserChat "3" 7 (JsString "   ") (JsString "ann") (JsOther false);
             UserChat "4" 8 (JsOther true) (JsString "ann") (JsOther false);
             UserChat "5" 9 (JsString "yo") (JsString "") (JsOther false)]
  = [mkChat "2" (JsOther true) "hi" 6 false;
     mkChat "5" (JsString "Anonymous") "yo" 9 false].
Proof.
  split; [reflexivity|]. split; [reflexivity|].
  rewrite (proj1 (chat_keeps_last_100 _)). reflexivity.
Defined.

